(** * Value lowering of the LDC back end: casts, assignment, constant folding,
      the x86 ABI strategy and the registry of globals.

    A shallow embedding of [gen/llvmhelpers.cpp], [gen/toconstelem.cpp] and
    [gen/abi-x86.cpp].  Code that emits IR runs in a state-and-outcome monad
    over the compiler's global state (the basic block being filled, the
    diagnostic sink, the gag counters, the table of globals of the module). *)

From Stdlib Require Import ZArith Lia List Bool Ascii String.
From stdpp Require Import base decidable option list strings gmap.
Import ListNotations.

Local Open Scope Z_scope.

(** ** The front end's types *)

(** The type tags of the front end ([enum class TY]). *)
Inductive TY : Set :=
| Tarray | Tsarray | Taarray | Tpointer | Treference | Tfunction | Tident
| Tclass | Tstruct | Tenum | Tdelegate | Tnone | Tvoid
| Tint8 | Tuns8 | Tint16 | Tuns16 | Tint32 | Tuns32 | Tint64 | Tuns64
| Tfloat32 | Tfloat64 | Tfloat80
| Timaginary32 | Timaginary64 | Timaginary80
| Tcomplex32 | Tcomplex64 | Tcomplex80
| Tbool | Tchar | Twchar | Tdchar
| Terror | Tinstance | Ttypeof | Ttuple | Tslice | Treturn | Tnull | Tvector
| Tint128 | Tuns128 | Ttraits | Tmixin | Tnoreturn.

#[global] Instance TY_eq_dec : EqDecision TY.
Proof. solve_decision. Defined.

(** [sym] of a [TypeStruct]: what the lowering asks of a struct declaration. *)
Record StructDeclaration : Set := mkStructDeclaration {
  sd_ident : string;
  fields : list string;      (* sym->fields, by field name *)
  structsize : Z;
  sd_isPOD : bool;           (* sd->isPOD() *)
  sd_ctor : bool             (* sd->ctor != nullptr *)
}.

#[global] Instance StructDeclaration_eq_dec : EqDecision StructDeclaration.
Proof. solve_decision. Defined.

(** The basic types ([TypeBasic]): void, bool, the integers, the characters,
    the floating, imaginary and complex types. *)
Inductive BasicKind : Set :=
| Kvoid
| Kint8 | Kuns8 | Kint16 | Kuns16 | Kint32 | Kuns32 | Kint64 | Kuns64
| Kint128 | Kuns128
| Kfloat32 | Kfloat64 | Kfloat80
| Kimaginary32 | Kimaginary64 | Kimaginary80
| Kcomplex32 | Kcomplex64 | Kcomplex80
| Kbool | Kchar | Kwchar | Kdchar.

#[global] Instance BasicKind_eq_dec : EqDecision BasicKind.
Proof. solve_decision. Defined.

Definition basic_ty (k : BasicKind) : TY :=
  match k with
  | Kvoid => Tvoid
  | Kint8 => Tint8 | Kuns8 => Tuns8 | Kint16 => Tint16 | Kuns16 => Tuns16
  | Kint32 => Tint32 | Kuns32 => Tuns32 | Kint64 => Tint64 | Kuns64 => Tuns64
  | Kint128 => Tint128 | Kuns128 => Tuns128
  | Kfloat32 => Tfloat32 | Kfloat64 => Tfloat64 | Kfloat80 => Tfloat80
  | Kimaginary32 => Timaginary32 | Kimaginary64 => Timaginary64
  | Kimaginary80 => Timaginary80
  | Kcomplex32 => Tcomplex32 | Kcomplex64 => Tcomplex64 | Kcomplex80 => Tcomplex80
  | Kbool => Tbool | Kchar => Tchar | Kwchar => Twchar | Kdchar => Tdchar
  end.

(** The front end's [Type] nodes, by shape. *)
Inductive DType : Set :=
| TypeBasic (k : BasicKind)
| TypePointer (next : DType)
| TypeDArray (next : DType)
| TypeSArray (next : DType) (dim : Z)
| TypeAArray (next : DType) (index : DType)
| TypeVector (basetype : DType)            (* basetype is a static array *)
| TypeFunction (next : DType)
| TypeDelegate (next : DType)
| TypeStruct (sym : StructDeclaration)
| TypeClass (sym : string) (isInterfaceDeclaration : bool)
| TypeEnum (sym : string) (memtype : DType)
| TypeNull
| TypeNoreturn
| TypeTuple
| TypeError.

#[global] Instance DType_eq_dec : EqDecision DType.
Proof. solve_decision. Defined.

(** [Type::ty]. *)
Definition ty (t : DType) : TY :=
  match t with
  | TypeBasic k => basic_ty k
  | TypePointer _ => Tpointer
  | TypeDArray _ => Tarray
  | TypeSArray _ _ => Tsarray
  | TypeAArray _ _ => Taarray
  | TypeVector _ => Tvector
  | TypeFunction _ => Tfunction
  | TypeDelegate _ => Tdelegate
  | TypeStruct _ => Tstruct
  | TypeClass _ _ => Tclass
  | TypeEnum _ _ => Tenum
  | TypeNull => Tnull
  | TypeNoreturn => Tnoreturn
  | TypeTuple => Ttuple
  | TypeError => Terror
  end.

(** Modelled from the spec: the front end's side-effect-free type queries
    ([dmd/mtype.d] is missing from the sources): [toBasetype] strips enums,
    [nextOf] is the element or pointee type, and the category predicates
    [isintegral], [isunsigned], [isfloating] and [iscomplex] classify the
    basic types (an enum answers as its member type, a vector as its element
    type). *)
Fixpoint toBasetype (t : DType) : DType :=
  match t with
  | TypeEnum _ m => toBasetype m
  | _ => t
  end.

Definition nextOf (t : DType) : option DType :=
  match t with
  | TypePointer n | TypeDArray n | TypeSArray n _ | TypeAArray n _
  | TypeFunction n | TypeDelegate n => Some n
  | TypeVector (TypeSArray n _) => Some n
  | _ => None
  end.

Definition basic_isintegral (b : TY) : bool :=
  match b with
  | Tint8 | Tuns8 | Tint16 | Tuns16 | Tint32 | Tuns32 | Tint64 | Tuns64
  | Tint128 | Tuns128 | Tbool | Tchar | Twchar | Tdchar => true
  | _ => false
  end.

Definition basic_isunsigned (b : TY) : bool :=
  match b with
  | Tuns8 | Tuns16 | Tuns32 | Tuns64 | Tuns128
  | Tbool | Tchar | Twchar | Tdchar => true
  | _ => false
  end.

Definition basic_iscomplex (b : TY) : bool :=
  match b with
  | Tcomplex32 | Tcomplex64 | Tcomplex80 => true
  | _ => false
  end.

Definition basic_isfloating (b : TY) : bool :=
  match b with
  | Tfloat32 | Tfloat64 | Tfloat80
  | Timaginary32 | Timaginary64 | Timaginary80
  | Tcomplex32 | Tcomplex64 | Tcomplex80 => true
  | _ => false
  end.

Fixpoint isintegral (t : DType) : bool :=
  match t with
  | TypeBasic k => basic_isintegral (basic_ty k)
  | TypeEnum _ m => isintegral m
  | TypeVector (TypeSArray n _) => isintegral n
  | _ => false
  end.

Fixpoint isunsigned (t : DType) : bool :=
  match t with
  | TypeBasic k => basic_isunsigned (basic_ty k)
  | TypeEnum _ m => isunsigned m
  | TypeVector (TypeSArray n _) => isunsigned n
  | _ => false
  end.

Fixpoint isfloating (t : DType) : bool :=
  match t with
  | TypeBasic k => basic_isfloating (basic_ty k)
  | TypeEnum _ m => isfloating m
  | TypeVector (TypeSArray n _) => isfloating n
  | _ => false
  end.

Fixpoint iscomplex (t : DType) : bool :=
  match t with
  | TypeBasic k => basic_iscomplex (basic_ty k)
  | TypeEnum _ m => iscomplex m
  | _ => false
  end.

(** [fromtype->equals(totype)]. *)
Definition equals (a b : DType) : bool := bool_decide (a = b).

(** ** The target *)

Inductive Arch : Set := x86 | x86_64 | ppc | ppc64 | arm | aarch64 | wasm32 | wasm64 | avr.
Inductive OS : Set := Linux | Solaris | NetBSD | FreeBSD | Darwin | Win32 | UnknownOS.

#[global] Instance Arch_eq_dec : EqDecision Arch.
Proof. solve_decision. Defined.
#[global] Instance OS_eq_dec : EqDecision OS.
Proof. solve_decision. Defined.

(** [global.params.targetTriple], with the two sizes the data layout fixes. *)
Record Triple : Set := mkTriple {
  getArch : Arch;
  getOS : OS;
  isWindowsMSVCEnvironment : bool;
  ptrsize : Z;               (* bytes of a pointer, of size_t *)
  realsize : Z               (* bytes of the real type *)
}.

Definition isOSDarwin (t : Triple) : bool := bool_decide (getOS t = Darwin).
Definition isOSWindows (t : Triple) : bool := bool_decide (getOS t = Win32).

(** ** The target IR *)

Inductive LLType : Set :=
| LLVoid
| LLInt (bits : Z)
| LLFloat | LLDouble | LLReal
| LLPointer (elem : LLType)
| LLPair (a b : LLType)                    (* the two-field literal struct *)
| LLArray (n : Z) (elem : LLType)
| LLVector (n : Z) (elem : LLType)
| LLNamedStruct (name : string)
| LLFunctionTy (ret : LLType).

#[global] Instance LLType_eq_dec : EqDecision LLType.
Proof. solve_decision. Defined.

(** IR values: constants, constant expressions, and the result of the n-th
    instruction of the block ([Reg]).  The two comparisons are the constant
    expressions the IR builder folds a comparison of constants into. *)
Inductive LLValue : Set :=
| ConstantInt (t : LLType) (v : Z)
| ConstantNull (t : LLType)                (* LLConstant::getNullValue *)
| ConstantAggregateZero (t : LLType)
| UndefValue (t : LLType)
| GlobalRef (name : string) (t : LLType)
| Argument (n : nat) (t : LLType)
| ConstBitCast (c : LLValue) (t : LLType)
| ConstGEP (c : LLValue) (idx : LLValue) (t : LLType)
| ConstIntToPtr (c : LLValue) (t : LLType)
| ConstICmpNE (a b : LLValue)
| ConstFCmpUNE (a b : LLValue)
| AggrPair (t : LLType) (a b : LLValue)
| Reg (n : nat) (t : LLType).

#[global] Instance LLValue_eq_dec : EqDecision LLValue.
Proof. solve_decision. Defined.

Definition getType (v : LLValue) : LLType :=
  match v with
  | ConstantInt t _ | ConstantNull t | ConstantAggregateZero t | UndefValue t
  | GlobalRef _ t | Argument _ t | ConstBitCast _ t | ConstGEP _ _ t
  | ConstIntToPtr _ t | AggrPair t _ _ | Reg _ t => t
  | ConstICmpNE _ _ | ConstFCmpUNE _ _ => LLInt 1
  end.

(** [isa<llvm::Constant>]: every value but an argument and the result of an
    instruction. *)
Definition isConstant (v : LLValue) : bool :=
  match v with
  | Argument _ _ | Reg _ _ => false
  | _ => true
  end.

Definition getContainedType0 (t : LLType) : LLType :=
  match t with
  | LLPointer e | LLArray _ e | LLVector _ e | LLPair e _ | LLFunctionTy e => e
  | _ => LLVoid
  end.

Inductive Instr : Set :=
| ZExtInst (v : LLValue) (t : LLType)
| SExtInst (v : LLValue) (t : LLType)
| TruncInst (v : LLValue) (t : LLType)
| BitCastInst (v : LLValue) (t : LLType)
| IntToPtrInst (v : LLValue) (t : LLType)
| PtrToIntInst (v : LLValue) (t : LLType)
| UIToFPInst (v : LLValue) (t : LLType)
| SIToFPInst (v : LLValue) (t : LLType)
| FPExtInst (v : LLValue) (t : LLType)
| FPTruncInst (v : LLValue) (t : LLType)
| FPToUIInst (v : LLValue) (t : LLType)
| FPToSIInst (v : LLValue) (t : LLType)
| ICmpNE (a b : LLValue)
| FCmpUNE (a b : LLValue)
| LoadInst (p : LLValue)
| StoreInst (v p : LLValue)
| MemCpyInst (dst src : LLValue)
| AllocaInst (t : LLType) (align : Z)
| CallInst (fn : string) (args : list LLValue).

#[global] Instance Instr_eq_dec : EqDecision Instr.
Proof. solve_decision. Defined.

(** ** Diagnostics and the global state *)

Inductive Diagnostic : Set :=
| InvalidCast (from to : DType)            (* "invalid cast from `%s` to `%s`" *)
| InvalidStructCast (from to : DType)      (* "Internal Compiler Error: Invalid struct cast ..." *)
| NullNotKnown (t : DType)                 (* "`null` not known for type `%s`" *)
| GlobalMismatch (mangledName : string)    (* "Global variable type does not match previous declaration ..." *)
| GlobalMismatchSuppl (previous : bool) (t : LLType) (isConstant isThreadLocal : bool)
| NotAConstant                             (* "expression `%s` is not a constant" *)
| NonConstantExpression                    (* "non-constant expression `%s`" *)
| RecursiveReference                       (* "recursive reference `%s`" *)
| CannotCastAtCompileTime (from to : DType)
| StringToDynArrayCast                     (* "ct cast of `string` to dynamic array not fully implemented" *)
| NestedDelegateLiteral                    (* "non-constant nested delegate literal expression `%s`" *)
| NeedThis                                 (* "need `this` to access `%s`" *)
| AddressOfNonGlobal.                      (* "cannot use address of non-global variable `%s` as constant initializer" *)

#[global] Instance Diagnostic_eq_dec : EqDecision Diagnostic.
Proof. solve_decision. Defined.

Inductive ThreadLocalMode : Set :=
| NotThreadLocal
| GeneralDynamicTLSModel
| LocalDynamicTLSModel
| InitialExecTLSModel
| LocalExecTLSModel.

#[global] Instance ThreadLocalMode_eq_dec : EqDecision ThreadLocalMode.
Proof. solve_decision. Defined.

Inductive DLLStorageClass : Set := DefaultStorageClass | DLLImportStorageClass.

Inductive LinkageTypes : Set := ExternalLinkage | InternalLinkage.

(** An [llvm::GlobalVariable] of the module. *)
Record GlobalVariable : Set := mkGlobalVariable {
  gv_type : LLType;                        (* getType()->getElementType() *)
  gv_isConstant : bool;
  gv_linkage : LinkageTypes;
  gv_tlsMode : ThreadLocalMode;
  gv_dllStorage : DLLStorageClass
}.

Definition gv_isThreadLocal (g : GlobalVariable) : bool :=
  negb (bool_decide (gv_tlsMode g = NotThreadLocal)).

(** What the lowering reads and writes besides its arguments: the block being
    filled ([gIR->scopebb()]), the diagnostic sink, the counters of [global]
    and the symbol table of [gIR->module]. *)
Record IRState : Type := mkIRState {
  scopebb : list Instr;
  diagnostics : list Diagnostic;
  errors : nat;
  gag : nat;
  gaggedErrors : nat;
  module_globals : gmap string GlobalVariable
}.

(** How a call ends: it returns, or [fatal()] ends the compilation, or an
    [assert]/[llvm_unreachable] stops the compiler. *)
Inductive Outcome (A : Type) : Type :=
| Ret (a : A)
| Fatal
| Abort.
Arguments Ret {A} a.
Arguments Fatal {A}.
Arguments Abort {A}.

Definition M (A : Type) : Type := IRState -> Outcome A * IRState.

Definition ret {A} (a : A) : M A := fun s => (Ret a, s).

Definition bind {A B} (m : M A) (k : A -> M B) : M B :=
  fun s => match m s with
           | (Ret a, s') => k a s'
           | (Fatal, s') => (Fatal, s')
           | (Abort, s') => (Abort, s')
           end.

Declare Scope ir_scope.
Delimit Scope ir_scope with ir.
Notation "'do' x <- m ; k" := (bind m (fun x => k))
  (at level 10, x name, m at level 100, k at level 200,
   format "'[v' 'do'  x  <-  m ; '/' k ']'") : ir_scope.
Notation "'run' m ; k" := (bind m (fun _ => k))
  (at level 10, m at level 100, k at level 200,
   format "'[v' 'run'  m ; '/' k ']'") : ir_scope.
Local Open Scope ir_scope.

(** [assert(c)]. *)
Definition assert (c : bool) : M unit :=
  fun s => if c then (Ret tt, s) else (Abort, s).

Definition llvm_unreachable {A} : M A := fun s => (Abort, s).

(** Appends an instruction to the block; its result is the register numbered
    by its position. *)
Definition push_instr (i : Instr) (s : IRState) : IRState :=
  mkIRState (scopebb s ++ [i]) (diagnostics s) (errors s) (gag s)
            (gaggedErrors s) (module_globals s).

Definition emit (i : Instr) (t : LLType) : M LLValue :=
  fun s => (Ret (Reg (length (scopebb s)) t), push_instr i s).

(** The calls of the IR builder ([gIR->ir->Create...]).  Unlike [new
    llvm::...Inst], which always makes an instruction, the builder hands an
    operation all of whose operands are constants to its constant folder and
    inserts nothing.  The folded constant is the comparison of two integer
    constants carried out, and otherwise the constant expression of the
    operation (which LLVM may simplify further to a constant of the same
    value). *)
Definition ConstantExpr_getICmpNE (a b : LLValue) : LLValue :=
  match a, b with
  | ConstantInt _ x, ConstantInt _ y =>
      ConstantInt (LLInt 1) (if bool_decide (x = y) then 0 else 1)
  | _, _ => ConstICmpNE a b
  end.

Definition CreateICmpNE (a b : LLValue) : M LLValue :=
  if isConstant a && isConstant b then ret (ConstantExpr_getICmpNE a b)
  else emit (ICmpNE a b) (LLInt 1).

Definition CreateFCmpUNE (a b : LLValue) : M LLValue :=
  if isConstant a && isConstant b then ret (ConstFCmpUNE a b)
  else emit (FCmpUNE a b) (LLInt 1).

Definition CreateIntToPtr (v : LLValue) (t : LLType) : M LLValue :=
  if bool_decide (getType v = t) then ret v
  else if isConstant v then ret (ConstIntToPtr v t)
  else emit (IntToPtrInst v t) t.

(** Modelled from the spec: [error] and [fatal] of the front end
    ([dmd/errors.d] is missing from the sources).  An error goes to the
    diagnostic sink; under error gagging it is suppressed and only counted.
    [fatal] terminates the compilation: the callers below end a
    value-returning function with it, and [fatalError] of the constant folder
    guards it with the gag counter itself. *)
Definition report (d : Diagnostic) (s : IRState) : IRState :=
  if Nat.eqb (gag s) 0
  then mkIRState (scopebb s) (diagnostics s ++ [d]) (S (errors s)) (gag s)
                 (gaggedErrors s) (module_globals s)
  else mkIRState (scopebb s) (diagnostics s) (S (errors s)) (gag s)
                 (S (gaggedErrors s)) (module_globals s).

Definition error (d : Diagnostic) : M unit :=
  fun s => (Ret tt, report d s).

Definition note (d : Diagnostic) (s : IRState) : IRState :=
  if Nat.eqb (gag s) 0
  then mkIRState (scopebb s) (diagnostics s ++ [d]) (errors s) (gag s)
                 (gaggedErrors s) (module_globals s)
  else s.

Definition errorSupplemental (d : Diagnostic) : M unit :=
  fun s => (Ret tt, note d s).

Definition fatal {A} : M A := fun s => (Fatal, s).

(** Modelled from the spec: [global.startGagging] and [global.endGagging]
    ([dmd/globals.d] is missing from the sources): diagnostics are gagged
    between the two, and [endGagging] tells whether new errors occurred. *)
Definition gagged (s : IRState) : IRState :=
  mkIRState (scopebb s) (diagnostics s) (errors s) (S (gag s))
            (gaggedErrors s) (module_globals s).

Definition ungagged (oldGagged : nat) (s : IRState) : IRState :=
  mkIRState (scopebb s) (diagnostics s)
            (errors s - (gaggedErrors s - oldGagged))%nat
            (pred (gag s)) oldGagged (module_globals s).

Definition startGagging : M nat :=
  fun s => (Ret (gaggedErrors s), gagged s).

Definition endGagging (oldGagged : nat) : M bool :=
  fun s => (Ret (negb (Nat.eqb (gaggedErrors s) oldGagged)), ungagged oldGagged s).

Definition getGag : M nat := fun s => (Ret (gag s), s).

(** ** Values of the lowering ([DValue]) *)

(** Modelled from the spec: the [DValue] family ([gen/dvalue.cpp] is missing
    from the sources): an immediate, a constant (the null constant is one), a
    slice as its (length, pointer) pair, an addressable value holding the
    address of its storage, and a special reference holding a pointer to that
    address. *)
Inductive DValue : Set :=
| DImValue (type : DType) (val : LLValue)
| DConstValue (type : DType) (c : LLValue)
| DNullValue (type : DType) (c : LLValue)
| DSliceValue (type : DType) (length ptr : LLValue)
| DLValue (type : DType) (addr : LLValue)
| DSpecialRefValue (type : DType) (addr : LLValue).

#[global] Instance DValue_eq_dec : EqDecision DValue.
Proof. solve_decision. Defined.

Definition dv_type (v : DValue) : DType :=
  match v with
  | DImValue t _ | DConstValue t _ | DNullValue t _ | DSliceValue t _ _
  | DLValue t _ | DSpecialRefValue t _ => t
  end.

Definition isLVal (v : DValue) : bool :=
  match v with
  | DLValue _ _ | DSpecialRefValue _ _ => true
  | _ => false
  end.

(** Modelled from the spec: the forms of [DtoRVal] and [DtoLVal] ("load":
    an addressable value is dereferenced, a special reference twice; the
    address of an addressable value is returned as it is, after stripping the
    extra indirection of a special reference; a slice is the pair of its two
    words). *)
Definition DtoLVal (v : DValue) : M LLValue :=
  match v with
  | DLValue _ a => ret a
  | DSpecialRefValue _ a => emit (LoadInst a) (getContainedType0 (getType a))
  | _ => llvm_unreachable
  end.

(** Modelled from the spec: [DtoBitCast] ([gen/tollvm.cpp] is missing from the
    sources): a bit-reinterpretation, which is no instruction at all when the
    value already has the type. *)
Definition DtoBitCast (v : LLValue) (t : LLType) : M LLValue :=
  if bool_decide (getType v = t) then ret v else emit (BitCastInst v t) t.

(** Modelled from the spec: [DtoStore] and [DtoMemCpy] ([gen/tollvm.cpp] is
    missing from the sources): a store of a register value to an address, and
    the raw byte copy of the pointee from one address to another. *)
Definition DtoStore (v p : LLValue) : M unit :=
  run emit (StoreInst v p) LLVoid; ret tt.

Definition DtoMemCpy (dst src : LLValue) : M unit :=
  run emit (MemCpyInst dst src) LLVoid; ret tt.

(** ** Expressions seen by the constant folder *)

Inductive TOK : Set :=
| TOKvar | TOKint64 | TOKnull | TOKstring | TOKadd | TOKmin | TOKcast
| TOKsymoff | TOKclassreference | TOKslice | TOKdotvar
| TOKfunction | TOKdelegate | TOKreserved | TOKother.

#[global] Instance TOK_eq_dec : EqDecision TOK.
Proof. solve_decision. Defined.

(** A variable as the folder sees it: [_init] stands for
    [DtoConstInitializer] run on the initializer (which may yield null), and
    [irValue] for the constant behind the IR global, when there is one. *)
Record VarDeclaration : Type := mkVarDeclaration {
  vd_type : DType;
  isConst : bool;
  inuse : nat;
  _init : option (M (option LLValue));
  isDataseg : bool;
  irValue : option LLValue
}.

Inductive DeclKind : Type :=
| isSymbolDeclaration (type : DType) (defaultInit : LLValue)
| isTypeInfoDeclaration (typeinfo : LLValue)
| isVarDeclaration (vd : VarDeclaration)
| isFuncDeclaration (callee : LLValue)
| isOtherDeclaration.

Record Declaration : Type := mkDeclaration {
  needThis : bool;
  decl_kind : DeclKind
}.

(** A function literal as [visit(FuncExp)] reads it: its token, whether its
    parent is a module, and, for the two calls into code that is not among
    these sources, the computation [Declaration_codegen] performs on it and
    the constant [DtoCallee] gives for it.  The visit may set the token of
    the literal; that is kept as the token the rest of the visit reads. *)
Record FuncLiteralDeclaration : Type := mkFuncLiteralDeclaration {
  tok : TOK;
  toParent2_isModule : bool;
  Declaration_codegen : M unit;
  DtoCallee : option LLValue
}.

(** The expression kinds whose [visit] is written out below; [ClassReferenceExp]
    and [OtherExp] carry the computation their own [visit] performs, and
    [UnhandledExp] is any kind the visitor does not override. *)
Inductive Expression : Type :=
| VarExp (type : DType) (var : Declaration)
| IntegerExp (type : DType) (value : Z)
| NullExp (type : DType)
| AddExp (type : DType) (e1 e2 : Expression)
| MinExp (type : DType) (e1 e2 : Expression)
| CastExp (type : DType) (to : DType) (e1 : Expression)
| SymOffExp (type : DType) (var : Declaration) (offset : Z)
| ClassReferenceExp (type : DType) (interfaces : list string) (visit : M (option LLValue))
| OtherExp (op : TOK) (type : DType) (visit : M (option LLValue))
| UnhandledExp (op : TOK) (type : DType)
| FuncExp (type : DType) (fd : FuncLiteralDeclaration).

Definition exp_type (e : Expression) : DType :=
  match e with
  | VarExp t _ | IntegerExp t _ | NullExp t | AddExp t _ _ | MinExp t _ _
  | CastExp t _ _ | SymOffExp t _ _ | ClassReferenceExp t _ _ | OtherExp _ t _
  | UnhandledExp _ t | FuncExp t _ => t
  end.

Definition exp_op (e : Expression) : TOK :=
  match e with
  | VarExp _ _ => TOKvar
  | IntegerExp _ _ => TOKint64
  | NullExp _ => TOKnull
  | AddExp _ _ _ => TOKadd
  | MinExp _ _ _ => TOKmin
  | CastExp _ _ _ => TOKcast
  | SymOffExp _ _ _ => TOKsymoff
  | ClassReferenceExp _ _ _ => TOKclassreference
  | OtherExp op _ _ | UnhandledExp op _ => op
  | FuncExp _ _ => TOKfunction
  end.

(** [e->toInteger()] of the front end, on integer literals. *)
Definition toInteger (e : Expression) : Z :=
  match e with
  | IntegerExp _ v => v
  | _ => 0
  end.

(** ** Function types as the ABI sees them *)

Inductive LINK : Set :=
| LINKdefault | LINKd | LINKc | LINKcpp | LINKwindows | LINKobjc | LINKsystem.

#[global] Instance LINK_eq_dec : EqDecision LINK.
Proof. solve_decision. Defined.

Inductive VarArg : Set := VARARGnone | VARARGvariadic | VARARGtypesafe.

#[global] Instance VarArg_eq_dec : EqDecision VarArg.
Proof. solve_decision. Defined.

(** The front end's function type: [next] is the return type. *)
Record TypeFunctionInfo : Set := mkTypeFunction {
  isref : bool;
  linkage : LINK;
  next : DType;
  varargs : VarArg
}.

Inductive LLAttribute : Set :=
| InReg | StructRet | ByVal | NoAlias | NoCapture | Alignment | ZExtAttr | SExtAttr.

#[global] Instance LLAttribute_eq_dec : EqDecision LLAttribute.
Proof. solve_decision. Defined.

(** An attribute set ([AttrBuilder]). *)
Definition hasAttribute (a : LLAttribute) (attrs : list LLAttribute) : bool :=
  bool_decide (a ∈ attrs).

Definition addAttribute (a : LLAttribute) (attrs : list LLAttribute) : list LLAttribute :=
  if hasAttribute a attrs then attrs else attrs ++ [a].

Definition removeAttribute (a : LLAttribute) (attrs : list LLAttribute) : list LLAttribute :=
  filter (fun b => b <> a) attrs.

(** The rewrites of the x86 strategy, by identity. *)
Inductive ABIRewrite : Set := integerRewrite | indirectByvalRewrite.

#[global] Instance ABIRewrite_eq_dec : EqDecision ABIRewrite.
Proof. solve_decision. Defined.

Record IrFuncTyArg : Set := mkIrFuncTyArg {
  arg_type : DType;
  ltype : LLType;
  attrs : list LLAttribute;
  byref : bool;
  rewrite : option ABIRewrite
}.

Definition isByVal (a : IrFuncTyArg) : bool := hasAttribute ByVal (attrs a).

Record IrFuncTy : Set := mkIrFuncTy {
  fty_type : TypeFunctionInfo;
  fty_ret : IrFuncTyArg;
  arg_sret : option IrFuncTyArg;
  arg_this : option IrFuncTyArg;
  arg_nest : option IrFuncTyArg;
  args : list IrFuncTyArg
}.

Definition with_attrs (a : IrFuncTyArg) (f : list LLAttribute -> list LLAttribute) : IrFuncTyArg :=
  mkIrFuncTyArg (arg_type a) (ltype a) (f (attrs a)) (byref a) (rewrite a).

Definition with_byref (a : IrFuncTyArg) (b : bool) : IrFuncTyArg :=
  mkIrFuncTyArg (arg_type a) (ltype a) (attrs a) b (rewrite a).

(** ** Sizes and lowered types on a target *)

Section Lowering.

Variable triple : Triple.

(** Modelled from the spec: [Type::size] ([dmd/mtype.d] is missing from the
    sources), the declared size of a type in bytes. *)
Definition basic_size (b : TY) : Z :=
  match b with
  | Tvoid | Tint8 | Tuns8 | Tbool | Tchar => 1
  | Tint16 | Tuns16 | Twchar => 2
  | Tint32 | Tuns32 | Tdchar | Tfloat32 | Timaginary32 => 4
  | Tint64 | Tuns64 | Tfloat64 | Timaginary64 | Tcomplex32 => 8
  | Tint128 | Tuns128 | Tcomplex64 => 16
  | Tfloat80 | Timaginary80 => realsize triple
  | Tcomplex80 => 2 * realsize triple
  | _ => 0
  end.

Fixpoint size (t : DType) : Z :=
  match t with
  | TypeBasic k => basic_size (basic_ty k)
  | TypePointer _ | TypeAArray _ _ | TypeClass _ _ | TypeNull => ptrsize triple
  | TypeDArray _ | TypeDelegate _ => 2 * ptrsize triple
  | TypeSArray n d => d * size n
  | TypeVector b => size b
  | TypeStruct sd => structsize sd
  | TypeEnum _ m => size m
  | TypeFunction _ | TypeNoreturn | TypeTuple | TypeError => 0
  end.

(** Modelled from the spec: [DtoType] and its relatives ([gen/tollvm.cpp] is
    missing from the sources), the physical type of a source type: [bool] is
    one bit in a register and a byte in memory, an integer has eight bits per
    byte of its size, a slice is the (length, pointer) pair, a delegate the
    (context pointer, function pointer) pair, a complex number the pair of its
    two components. *)
Definition DtoSize_t : LLType := LLInt (8 * ptrsize triple).

Definition i1ToI8 (t : LLType) : LLType :=
  if bool_decide (t = LLInt 1) then LLInt 8 else t.

Definition voidToI8 (t : LLType) : LLType :=
  if bool_decide (t = LLVoid) then LLInt 8 else t.

Definition getVoidPtrType : LLType := LLPointer (LLInt 8).

Definition basic_DtoType (b : TY) : LLType :=
  match b with
  | Tbool => LLInt 1
  | Tfloat32 | Timaginary32 => LLFloat
  | Tfloat64 | Timaginary64 => LLDouble
  | Tfloat80 | Timaginary80 => LLReal
  | Tcomplex32 => LLPair LLFloat LLFloat
  | Tcomplex64 => LLPair LLDouble LLDouble
  | Tcomplex80 => LLPair LLReal LLReal
  | _ => if basic_isintegral b then LLInt (8 * basic_size b) else LLVoid
  end.

Fixpoint DtoType (t : DType) : LLType :=
  match t with
  | TypeBasic k => basic_DtoType (basic_ty k)
  | TypePointer n => LLPointer (i1ToI8 (voidToI8 (DtoType n)))
  | TypeDArray n => LLPair DtoSize_t (LLPointer (i1ToI8 (voidToI8 (DtoType n))))
  | TypeSArray n d => LLArray d (i1ToI8 (voidToI8 (DtoType n)))
  | TypeAArray _ _ | TypeNull => getVoidPtrType
  | TypeVector (TypeSArray n d) => LLVector d (i1ToI8 (voidToI8 (DtoType n)))
  | TypeVector _ => LLVoid
  | TypeFunction n => LLFunctionTy (DtoType n)
  | TypeDelegate n => LLPair getVoidPtrType (LLPointer (LLFunctionTy (DtoType n)))
  | TypeStruct sd => LLNamedStruct (sd_ident sd)
  | TypeClass c _ => LLPointer (LLNamedStruct c)
  | TypeEnum _ m => DtoType m
  | TypeNoreturn | TypeTuple | TypeError => LLVoid
  end.

(** The type in memory, pointers to it, and the constants built from them
    (same file as [DtoType]). *)
Definition DtoMemType (t : DType) : LLType := i1ToI8 (voidToI8 (DtoType t)).
Definition DtoPtrToType (t : DType) : LLType := LLPointer (DtoMemType t).
Definition getPtrToType (t : LLType) : LLType := LLPointer (voidToI8 t).

Definition DtoConstSize_t (n : Z) : LLValue := ConstantInt DtoSize_t n.
Definition getNullPtr (t : LLType) : LLValue := ConstantNull t.

Definition DtoComplexBaseType (t : DType) : LLType :=
  match ty t with
  | Tcomplex32 => LLFloat
  | Tcomplex64 => LLDouble
  | _ => LLReal
  end.

Definition DtoAggrPair (t : LLType) (a b : LLValue) : LLValue := AggrPair t a b.

Definition DtoRVal (v : DValue) : M LLValue :=
  match v with
  | DImValue _ x | DConstValue _ x | DNullValue _ x => ret x
  | DSliceValue t len p => ret (DtoAggrPair (DtoType t) len p)
  | DLValue _ a => emit (LoadInst a) (getContainedType0 (getType a))
  | DSpecialRefValue _ a =>
      do p <- emit (LoadInst a) (getContainedType0 (getType a));
      emit (LoadInst p) (getContainedType0 (getType p))
  end.


(** The lowering's other helpers, which live in files of their own
    ([gen/complex.cpp], [gen/classes.cpp], [gen/arrays.cpp], [gen/tollvm.cpp])
    or play no part below, are taken as they come. *)
Class Collaborators : Type := {
  DtoComplex : DType -> DValue -> M DValue;
  DtoCastComplex : DValue -> DType -> M DValue;
  DtoCastClass : DValue -> DType -> M DValue;
  DtoCastArray : DValue -> DType -> M DValue;
  DtoPaintType : DValue -> DType -> M DValue;
  DtoDelegateEquals : LLValue -> M LLValue;
  DtoArrayAssign : DValue -> DValue -> Z -> bool -> M unit;
  DtoStoreZextI8 : LLValue -> LLValue -> M unit;
  DtoAllocaDump : LLValue -> LLType -> Z -> M LLValue;
  DtoAlignment : DType -> Z;
  IntegerRewrite_isObsoleteFor : LLType -> bool;
  undoStrideMul : DType -> Z -> Z;
  getTypeStoreSize : LLType -> Z
}.

Context `{Collaborators}.

(** ** Null values *)

(** [DtoNullValue]. *)
Definition DtoNullValue (type : DType) : M DValue :=
  let basetype := toBasetype type in
  let basety := ty basetype in
  let lltype := DtoType basetype in
  (* complex, needs to be first since complex are also floating *)
  if iscomplex basetype then
    let basefp := DtoComplexBaseType basetype in
    let res := DtoAggrPair (DtoType type) (ConstantNull basefp) (ConstantNull basefp) in
    ret (DImValue type res)
  else if isintegral basetype || isfloating basetype
          || bool_decide (basety = Tpointer) || bool_decide (basety = Tnull)
          || bool_decide (basety = Tclass) || bool_decide (basety = Tdelegate)
          || bool_decide (basety = Taarray) then
    ret (DNullValue type (ConstantNull lltype))
  else if bool_decide (basety = Tarray) then
    match nextOf basetype with
    | Some n =>
        let len := DtoConstSize_t 0 in
        let ptr := getNullPtr (DtoPtrToType n) in
        ret (DSliceValue type len ptr)
    | None => llvm_unreachable
    end
  else
    run error (NullNotKnown type);
    fatal.

(** ** Casts *)

(** [isLLVMUnsigned]. *)
Definition isLLVMUnsigned (t : DType) : bool :=
  isunsigned t || bool_decide (ty t = Tpointer).

(** [DtoCastInt].  The location argument of the diagnostics is dropped here
    and below. *)
Definition DtoCastInt (val : DValue) (_to : DType) : M DValue :=
  let tolltype := DtoType _to in
  let to := toBasetype _to in
  let from := toBasetype (dv_type val) in
  run assert (isintegral from);
  do rval <- DtoRVal val;
  if bool_decide (getType rval = tolltype) then ret (DImValue _to rval)
  else
    let fromsz := size from in
    let tosz := size to in
    let result (m : M LLValue) : M DValue := do r <- m; ret (DImValue _to r) in
    if bool_decide (ty to = Tbool) then
      let zero := ConstantInt (getType rval) 0 in
      result (CreateICmpNE rval zero)
    else if isintegral to then
      if bool_decide (fromsz < tosz) || bool_decide (ty from = Tbool) then
        if isLLVMUnsigned from || bool_decide (ty from = Tbool)
        then result (emit (ZExtInst rval tolltype) tolltype)
        else result (emit (SExtInst rval tolltype) tolltype)
      else if bool_decide (fromsz > tosz) then
        result (emit (TruncInst rval tolltype) tolltype)
      else result (DtoBitCast rval tolltype)
    else if iscomplex to then
      DtoComplex to val
    else if isfloating to then
      if isunsigned from
      then result (emit (UIToFPInst rval tolltype) tolltype)
      else result (emit (SIToFPInst rval tolltype) tolltype)
    else if bool_decide (ty to = Tpointer) then
      result (CreateIntToPtr rval tolltype)
    else
      run error (InvalidCast (dv_type val) _to);
      fatal.

(** [DtoCastPtr]. *)
Definition DtoCastPtr (val : DValue) (to : DType) : M DValue :=
  let tolltype := DtoType to in
  let totype := toBasetype to in
  let fromtype := toBasetype (dv_type val) in
  run assert (bool_decide (ty fromtype = Tpointer) || bool_decide (ty fromtype = Tfunction));
  do rval <-
    (if bool_decide (ty totype = Tpointer) || bool_decide (ty totype = Tclass)
        || bool_decide (ty totype = Taarray) then
       do src <- DtoRVal val;
       DtoBitCast src tolltype
     else if bool_decide (ty totype = Tbool) then
       do src <- DtoRVal val;
       let zero := ConstantNull (getType src) in
       CreateICmpNE src zero
     else if isintegral totype then
       do src <- DtoRVal val;
       emit (PtrToIntInst src tolltype) tolltype
     else
       run error (InvalidCast (dv_type val) to);
       fatal);
  ret (DImValue to rval).

(** [DtoCastFloat]. *)
Definition DtoCastFloat (val : DValue) (to : DType) : M DValue :=
  if bool_decide (dv_type val = to) then ret val
  else
    let tolltype := DtoType to in
    let totype := toBasetype to in
    let fromtype := toBasetype (dv_type val) in
    run assert (isfloating fromtype);
    let fromsz := size fromtype in
    let tosz := size totype in
    let result (m : M LLValue) : M DValue := do r <- m; ret (DImValue to r) in
    if bool_decide (ty totype = Tbool) then
      result (do rval <- DtoRVal val;
              let zero := ConstantNull (getType rval) in
              CreateFCmpUNE rval zero)
    else if iscomplex totype then
      DtoComplex to val
    else if isfloating totype then
      if bool_decide (fromsz = tosz) then
        result (do rval <- DtoRVal val;
                run assert (bool_decide (getType rval = tolltype));
                ret rval)
      else if bool_decide (fromsz < tosz) then
        result (do rval <- DtoRVal val; emit (FPExtInst rval tolltype) tolltype)
      else if bool_decide (fromsz > tosz) then
        result (do rval <- DtoRVal val; emit (FPTruncInst rval tolltype) tolltype)
      else
        run error (InvalidCast (dv_type val) to);
        fatal
    else if isintegral totype then
      if isunsigned totype
      then result (do rval <- DtoRVal val; emit (FPToUIInst rval tolltype) tolltype)
      else result (do rval <- DtoRVal val; emit (FPToSIInst rval tolltype) tolltype)
    else
      run error (InvalidCast (dv_type val) to);
      fatal.

(** [DtoCastDelegate]. *)
Definition DtoCastDelegate (val : DValue) (to : DType) : M DValue :=
  if bool_decide (ty (toBasetype to) = Tdelegate) then
    DtoPaintType val to
  else if bool_decide (ty (toBasetype to) = Tbool) then
    do rval <- DtoRVal val;
    do ne <- DtoDelegateEquals rval;
    ret (DImValue to ne)
  else
    run error (InvalidCast (dv_type val) to);
    fatal.

(** [DtoCastVector]. *)
Definition DtoCastVector (val : DValue) (to : DType) : M DValue :=
  run assert (bool_decide (ty (toBasetype (dv_type val)) = Tvector));
  let totype := toBasetype to in
  let tolltype := DtoType to in
  if bool_decide (ty totype = Tsarray) then
    (* Reinterpret-cast without copy if the source vector is in memory. *)
    if isLVal val then
      do vector <- DtoLVal val;
      do p <- DtoBitCast vector (getPtrToType tolltype);
      ret (DLValue to p)
    else
      do vector <- DtoRVal val;
      do array <- DtoAllocaDump vector tolltype (DtoAlignment (dv_type val));
      ret (DLValue to array)
  else if bool_decide (ty totype = Tvector) && bool_decide (size to = size (dv_type val)) then
    do rval <- DtoRVal val;
    do r <- DtoBitCast rval tolltype;
    ret (DImValue to r)
  else
    run error (InvalidCast (dv_type val) to);
    fatal.

(** [DtoCastStruct]. *)
Definition DtoCastStruct (val : DValue) (to : DType) : M DValue :=
  let totype := toBasetype to in
  if bool_decide (ty totype = Tstruct) then
    do lval <- DtoLVal val;
    do result <- DtoBitCast lval (LLPointer (DtoType to));
    ret (DLValue to result)
  else
    run error (InvalidStructCast (dv_type val) to);
    fatal.

(** [DtoCast], from the test for equal base types on. *)
Definition DtoCast_dispatch (val : DValue) (to : DType) : M DValue :=
  let fromtype := toBasetype (dv_type val) in
  let totype := toBasetype to in
  if equals fromtype totype then ret val
  else if bool_decide (ty fromtype = Tvector) then
    (* First, handle vector types (which can also be isintegral()). *)
    DtoCastVector val to
  else if isintegral fromtype then DtoCastInt val to
  else if iscomplex fromtype then DtoCastComplex val to
  else if isfloating fromtype then DtoCastFloat val to
  else
    match ty fromtype with
    | Tclass => DtoCastClass val to
    | Tarray | Tsarray => DtoCastArray val to
    | Tpointer | Tfunction => DtoCastPtr val to
    | Tdelegate => DtoCastDelegate val to
    | Tstruct => DtoCastStruct val to
    | Tnull | Tnoreturn => DtoNullValue to
    | _ =>
        run error (InvalidCast (dv_type val) to);
        fatal
    end.

(** [DtoCast]: associative arrays first, then the dispatch above. *)
Definition DtoCast (val : DValue) (to : DType) : M DValue :=
  let fromtype := toBasetype (dv_type val) in
  let totype := toBasetype to in
  if bool_decide (ty fromtype = Taarray) then
    if bool_decide (ty totype = Taarray) then
      (* reinterpret-cast keeping lvalue-ness, IR types will match up *)
      if isLVal val
      then do l <- DtoLVal val; ret (DLValue to l)
      else do r <- DtoRVal val; ret (DImValue to r)
    (* DMD allows casting AAs to void*, even if they are internally
       implemented as structs. *)
    else if bool_decide (ty totype = Tpointer) then
      do r <- DtoRVal val;
      do rval <- DtoBitCast r (DtoType to);
      ret (DImValue to rval)
    else if bool_decide (ty totype = Tbool) then
      do rval <- DtoRVal val;
      let zero := ConstantNull (getType rval) in
      do c <- CreateICmpNE rval zero;
      ret (DImValue to c)
    else DtoCast_dispatch val to
  else DtoCast_dispatch val to.

(** ** Assignment *)

(** [DtoAssign].  Where C++ leaves the order of two argument evaluations
    open, the right-hand side is taken first. *)
Definition DtoAssign (lhs rhs : DValue) (op : Z) (canSkipPostblit : bool) : M unit :=
  let t := toBasetype (dv_type lhs) in
  run assert (negb (bool_decide (ty t = Tvoid)));
  if bool_decide (ty t = Tbool) then
    do r <- DtoRVal rhs;
    do l <- DtoLVal lhs;
    DtoStoreZextI8 r l
  else
    match t with
    | TypeStruct sym =>
        (* don't copy anything to empty structs *)
        if bool_decide (0 < Z.of_nat (length (fields sym))) then
          do src <- DtoLVal rhs;
          do dst <- DtoLVal lhs;
          (* Check whether source and destination values are the same at
             compile time as to not emit an invalid (overlapping) memcpy on
             trivial struct self-assignments like 'A a; a = a;'. *)
          if negb (bool_decide (src = dst)) then DtoMemCpy dst src else ret tt
        else ret tt
    | _ =>
        if bool_decide (ty t = Tarray) || bool_decide (ty t = Tsarray) then
          DtoArrayAssign lhs rhs op canSkipPostblit
        else if bool_decide (ty t = Tdelegate) then
          do l <- DtoLVal lhs;
          do r <- DtoRVal rhs;
          DtoStore r l
        else if bool_decide (ty t = Tclass) then
          run assert (bool_decide (ty (toBasetype (dv_type rhs)) = Tclass));
          do l <- DtoLVal lhs;
          do r <- DtoRVal rhs;
          do r <- DtoBitCast r (getContainedType0 (getType l));
          DtoStore r l
        else if iscomplex t then
          do dst <- DtoLVal lhs;
          do c <- DtoCast rhs (dv_type lhs);
          do src <- DtoRVal c;
          DtoStore src dst
        else
          do l <- DtoLVal lhs;
          do r <- DtoRVal rhs;
          let lit := getContainedType0 (getType l) in
          do r <-
            (if negb (bool_decide (getType r = lit)) then
               do c <- DtoCast rhs (dv_type lhs);
               do r <- DtoRVal c;
               (* It's weird but it happens. *)
               if negb (bool_decide (getType r = lit)) then DtoBitCast r lit else ret r
             else ret r);
          run emit (StoreInst r l) LLVoid;
          ret tt
    end.

(** ** Globals of the module *)

(** [clThreadModel]: the values the option [-fthread-model] takes, and its
    initial value. *)
Definition clThreadModel_values : list (string * ThreadLocalMode) :=
  [ ("global-dynamic"%string, GeneralDynamicTLSModel);
    ("local-dynamic"%string, LocalDynamicTLSModel);
    ("initial-exec"%string, InitialExecTLSModel);
    ("local-exec"%string, LocalExecTLSModel) ].

Definition clThreadModel_init : ThreadLocalMode := GeneralDynamicTLSModel.

Fixpoint lookup_value (name : string) (l : list (string * ThreadLocalMode))
  : option ThreadLocalMode :=
  match l with
  | [] => None
  | (n, v) :: l' => if bool_decide (n = name) then Some v else lookup_value name l'
  end.

(** The value of the option after the command line was read: [None] when the
    option was not given; an unknown name is refused by the parser. *)
Definition clThreadModel_getValue (given : option string) : option ThreadLocalMode :=
  match given with
  | None => Some clThreadModel_init
  | Some name => lookup_value name clThreadModel_values
  end.

Definition getGlobalVariable (mangledName : string) : M (option GlobalVariable) :=
  fun s => (Ret (module_globals s !! mangledName), s).

(** [new llvm::GlobalVariable(module, ...)]: the global enters the symbol
    table of the module under its name. *)
Definition newGlobalVariable (mangledName : string) (g : GlobalVariable) : M GlobalVariable :=
  fun s => (Ret g,
            mkIRState (scopebb s) (diagnostics s) (errors s) (gag s) (gaggedErrors s)
                      (<[mangledName := g]> (module_globals s))).

(** [declareGlobal]; [clThreadModel] is the value of the option. *)
Definition declareGlobal (clThreadModel : ThreadLocalMode) (type : LLType)
    (mangledName : string) (isConstant isThreadLocal useDLLImport : bool)
  : M GlobalVariable :=
  (* No TLS support for WebAssembly and AVR; spare users from having to add
     __gshared everywhere. *)
  let arch := getArch triple in
  let isThreadLocal :=
    if bool_decide (arch = wasm32) || bool_decide (arch = wasm64)
       || bool_decide (arch = avr)
    then false else isThreadLocal in
  do existing <- getGlobalVariable mangledName;
  match existing with
  | Some existing =>
      let existingType := gv_type existing in
      if negb (bool_decide (existingType = type))
         || negb (eqb (gv_isConstant existing) isConstant)
         || negb (eqb (gv_isThreadLocal existing) isThreadLocal) then
        run error (GlobalMismatch mangledName);
        run errorSupplemental
              (GlobalMismatchSuppl true existingType (gv_isConstant existing)
                                   (gv_isThreadLocal existing));
        run errorSupplemental (GlobalMismatchSuppl false type isConstant isThreadLocal);
        fatal
      else ret existing
  | None =>
      (* Use a command line option for the thread model.
         On PPC there is only local-exec available - in this case just ignore
         the command line. *)
      let tlsModel :=
        if isThreadLocal
        then (if bool_decide (arch = ppc) then LocalExecTLSModel else clThreadModel)
        else NotThreadLocal in
      do gvar <- newGlobalVariable mangledName
                   (mkGlobalVariable type isConstant ExternalLinkage tlsModel
                                     DefaultStorageClass);
      if useDLLImport && isOSWindows triple then
        newGlobalVariable mangledName
          (mkGlobalVariable type isConstant ExternalLinkage tlsModel
                            DLLImportStorageClass)
      else ret gvar
  end.

(** ** Constant folding *)

(** [DtoBitCast] and [DtoGEP] on constants build constant expressions. *)
Definition DtoBitCastC (c : LLValue) (t : LLType) : LLValue :=
  if bool_decide (getType c = t) then c else ConstBitCast c t.

Definition getContainedType1 (t : LLType) : LLType :=
  match t with
  | LLPair _ b => b
  | _ => LLInt 8
  end.

Definition DtoGEP_field (c : LLValue) (i : Z) : LLValue :=
  ConstGEP (ConstGEP c (DtoConstSize_t 0) (getType c)) (ConstantInt (LLInt 32) i)
           (LLPointer (if bool_decide (i = 0)
                       then getContainedType0 (getContainedType0 (getType c))
                       else getContainedType1 (getContainedType0 (getType c)))).

Definition isaPointer (t : LLType) : bool :=
  match t with LLPointer _ => true | _ => false end.

Definition isaIntegerType (t : LLType) : bool :=
  match t with LLInt _ => true | _ => false end.

Definition isaStruct (t : LLType) : bool :=
  match t with LLPair _ _ | LLNamedStruct _ => true | _ => false end.

(** [LLConstantInt::get(t, static_cast<uint64_t>(v), isSigned)]: the 64-bit
    pattern of [v], cut to the width of [t] or extended to it. *)
Definition LLConstantInt_get (t : LLType) (v : Z) (isSigned : bool) : LLValue :=
  let v64 := v mod 2 ^ 64 in
  match t with
  | LLInt bits =>
      if bool_decide (bits <= 64) then ConstantInt t (v64 mod 2 ^ bits)
      else if isSigned && Z.testbit v64 63
           then ConstantInt t (v64 + 2 ^ bits - 2 ^ 64)
           else ConstantInt t v64
  | _ => ConstantInt t v64
  end.

(** A null pointer is not a constant a caller can go on with. *)
Definition nonnull (c : option LLValue) : M LLValue :=
  match c with
  | Some c => ret c
  | None => llvm_unreachable
  end.

(** [ToConstElemVisitor::fatalError]. *)
Definition fatalError : M unit :=
  do g <- getGag;
  if Nat.eqb g 0 then fatal else ret tt.

(** The [visit] for the base class [Expression], the fallback of the visitor. *)
Definition visit_Expression : M (option LLValue) :=
  run error NotAConstant;
  run fatalError;
  ret None.

(** The tail of [toConstElem]: "error case; never return null". *)
Definition orUndef (type : DType) (process_e : M (option LLValue)) : M (option LLValue) :=
  do ce <- process_e;
  match ce with
  | Some c => ret (Some c)
  | None => ret (Some (UndefValue (DtoType type)))
  end.

(** [DtoConstSymbolAddress]. *)
Definition DtoConstSymbolAddress (decl : Declaration) : M (option LLValue) :=
  (* Make sure 'this' isn't needed. *)
  if needThis decl then
    run error NeedThis;
    fatal
  else
    match decl_kind decl with
    | isVarDeclaration vd =>
        if negb (isDataseg vd) then
          run error AddressOfNonGlobal;
          do g <- getGag;
          if Nat.eqb g 0 then fatal else ret None
        else
          match irValue vd with
          | Some llc => ret (Some llc)
          | None => llvm_unreachable
          end
    | isFuncDeclaration callee => ret (Some callee)
    | _ => llvm_unreachable
    end.

Fixpoint index_of (x : string) (l : list string) : option Z :=
  match l with
  | [] => None
  | y :: l' => if bool_decide (y = x) then Some 0
               else match index_of x l' with
                    | Some i => Some (i + 1)
                    | None => None
                    end
  end.

(** [ToConstElemVisitor::process]: the [visit] of the expression's kind, with
    [result] starting as null. *)
Fixpoint process (e : Expression) : M (option LLValue) :=
  match e with
  | VarExp type var =>
      match decl_kind var with
      | isSymbolDeclaration stype defaultInit =>
          if bool_decide (ty (toBasetype stype) = Tstruct) then ret (Some defaultInit)
          else
            run error NonConstantExpression;
            ret None
      | isTypeInfoDeclaration typeinfo =>
          ret (Some (DtoBitCastC typeinfo (DtoType type)))
      | isVarDeclaration vd =>
          match _init vd with
          | Some init =>
              if isConst vd then
                if negb (Nat.eqb (inuse vd) 0) then
                  run error RecursiveReference;
                  ret None
                else init
              else
                run error NonConstantExpression;
                ret None
          | None =>
              run error NonConstantExpression;
              ret None
          end
      | _ =>
          run error NonConstantExpression;
          ret None
      end
  | IntegerExp type value =>
      let t := DtoType type in
      if isaPointer t then
        let i := LLConstantInt_get DtoSize_t value false in
        ret (Some (ConstIntToPtr i t))
      else
        run assert (isaIntegerType t);
        ret (Some (LLConstantInt_get t value (negb (isunsigned type))))
  | NullExp type =>
      let t := DtoType type in
      if bool_decide (ty type = Tarray) then
        run assert (isaStruct t);
        ret (Some (ConstantAggregateZero t))
      else ret (Some (ConstantNull t))
  | AddExp type e1 e2 =>
      (* add to pointer *)
      let t1b := toBasetype (exp_type e1) in
      if bool_decide (ty t1b = Tpointer) && isintegral (exp_type e2) then
        do c <- orUndef (exp_type e1) (process e1);
        do ptr <- nonnull c;
        let idx := undoStrideMul t1b (toInteger e2) in
        ret (Some (ConstGEP ptr (DtoConstSize_t idx) (getType ptr)))
      else visit_Expression
  | MinExp type e1 e2 =>
      let t1b := toBasetype (exp_type e1) in
      if bool_decide (ty t1b = Tpointer) && isintegral (exp_type e2) then
        do c <- orUndef (exp_type e1) (process e1);
        do ptr <- nonnull c;
        let idx := undoStrideMul t1b (toInteger e2) in
        let negIdx := ConstantInt DtoSize_t ((- idx) mod 2 ^ (8 * ptrsize triple)) in
        ret (Some (ConstGEP ptr negIdx (getType ptr)))
      else visit_Expression
  | CastExp type to e1 =>
      let lltype := DtoType type in
      let tb := toBasetype to in
      let Lerr : M (option LLValue) :=
        run error (CannotCastAtCompileTime (exp_type e1) type);
        run fatalError;
        ret None in
      (* string literal to dyn array *)
      if bool_decide (exp_op e1 = TOKstring) && bool_decide (ty tb = Tarray) then
        run error StringToDynArrayCast;
        ret None
      (* pointer to pointer *)
      else if bool_decide (ty tb = Tpointer)
              && bool_decide (ty (toBasetype (exp_type e1)) = Tpointer) then
        do c <- orUndef (exp_type e1) (process e1);
        do c <- nonnull c;
        ret (Some (ConstBitCast c lltype))
      (* global variable to pointer *)
      else if bool_decide (ty tb = Tpointer) && bool_decide (exp_op e1 = TOKvar) then
        match e1 with
        | VarExp _ (mkDeclaration _ (isVarDeclaration vd)) =>
            match irValue vd with
            | None => Lerr
            | Some value =>
                let vtype := toBasetype (vd_type vd) in
                let value :=
                  if bool_decide (ty vtype = Tarray) || bool_decide (ty vtype = Tdelegate)
                  then DtoGEP_field value 1 else value in
                ret (Some (DtoBitCastC value (DtoType tb)))
            end
        | _ => llvm_unreachable
        end
      else if bool_decide (ty tb = Tclass) && bool_decide (ty (exp_type e1) = Tclass)
              && bool_decide (exp_op e1 = TOKclassreference) then
        match e1, tb with
        | ClassReferenceExp _ interfaces _, TypeClass it isInterface =>
            do c <- orUndef (exp_type e1) (process e1);
            do instance <- nonnull c;
            do instance <-
              (if isInterface then
                 match index_of it interfaces with
                 | Some i_index => ret (DtoGEP_field instance i_index)
                 | None => llvm_unreachable
                 end
               else ret instance);
            ret (Some (DtoBitCastC instance (DtoType tb)))
        | _, _ => llvm_unreachable
        end
      else Lerr
  | SymOffExp type var offset =>
      do base <- DtoConstSymbolAddress var;
      match base with
      | None => ret None
      | Some base =>
          let result :=
            if bool_decide (offset = 0) then base
            else
              let elemSize := getTypeStoreSize (getContainedType0 (getType base)) in
              if bool_decide (offset mod elemSize = 0) then
                (* We can turn this into a "nice" GEP. *)
                ConstGEP base (DtoConstSize_t (offset / elemSize)) (getType base)
              else
                (* Offset isn't a multiple of base type size, just cast to i8*
                   and apply the byte offset. *)
                ConstGEP (DtoBitCastC base getVoidPtrType) (DtoConstSize_t offset)
                         getVoidPtrType in
          ret (Some (DtoBitCastC result (DtoType type)))
      end
  | ClassReferenceExp _ _ visit => visit
  | OtherExp _ _ visit => visit
  | UnhandledExp _ _ => visit_Expression
  | FuncExp type fd =>
      (* This is a lambda that was inferred to be a function literal instead
         of a delegate, so set tok here in order to get correct
         types/mangling. *)
      let tok :=
        if bool_decide (tok fd = TOKreserved) && bool_decide (ty type = Tpointer)
        then TOKfunction else tok fd in
      let codegen : M (option LLValue) :=
        (* We need to actually codegen the function here, as literals are not
           added to the module member list. *)
        run Declaration_codegen fd;
        do result <- nonnull (DtoCallee fd);
        if negb (bool_decide (tok = TOKfunction)) then
          let contextPtr := getNullPtr getVoidPtrType in
          ret (Some (AggrPair (LLPair getVoidPtrType (getType result)) contextPtr result))
        else ret (Some result) in
      if negb (bool_decide (tok = TOKfunction)) then
        run assert (bool_decide (tok = TOKdelegate) || bool_decide (tok = TOKreserved));
        (* Only if the function doesn't access its nested context, we can emit
           a constant delegate with context pointer being null. *)
        if negb (toParent2_isModule fd) then
          run error NestedDelegateLiteral;
          run fatalError;
          ret None
        else codegen
      else codegen
  end.

(** [toConstElem]. *)
Definition toConstElem (e : Expression) : M (option LLValue) :=
  orUndef (exp_type e) (process e).

(** [tryToConstElem]. *)
Definition tryToConstElem (e : Expression) : M (option LLValue) :=
  do errors <- startGagging;
  do ce <- process e;
  do anyErrs <- endGagging errors;
  if anyErrs then ret None
  else
    run assert (bool_decide (is_Some ce));
    ret ce.

(** ** The x86 ABI strategy *)

(** Modelled from the spec: the helpers shared by all ABI strategies
    ([gen/abi.cpp] and [gen/abi-generic.h] are missing from the sources).
    [isExternD] holds for the source language's own, non-variadic linkage;
    aggregates are structs, static arrays, delegates and complex numbers; a
    type is POD (trivially copyable) unless its base element is a struct that
    is not; [canRewriteAsInt] holds for the power-of-two sizes up to eight
    bytes; the integer rewrite reinterprets an aggregate as the integer of its
    size (unless the rewrite is obsolete for the physical type at hand), and
    the indirect by-value rewrite passes the address of a copy, treated as a
    local variable of the callee. *)
Definition isExternD (tf : TypeFunctionInfo) : bool :=
  bool_decide (linkage tf = LINKd) && negb (bool_decide (varargs tf = VARARGvariadic)).

Definition isAggregate (t : DType) : bool :=
  let tyb := ty (toBasetype t) in
  bool_decide (tyb = Tstruct) || bool_decide (tyb = Tsarray)
  || bool_decide (tyb = Tdelegate) || iscomplex t.

Fixpoint baseElemOf (t : DType) : DType :=
  match t with
  | TypeEnum _ m => baseElemOf m
  | TypeSArray n _ => baseElemOf n
  | _ => t
  end.

Definition isPOD (t : DType) (excludeStructsWithCtor : bool) : bool :=
  match baseElemOf t with
  | TypeStruct sd => sd_isPOD sd && negb (excludeStructsWithCtor && sd_ctor sd)
  | _ => true
  end.

Definition canRewriteAsInt (t : DType) : bool :=
  let sz := size (toBasetype t) in
  bool_decide (sz = 1) || bool_decide (sz = 2) || bool_decide (sz = 4)
  || bool_decide (sz = 8).

Definition DtoIsInMemoryOnly (t : DType) : bool :=
  let tyb := ty (toBasetype t) in
  bool_decide (tyb = Tstruct) || bool_decide (tyb = Tsarray).

Definition skipReturnValueRewrite (fty : IrFuncTy) : bool :=
  byref (fty_ret fty)
  || bool_decide (ty (toBasetype (arg_type (fty_ret fty))) = Tvoid)
  || bool_decide (ty (toBasetype (arg_type (fty_ret fty))) = Tnoreturn).

Definition IntegerRewrite_type (t : DType) : LLType := LLInt (8 * size t).

Definition IntegerRewrite_applyTo (arg : IrFuncTyArg) : IrFuncTyArg :=
  mkIrFuncTyArg (arg_type arg) (IntegerRewrite_type (arg_type arg)) (attrs arg)
                (byref arg) (Some integerRewrite).

Definition IntegerRewrite_applyToIfNotObsolete (arg : IrFuncTyArg) : IrFuncTyArg :=
  if IntegerRewrite_isObsoleteFor (ltype arg) then arg else IntegerRewrite_applyTo arg.

Definition IndirectByvalRewrite_applyTo (arg : IrFuncTyArg) : IrFuncTyArg :=
  mkIrFuncTyArg (arg_type arg) (DtoPtrToType (arg_type arg))
                [NoAlias; NoCapture; Alignment] (byref arg) (Some indirectByvalRewrite).

(** [struct X86TargetABI], with the fields its constructor computes. *)
Record X86TargetABI : Set := mkX86TargetABI {
  isDarwin : bool;
  isMSVC : bool;
  returnStructsInRegs : bool
}.

Definition getX86TargetABI : X86TargetABI :=
  let os := getOS triple in
  mkX86TargetABI (isOSDarwin triple) (isWindowsMSVCEnvironment triple)
    (negb (bool_decide (os = Linux) || bool_decide (os = Solaris)
           || bool_decide (os = NetBSD))).

(** [getExtraLoweredReturnType]: folds the magic [__c_complex_*] enums to the
    basic complex type. *)
Definition getExtraLoweredReturnType (tf : TypeFunctionInfo) : DType :=
  let rt := next tf in
  match rt with
  | TypeEnum id _ =>
      if bool_decide (id = "__c_complex_float"%string) then TypeBasic Kcomplex32
      else if bool_decide (id = "__c_complex_double"%string) then TypeBasic Kcomplex64
      else if bool_decide (id = "__c_complex_real"%string) then TypeBasic Kcomplex80
      else toBasetype rt
  | _ => toBasetype rt
  end.

(** [X86TargetABI::returnInArg]. *)
Definition returnInArg (abi : X86TargetABI) (tf : TypeFunctionInfo) (needsThis : bool) : bool :=
  if isref tf then false
  else
    let rt := getExtraLoweredReturnType tf in
    let externD := isExternD tf in
    (* non-aggregates are returned directly *)
    if negb (isAggregate rt) then false
    (* complex numbers *)
    else if iscomplex rt then
      (* extern(D): let LLVM return them directly as LL aggregates *)
      if externD then false
      (* extern(C) and all others: cfloat will be rewritten as 64-bit integer
         and returned in registers, sret for cdouble and creal *)
      else negb (bool_decide (ty rt = Tcomplex32))
    (* non-extern(D): some OSs don't return structs in registers at all *)
    else if negb externD && negb (returnStructsInRegs abi) then true
    else
      let isMSVCpp := isMSVC abi && bool_decide (linkage tf = LINKcpp) in
      (* for non-static member functions, MSVC++ enforces sret for all structs *)
      if isMSVCpp && needsThis && bool_decide (ty rt = Tstruct) then true
      else
        (* force sret for non-POD structs *)
        let excludeStructsWithCtor := isMSVCpp in
        if negb (isPOD rt excludeStructsWithCtor) then true
        (* return aggregates of a power-of-2 size <= 8 bytes in register(s),
           all others via sret *)
        else negb (canRewriteAsInt rt).

(** [X86TargetABI::passByVal]. *)
Definition passByVal (abi : X86TargetABI) (tf : TypeFunctionInfo) (t : DType) : bool :=
  let isMSVCpp := isMSVC abi && bool_decide (linkage tf = LINKcpp) in
  if negb isMSVCpp && negb (isPOD t false) then false
  else DtoIsInMemoryOnly t.

Fixpoint map_last {A} (f : A -> A) (l : list A) : list A :=
  match l with
  | [] => []
  | [x] => [f x]
  | x :: l' => x :: map_last f l'
  end.

(** The return-value part of [rewriteFunctionType]. *)
Definition rewriteReturnValue (fty : IrFuncTy) : IrFuncTyArg :=
  let externD := isExternD (fty_type fty) in
  if negb (skipReturnValueRewrite fty) then
    let rt := getExtraLoweredReturnType (fty_type fty) in
    if isAggregate rt && canRewriteAsInt rt
       (* don't rewrite cfloat for extern(D) *)
       && negb (externD && bool_decide (ty rt = Tcomplex32))
    then IntegerRewrite_applyToIfNotObsolete (fty_ret fty)
    else fty_ret fty
  else fty_ret fty.

(** "The last parameter is passed in EAX rather than being pushed on the stack
    if the following conditions are met: it fits in EAX, it is not a 3 byte
    struct, it is not a floating point type." *)
Definition passLastInEAX (last : IrFuncTyArg) : IrFuncTyArg :=
  if bool_decide (rewrite last = Some indirectByvalRewrite)
     || (byref last && negb (isByVal last)) then
    with_attrs last (addAttribute InReg)
  else
    let lastTy := toBasetype (arg_type last) in
    let sz := size lastTy in
    if negb (isfloating lastTy)
       && (bool_decide (sz = 1) || bool_decide (sz = 2) || bool_decide (sz = 4)) then
      let last :=
        (* rewrite aggregates as integers to make inreg work *)
        if bool_decide (ty lastTy = Tstruct) || bool_decide (ty lastTy = Tsarray) then
          (* undo byval semantics applied via passByVal() returning true *)
          with_attrs (with_byref (IntegerRewrite_applyTo last) false) (fun _ => [])
        else last in
      with_attrs last (addAttribute InReg)
    else last.

(** [workaroundIssue1356]: MSVC targets don't support alignment attributes
    for LL byval args. *)
Definition workaroundIssue1356 (abi : X86TargetABI) (l : list IrFuncTyArg) : list IrFuncTyArg :=
  if isMSVC abi then
    map (fun arg => if isByVal arg then with_attrs arg (removeAttribute Alignment) else arg) l
  else l.

Definition isEmptyStruct (t : DType) : bool :=
  match toBasetype t with
  | TypeStruct sd => bool_decide (fields sd = [])
  | _ => false
  end.

(** [X86TargetABI::rewriteFunctionType]. *)
Definition rewriteFunctionType (abi : X86TargetABI) (fty : IrFuncTy) : IrFuncTy :=
  let externD := isExternD (fty_type fty) in
  (* return value: *)
  let ret := rewriteReturnValue fty in
  (* non-POD args are passed indirectly by-value (except for MSVC++) *)
  let isMSVCpp := isMSVC abi && bool_decide (linkage (fty_type fty) = LINKcpp) in
  let args1 :=
    if negb isMSVCpp then
      map (fun arg => if negb (byref arg) && negb (isPOD (arg_type arg) false)
                      then IndirectByvalRewrite_applyTo arg else arg) (args fty)
    else args fty in
  (* extern(D): try passing an argument in EAX *)
  let fty1 :=
    if externD then
      (* try an implicit argument... *)
      match arg_this fty, arg_nest fty, arg_sret fty with
      | Some this, _, _ =>
          mkIrFuncTy (fty_type fty) ret (arg_sret fty)
                     (Some (with_attrs this (addAttribute InReg))) (arg_nest fty) args1
      | None, Some nest, _ =>
          mkIrFuncTy (fty_type fty) ret (arg_sret fty) None
                     (Some (with_attrs nest (addAttribute InReg))) args1
      | None, None, Some sret =>
          (* sret and inreg are incompatible, but the ABI requires the sret
             parameter to be in EAX in this situation... *)
          mkIrFuncTy (fty_type fty) ret
                     (Some (with_attrs (with_attrs sret (removeAttribute StructRet))
                                       (addAttribute InReg)))
                     None None args1
      (* ... otherwise try the last argument *)
      | None, None, None =>
          mkIrFuncTy (fty_type fty) ret None None None (map_last passLastInEAX args1)
      end
    else mkIrFuncTy (fty_type fty) ret (arg_sret fty) (arg_this fty) (arg_nest fty) args1 in
  let args2 := workaroundIssue1356 abi (args fty1) in
  (* Clang does not pass empty structs, while it seems that GCC does, at least
     on Linux x86. *)
  let args3 :=
    if externD || negb (isDarwin abi) then args2
    else filter (fun arg => isEmptyStruct (arg_type arg) = false) args2 in
  mkIrFuncTy (fty_type fty1) (fty_ret fty1) (arg_sret fty1) (arg_this fty1)
             (arg_nest fty1) args3.

End Lowering.

(** ** The pairs of categories the cast functions reject *)

(** The diagnostic for a pair of source and target type that none of the cast
    functions above recognizes, by the categories of the two base types.
    Pairs whose source is a complex number, a class or an array are decided
    in [gen/complex.cpp], [gen/classes.cpp] and [gen/arrays.cpp], and a null
    source by [DtoNullValue]; they are not listed. *)
Definition cast_rejection (triple : Triple) (vtype to : DType) : option Diagnostic :=
  let from := toBasetype vtype in
  let totype := toBasetype to in
  let has_ty (t : DType) (c : TY) := bool_decide (ty t = c) in
  if has_ty from Taarray && (has_ty totype Taarray || has_ty totype Tpointer || has_ty totype Tbool)
  then None
  else if equals from totype then None
  else if has_ty from Tvector then
    if has_ty totype Tsarray || (has_ty totype Tvector && bool_decide (size triple to = size triple vtype))
    then None else Some (InvalidCast vtype to)
  else if isintegral from then
    if has_ty totype Tbool || isintegral totype || iscomplex totype || isfloating totype
       || has_ty totype Tpointer
    then None else Some (InvalidCast vtype to)
  else if iscomplex from then None
  else if isfloating from then
    if has_ty totype Tbool || iscomplex totype || isfloating totype || isintegral totype
    then None else Some (InvalidCast vtype to)
  else if has_ty from Tclass || has_ty from Tarray || has_ty from Tsarray
          || has_ty from Tnull || has_ty from Tnoreturn then None
  else if has_ty from Tpointer || has_ty from Tfunction then
    if has_ty totype Tpointer || has_ty totype Tclass || has_ty totype Taarray || has_ty totype Tbool
       || isintegral totype
    then None else Some (InvalidCast vtype to)
  else if has_ty from Tdelegate then
    if has_ty totype Tdelegate || has_ty totype Tbool then None else Some (InvalidCast vtype to)
  else if has_ty from Tstruct then
    if has_ty totype Tstruct then None else Some (InvalidStructCast vtype to)
  else Some (InvalidCast vtype to).

(** ** What the integer instructions compute *)

(** The integer conversions of the target IR on bit patterns: a value of an
    [n]-bit type is a number below [2 ^ n]. *)
Definition bitwidth (t : LLType) : Z :=
  match t with
  | LLInt b => b
  | _ => 0
  end.

Definition zext_val (x : Z) : Z := x.

Definition sext_val (wfrom wto : Z) (x : Z) : Z :=
  if Z.testbit x (wfrom - 1) then x + 2 ^ wto - 2 ^ wfrom else x.

Definition trunc_val (wto : Z) (x : Z) : Z := x mod 2 ^ wto.

(** The value of a constant: an integer, a null, or a folded comparison of
    two such. *)
Fixpoint eval_constant (v : LLValue) : option Z :=
  match v with
  | ConstantInt _ n => Some n
  | ConstantNull _ => Some 0
  | ConstICmpNE a b =>
      match eval_constant a, eval_constant b with
      | Some x, Some y => Some (if bool_decide (x = y) then 0 else 1)
      | _, _ => None
      end
  | _ => None
  end.

Definition eval_operand (regs : list (option Z)) (v : LLValue) : option Z :=
  match v with
  | ConstantInt _ n => Some n
  | ConstantNull _ => Some 0
  | Reg n _ => mjoin (regs !! n)
  | ConstICmpNE _ _ => eval_constant v
  | _ => None
  end.

Definition eval_instr (regs : list (option Z)) (i : Instr) : option Z :=
  match i with
  | ZExtInst v _ => zext_val <$> eval_operand regs v
  | SExtInst v t => sext_val (bitwidth (getType v)) (bitwidth t) <$> eval_operand regs v
  | TruncInst v t => trunc_val (bitwidth t) <$> eval_operand regs v
  | BitCastInst v _ => eval_operand regs v
  | ICmpNE a b =>
      match eval_operand regs a, eval_operand regs b with
      | Some x, Some y => Some (if bool_decide (x = y) then 0 else 1)
      | _, _ => None
      end
  | _ => None
  end.

(** The registers after a block ran, in the order of its instructions. *)
Definition eval_block (b : list Instr) : list (option Z) :=
  fold_left (fun regs i => regs ++ [eval_instr regs i]) b [].

Definition eval_value (b : list Instr) (v : LLValue) : option Z :=
  eval_operand (eval_block b) v.

(** The instructions that write memory, and the instructions a call appended
    to the block. *)
Definition writes_memory (i : Instr) : bool :=
  match i with
  | StoreInst _ _ | MemCpyInst _ _ | CallInst _ _ => true
  | _ => false
  end.

Definition emitted_since (s s' : IRState) : list Instr :=
  drop (length (scopebb s)) (scopebb s').

(** The thread-locality [declareGlobal] goes on with. *)
Definition effective_isThreadLocal (triple : Triple) (isThreadLocal : bool) : bool :=
  if bool_decide (getArch triple = wasm32) || bool_decide (getArch triple = wasm64)
     || bool_decide (getArch triple = avr)
  then false else isThreadLocal.

(** ** The state an operation starts from *)

Definition initial_state : IRState := mkIRState [] [] 0 0 0 ∅.

Definition x86_linux : Triple := mkTriple x86 Linux false 4 12.
Definition x86_darwin : Triple := mkTriple x86 Darwin false 4 16.
Definition x86_windows_msvc : Triple := mkTriple x86 Win32 true 4 8.
Definition ppc_linux : Triple := mkTriple ppc Linux false 4 16.
Definition wasm32_unknown : Triple := mkTriple wasm32 UnknownOS false 4 16.

(** Collaborators that stop the compiler when reached: enough to run the code
    above on inputs that never reach them. *)
Definition no_collaborators : Collaborators := {|
  DtoComplex := fun _ _ => llvm_unreachable;
  DtoCastComplex := fun _ _ => llvm_unreachable;
  DtoCastClass := fun _ _ => llvm_unreachable;
  DtoCastArray := fun _ _ => llvm_unreachable;
  DtoPaintType := fun _ _ => llvm_unreachable;
  DtoDelegateEquals := fun _ => llvm_unreachable;
  DtoArrayAssign := fun _ _ _ _ => llvm_unreachable;
  DtoStoreZextI8 := fun _ _ => llvm_unreachable;
  DtoAllocaDump := fun _ _ _ => llvm_unreachable;
  DtoAlignment := fun _ => 0;
  IntegerRewrite_isObsoleteFor := fun t => isaIntegerType t;
  undoStrideMul := fun _ v => v;
  getTypeStoreSize := fun t => bitwidth t / 8
|}.

Definition tint32 : DType := TypeBasic Kint32.
Definition tint64 : DType := TypeBasic Kint64.
Definition tuns16 : DType := TypeBasic Kuns16.
Definition tbool : DType := TypeBasic Kbool.
Definition tvoid : DType := TypeBasic Kvoid.

(** ** Notions the properties are stated with *)

(** The extension [DtoCastInt] picks for a source type. *)
Definition widening (from : DType) (v : LLValue) (t : LLType) : Instr :=
  if isLLVMUnsigned from || bool_decide (ty from = Tbool)
  then ZExtInst v t else SExtInst v t.

(** Evaluating an operand only ever appends to the block. *)
Definition only_block_grew (s s1 : IRState) : Prop :=
  diagnostics s1 = diagnostics s /\ errors s1 = errors s /\ gag s1 = gag s
  /\ gaggedErrors s1 = gaggedErrors s /\ module_globals s1 = module_globals s.





(** Whether the x86 strategy marked an argument for a register. *)
Definition isInReg (a : IrFuncTyArg) : bool := hasAttribute InReg (attrs a).

(** The last parameter is passed by value: it is no reference, or it is a
    [byval] copy, and it is not given to the callee as an implicit copy. *)
Definition passed_by_value (last : IrFuncTyArg) : Prop :=
  (byref last = false \/ isByVal last = true)
  /\ rewrite last <> Some indirectByvalRewrite
  /\ isPOD (arg_type last) false = true.

(** ** Inputs for the concrete cases *)

Definition S4 : StructDeclaration :=
  mkStructDeclaration "S4" ["a"%string] 4 true false.
Definition S3 : StructDeclaration :=
  mkStructDeclaration "S3" ["a"%string; "b"%string; "c"%string] 3 true false.
Definition Empty : StructDeclaration :=
  mkStructDeclaration "Empty" [] 1 true false.
Definition aa_int_int : DType := TypeAArray tint32 tint32.

Definition plain_x : GlobalVariable :=
  mkGlobalVariable (LLInt 32) false ExternalLinkage NotThreadLocal DefaultStorageClass.

Definition module_with_x : IRState :=
  mkIRState [] [] 0 0 0 (<["x"%string := plain_x]> ∅).


Definition extern_C_returning (rt : DType) : TypeFunctionInfo :=
  mkTypeFunction false LINKc rt VARARGnone.
Definition extern_D_returning (rt : DType) : TypeFunctionInfo :=
  mkTypeFunction false LINKd rt VARARGnone.

Definition by_value (t : DType) (lt : LLType) : IrFuncTyArg :=
  mkIrFuncTyArg t lt [] false None.

Definition extern_D_taking (l : list IrFuncTyArg) : IrFuncTy :=
  mkIrFuncTy (extern_D_returning tvoid) (by_value tvoid LLVoid) None None None l.

(** ** More of the x86 ABI strategy *)

Inductive CallingConv : Set := CC_C | CC_X86_StdCall | CC_X86_ThisCall.

#[global] Instance CallingConv_eq_dec : EqDecision CallingConv.
Proof. solve_decision. Defined.

(** [X86TargetABI::callingConv]; [fdecl] is the function declaration, when
    given, by its [needThis()]; [None] is the [llvm_unreachable] of the
    switch. *)
Definition callingConv (abi : X86TargetABI) (l : LINK) (tf : option TypeFunctionInfo)
    (fdecl : option bool) : option CallingConv :=
  if match tf with
     | Some tf => bool_decide (varargs tf = VARARGvariadic)
     | None => false
     end
  then Some CC_C
  else
    match l with
    | LINKc | LINKobjc => Some CC_C
    | LINKcpp =>
        if isMSVC abi && match fdecl with Some needThis => needThis | None => false end
        then Some CC_X86_ThisCall else Some CC_C
    | LINKd | LINKdefault | LINKwindows => Some CC_X86_StdCall
    | _ => None
    end.

(** The byte 0x1 that keeps LLVM from mangling a name further. *)
Definition byte_1 : Ascii.ascii := Ascii.ascii_of_nat 1.

(** [name[0] == '?'] (the character past an empty name is the null byte). *)
Definition starts_with_question_mark (name : string) : bool :=
  match name with
  | String c _ => bool_decide (c = "?"%char)
  | EmptyString => false
  end.

(** [X86TargetABI::mangleFunctionForLLVM]. *)
Definition mangleFunctionForLLVM (triple : Triple) (name : string) (l : LINK) : string :=
  if isOSWindows triple then
    if bool_decide (l = LINKd) || bool_decide (l = LINKdefault) then
      (* Prepend a 0x1 byte to prevent LLVM from applying MS stdcall mangling,
         and add extra underscore manually. *)
      String byte_1 (String "_"%char name)
    else if bool_decide (l = LINKcpp) && starts_with_question_mark name then
      (* Prepend a 0x1 byte to prevent LLVM from prepending the C underscore
         for MSVC++ symbols (starting with '?'). *)
      String byte_1 name
    else name
  else name.

(** [X86TargetABI::mangleVariableForLLVM]. *)
Definition mangleVariableForLLVM (triple : Triple) (name : string) (l : LINK) : string :=
  if isOSWindows triple && bool_decide (l = LINKcpp) && starts_with_question_mark name
  then String byte_1 name
  else name.

(** ** String literals as constants *)

(** A string literal of the front end by what [buildStringLiteralConstant]
    reads: the size of a code unit in bytes, the type, and the code units. *)
Record StringExp : Set := mkStringExp {
  se_sz : Z;
  se_type : DType;
  se_string : list Z
}.

Definition numberOfCodeUnits (se : StringExp) : nat := length (se_string se).
Definition charAt (se : StringExp) (i : nat) : Z := nth i (se_string se) 0.

(** A constant array, with its array type and its elements. *)
Inductive LLConstantArray : Set :=
| ConstantArray (t : LLType) (vals : list LLValue).

(** [llvm::ConstantDataArray::getString]: the bytes as an array of i8, with a
    null byte after them on request. *)
Definition ConstantDataArray_getString (data : list Z) (AddNull : bool) : LLConstantArray :=
  let elts := data ++ (if AddNull then [0] else []) in
  ConstantArray (LLArray (Z.of_nat (length elts)) (LLInt 8))
                (map (ConstantInt (LLInt 8)) elts).

Section StringLiterals.

Variable triple : Triple.

(** [buildStringLiteralConstant]; the element type of a type that has none is
    the error type of the front end, taken to be [void] here. *)
Definition buildStringLiteralConstant (se : StringExp) (zeroTerm : bool) : LLConstantArray :=
  if bool_decide (se_sz se = 1) then
    ConstantDataArray_getString (se_string se) zeroTerm
  else
    let dtype := toBasetype (se_type se) in
    let cty := toBasetype (default (TypeBasic Kvoid) (nextOf dtype)) in
    let ct := DtoMemType triple cty in
    let len := numberOfCodeUnits se in
    let len := if zeroTerm then (len + 1)%nat else len in
    let at_ := LLArray (Z.of_nat len) ct in
    let vals := map (fun i => LLConstantInt_get ct (charAt se i) false)
                    (seq 0 (numberOfCodeUnits se)) in
    let vals := if zeroTerm then vals ++ [LLConstantInt_get ct 0 false] else vals in
    ConstantArray at_ vals.

End StringLiterals.

(** ** Symbols and their parents *)

(** A function declaration by what [getParentFunc] reads; [fd_literal] is the
    token of a function literal, for [isFuncLiteralDeclaration()]. *)
Record FuncDeclaration : Set := mkFuncDeclaration {
  fd_isStatic : bool;
  fd_isThis : bool;
  fd_linkage : LINK;
  fd_literal : option TOK
}.

Inductive DsymbolKind : Set :=
| SymFuncDeclaration (fd : FuncDeclaration)
| SymAggregateDeclaration (isNested : bool)
| SymOther.

(** A pointer to a symbol: null, or a symbol with its kind and the pointer to
    its parent. *)
Inductive Dsymbol : Set :=
| nullptr
| mkDsymbol (ident : string) (kind : DsymbolKind) (parent : Dsymbol).

Definition sym_parent (sym : Dsymbol) : Dsymbol :=
  match sym with
  | mkDsymbol _ _ p => p
  | nullptr => nullptr
  end.

Definition sym_isFuncDeclaration (sym : Dsymbol) : option FuncDeclaration :=
  match sym with
  | mkDsymbol _ (SymFuncDeclaration fd) _ => Some fd
  | _ => None
  end.

Definition sym_isAggregateDeclaration (sym : Dsymbol) : option bool :=
  match sym with
  | mkDsymbol _ (SymAggregateDeclaration isNested) _ => Some isNested
  | _ => None
  end.

(** The loop of [getParentFunc], from [parent] upwards. *)
Fixpoint getParentFunc_loop (parent : Dsymbol) : Dsymbol :=
  match parent with
  | nullptr => nullptr
  | mkDsymbol _ k up =>
      match sym_isFuncDeclaration parent, sym_isAggregateDeclaration parent with
      | Some _, _ => parent
      | None, Some false => nullptr
      | None, _ => getParentFunc_loop up
      end
  end.

(** [getParentFunc]. *)
Definition getParentFunc (sym : Dsymbol) : Dsymbol :=
  match sym with
  | nullptr => nullptr
  | mkDsymbol _ _ parent =>
      (* Static functions, non-extern(D) non-member functions and function (not
         delegate) literals don't allow access to a parent context, even if
         they are nested. *)
      let stop :=
        match sym_isFuncDeclaration sym, sym_isAggregateDeclaration sym with
        | Some fd, _ =>
            fd_isStatic fd
            || (negb (fd_isThis fd) && negb (bool_decide (fd_linkage fd = LINKd)))
            || bool_decide (fd_literal fd = Some TOKfunction)
        | None, Some isNested => negb isNested
        | None, None => false
        end in
      if stop then nullptr else getParentFunc_loop parent
  end.

(** ** Symbols of the default libraries *)

Inductive DLLImport : Set := DLLImport_none | DLLImport_defaultLibsOnly | DLLImport_all.

#[global] Instance DLLImport_eq_dec : EqDecision DLLImport.
Proof. solve_decision. Defined.

(** [global.params], by the two settings read here. *)
Record Param : Set := mkParam {
  linkonceTemplates : bool;
  dllimport : DLLImport
}.

(** A module declaration: the packages of the module and its own name. *)
Record ModuleDeclaration : Set := mkModuleDeclaration {
  packages : list string;
  md_id : string
}.

(** A symbol by what the three functions read: its module, if any, with the
    module declaration, if any; whether it is instantiated from a template;
    whether it is exported. *)
Record SymbolInfo : Set := mkSymbolInfo {
  getModule : option (option ModuleDeclaration);
  isInstantiated : bool;
  isExport : bool
}.

(** [isDefaultLibSymbol]: "is the specified symbol defined in the
    druntime/Phobos libs?" *)
Definition isDefaultLibSymbol (sym : SymbolInfo) : bool :=
  match getModule sym with
  | None => false
  | Some None => false
  | Some (Some md) =>
      match packages md with
      | [] => bool_decide (md_id md = "object"%string) || bool_decide (md_id md = "std"%string)
      | p :: rest =>
          bool_decide (p = "core"%string) || bool_decide (p = "etc"%string)
          || bool_decide (p = "ldc"%string)
          || (bool_decide (p = "std"%string)
              (* 3rd-party package: std.io *)
              && negb ((bool_decide (length (packages md) = 1%nat)
                        && bool_decide (md_id md = "io"%string))
                       || (bool_decide (1 < length (packages md))%nat
                           && bool_decide (nth 1 (packages md) ""%string = "io"%string))))
      end
  end.

(** [defineOnDeclare]. *)
Definition defineOnDeclare (params : Param) (sym : SymbolInfo) (isFunction : bool) : bool :=
  if linkonceTemplates params then isInstantiated sym
  else
    negb isFunction && bool_decide (dllimport params = DLLImport_defaultLibsOnly)
    && isInstantiated sym && isDefaultLibSymbol sym.

(** [dllimportDataSymbol]. *)
Definition dllimportDataSymbol (params : Param) (sym : SymbolInfo) : bool :=
  isExport sym || bool_decide (dllimport params = DLLImport_all)
  || (bool_decide (dllimport params = DLLImport_defaultLibsOnly)
      (* exclude instantiated symbols from druntime/Phobos templates *)
      && negb (isInstantiated sym) && isDefaultLibSymbol sym).

(** ** Variables as values *)

(** [vd->storage_class], by the bits read here. *)
Record StorageClass : Set := mkStorageClass {
  STCref : bool;
  STCparameter : bool;
  STCextern : bool
}.

(** [isSpecialRefVar]: a reference that is no parameter. *)
Definition isSpecialRefVar (storage_class : StorageClass) : bool :=
  STCref storage_class && negb (STCparameter storage_class).

Definition isIrVarCreated (vd : VarDeclaration) : bool :=
  bool_decide (is_Some (irValue vd)).

Section Variables.

Variable triple : Triple.
Context `{Collaborators}.

(** [makeVarDValue]; [storage_class] is that of [vd]. *)
Definition makeVarDValue (type : DType) (vd : VarDeclaration) (storage_class : StorageClass)
    (storage : option LLValue) : M DValue :=
  do val <-
    match storage with
    | Some val => ret val
    | None =>
        run assert (isIrVarCreated vd);
        nonnull (irValue vd)
    end;
  (* We might need to cast. *)
  let expectedType := DtoPtrToType triple type in
  let isSpecialRef := isSpecialRefVar storage_class in
  let expectedType := if isSpecialRef then LLPointer expectedType else expectedType in
  do val <-
    (if bool_decide (getType val <> expectedType) then
       (* The type of globals is determined by their initializer, and the
          front-end may inject implicit casts for class references and static
          arrays. *)
       run assert (isDataseg vd || STCextern storage_class
                   || bool_decide (ty (toBasetype type) = Tclass)
                   || bool_decide (ty (toBasetype type) = Tsarray));
       let pointeeType := getContainedType0 (getType val) in
       let pointeeType :=
         if isSpecialRef then getContainedType0 pointeeType else pointeeType in
       run assert (bool_decide (getTypeStoreSize (DtoType triple type)
                                <= getTypeStoreSize pointeeType));
       DtoBitCast val expectedType
     else ret val);
  if isSpecialRef then ret (DSpecialRefValue type val) else ret (DLValue type val).

End Variables.

(** ** Further notions *)

(** A step that at most appends instructions which leave memory alone, and
    touches nothing else of the state. *)
Definition pure_step (s s' : IRState) : Prop :=
  only_block_grew s s'
  /\ exists l, scopebb s' = scopebb s ++ l
               /\ Forall (fun i => writes_memory i = false) l.

(** A computation all of whose returns are such steps. *)
Definition pure_comp {A} (m : M A) : Prop :=
  forall s a s', m s = (Ret a, s') -> pure_step s s'.

(** The address a constant expression denotes: the global or function it
    starts from, and the byte offset its element-indexed address
    computations add up to, [stride] being the distance between two elements
    of a type. *)
Fixpoint address_base (c : LLValue) : LLValue :=
  match c with
  | ConstGEP b _ _ | ConstBitCast b _ => address_base b
  | _ => c
  end.

Fixpoint byte_offset (stride : LLType -> Z) (c : LLValue) : Z :=
  match c with
  | ConstGEP b (ConstantInt _ i) _ =>
      byte_offset stride b + i * stride (getContainedType0 (getType b))
  | ConstGEP b _ _ | ConstBitCast b _ => byte_offset stride b
  | _ => 0
  end.


(** A computation that keeps the discipline of gagged errors: while errors
    are gagged it prints nothing, keeps the gag level, and counts every error
    it raises in both counters. *)
Definition gag_disciplined {A} (m : M A) : Prop :=
  forall s o s',
    m s = (o, s') -> gag s <> 0%nat ->
    gag s' = gag s /\ diagnostics s' = diagnostics s
    /\ (gaggedErrors s <= gaggedErrors s')%nat
    /\ (errors s' + gaggedErrors s = errors s + gaggedErrors s')%nat.

(** The computations an expression carries keep that discipline. *)
Fixpoint visits_disciplined (e : Expression) : Prop :=
  match e with
  | VarExp _ var =>
      match decl_kind var with
      | isVarDeclaration vd =>
          match _init vd with
          | Some init => gag_disciplined init
          | None => True
          end
      | _ => True
      end
  | AddExp _ e1 _ | MinExp _ e1 _ | CastExp _ _ e1 => visits_disciplined e1
  | ClassReferenceExp _ _ visit | OtherExp _ _ visit => gag_disciplined visit
  | FuncExp _ fd => gag_disciplined (Declaration_codegen fd)
  | IntegerExp _ _ | NullExp _ | SymOffExp _ _ _ | UnhandledExp _ _ => True
  end.

(** The symbols from a pointer upwards, the nearest first. *)
Fixpoint chain (p : Dsymbol) : list Dsymbol :=
  match p with
  | nullptr => []
  | mkDsymbol _ _ up => p :: chain up
  end.

(** The fully qualified name of a module: its packages, then its own name. *)
Definition fully_qualified (md : ModuleDeclaration) : list string :=
  packages md ++ [md_id md].

(** * Properties *)

(** ** Types *)

Lemma toBasetype_not_enum (t : DType) (id : string) (m : DType) :
  toBasetype t <> TypeEnum id m.
Proof. induction t; simpl; congruence. Qed.

Lemma toBasetype_idem (t : DType) : toBasetype (toBasetype t) = toBasetype t.
Proof. induction t; simpl; auto. Qed.

(** A scalar integral base type is one of the basic integer types. *)
Lemma integral_scalar_basic (t : DType) :
  isintegral (toBasetype t) = true -> ty (toBasetype t) <> Tvector ->
  exists k, toBasetype t = TypeBasic k /\ basic_isintegral (basic_ty k) = true.
Proof.
  intros Hi Hv. pose proof (toBasetype_not_enum t) as E.
  destruct (toBasetype t) eqn:Et; simpl in *; try discriminate.
  - eauto.
  - congruence.
  - exfalso; eapply E; reflexivity.
Qed.

Section LoweringProperties.

Context (triple : Triple) `{Collaborators}.

Lemma DtoType_toBasetype (t : DType) :
  DtoType triple (toBasetype t) = DtoType triple t.
Proof. induction t; simpl; auto. Qed.

Lemma size_toBasetype (t : DType) : size triple (toBasetype t) = size triple t.
Proof. induction t; simpl; auto. Qed.

Lemma basic_integral_DtoType (k : BasicKind) :
  basic_isintegral (basic_ty k) = true ->
  DtoType triple (TypeBasic k)
  = if bool_decide (k = Kbool) then LLInt 1
    else LLInt (8 * basic_size triple (basic_ty k)).
Proof. destruct k; simpl; intros; try discriminate; reflexivity. Qed.

Lemma basic_integral_size (k : BasicKind) :
  basic_isintegral (basic_ty k) = true -> 1 <= basic_size triple (basic_ty k) <= 16.
Proof. destruct k; simpl; intros; try discriminate; lia. Qed.

Lemma basic_ty_bool (k : BasicKind) : basic_ty k = Tbool -> k = Kbool.
Proof. destruct k; simpl; congruence. Qed.

(** The physical types of two integer types differ when the source is
    strictly smaller, or is [bool] and the target is another type. *)
Lemma widening_lltypes_differ (from to : DType) :
  isintegral (toBasetype from) = true -> ty (toBasetype from) <> Tvector ->
  isintegral (toBasetype to) = true ->
  toBasetype from <> toBasetype to ->
  size triple (toBasetype from) < size triple (toBasetype to)
    \/ ty (toBasetype from) = Tbool ->
  DtoType triple from <> DtoType triple to /\ ty (toBasetype to) <> Tbool.
Proof.
  intros Hf Hv Ht Hne Hsz.
  destruct (integral_scalar_basic from Hf Hv) as (k & Ek & Hk).
  rewrite <- (DtoType_toBasetype from), <- (DtoType_toBasetype to).
  rewrite Ek in *. rewrite (basic_integral_DtoType k Hk).
  pose proof (basic_integral_size k Hk) as Hks.
  pose proof (toBasetype_not_enum to) as E.
  destruct (toBasetype to) as [k'| | | | |v| | | | | | | | |] eqn:Et;
    simpl in Ht; try discriminate.
  - rewrite (basic_integral_DtoType k' Ht).
    pose proof (basic_integral_size k' Ht) as Hks'.
    simpl in Hsz. simpl.
    assert (k' <> Kbool) as Hk'.
    { intros ->. destruct Hsz as [Hsz|Hsz].
      - simpl in Hsz. lia.
      - apply basic_ty_bool in Hsz. congruence. }
    split.
    + rewrite (bool_decide_eq_false_2 (k' = Kbool)) by assumption.
      case_bool_decide as Hb.
      * intros [=]. lia.
      * destruct Hsz as [Hsz|Hsz]; [intros [=]; lia|].
        apply basic_ty_bool in Hsz. contradiction.
    + intros Hb. apply basic_ty_bool in Hb. contradiction.
  - simpl. split; [|discriminate].
    destruct v; simpl; case_bool_decide; discriminate.
  - exfalso; eapply E; reflexivity.
Qed.

(** *** Evaluation of a block *)

Lemma eval_block_snoc (b : list Instr) (i : Instr) :
  eval_block (b ++ [i]) = eval_block b ++ [eval_instr (eval_block b) i].
Proof. unfold eval_block. rewrite fold_left_app. reflexivity. Qed.

Lemma eval_block_length (b : list Instr) : length (eval_block b) = length b.
Proof.
  induction b as [|i b IH] using rev_ind; [reflexivity|].
  rewrite eval_block_snoc, !length_app, IH. reflexivity.
Qed.

(** An operand that has a value in a block keeps it when the block grows. *)
Lemma eval_operand_snoc (b : list Instr) (i : Instr) (v : LLValue) (x : Z) :
  eval_value b v = Some x -> eval_value (b ++ [i]) v = Some x.
Proof.
  unfold eval_value. rewrite eval_block_snoc.
  destruct v; simpl; auto.
  intros Hx. destruct (eval_block b !! n) as [o|] eqn:E; [|discriminate].
  rewrite (lookup_app_l_Some _ _ _ _ E). exact Hx.
Qed.

(** The register of the instruction just appended holds what it computes. *)
Lemma eval_value_last (b : list Instr) (i : Instr) (t : LLType) :
  eval_value (b ++ [i]) (Reg (length b) t) = eval_instr (eval_block b) i.
Proof.
  unfold eval_value. rewrite eval_block_snoc. simpl.
  rewrite <- (eval_block_length b), list_lookup_middle by reflexivity.
  reflexivity.
Qed.

(** *** Integer casts *)

(** The widening branch of [DtoCastInt]: one extension is appended, and its
    register holds the extended source value. *)
Lemma DtoCastInt_widening_step (val : DValue) (_to : DType) (s s1 : IRState)
    (rval : LLValue) :
  let from := toBasetype (dv_type val) in
  let to := toBasetype _to in
  let tolltype := DtoType triple _to in
  isintegral from = true -> ty from <> Tvector ->
  isintegral to = true ->
  from <> to ->
  size triple from < size triple to \/ ty from = Tbool ->
  DtoRVal triple val s = (Ret rval, s1) ->
  getType rval = DtoType triple (dv_type val) ->
  DtoCastInt triple val _to s
  = (Ret (DImValue _to (Reg (length (scopebb s1)) tolltype)),
     push_instr (widening from rval tolltype) s1)
  /\ forall x : Z,
      eval_value (scopebb s1) rval = Some x ->
      eval_value (scopebb (push_instr (widening from rval tolltype) s1))
                 (Reg (length (scopebb s1)) tolltype)
      = Some (if isLLVMUnsigned from || bool_decide (ty from = Tbool)
              then zext_val x
              else sext_val (bitwidth (getType rval)) (bitwidth tolltype) x).
Proof.
  intros from to tolltype Hf Hv Ht Hne Hsz Hr Hty.
  destruct (widening_lltypes_differ (dv_type val) _to Hf Hv Ht Hne Hsz)
    as [Hll Hnb].
  split.
  - unfold DtoCastInt, bind, assert. fold from. rewrite Hf, Hr.
    rewrite (bool_decide_eq_false_2 (getType rval = DtoType triple _to))
      by (rewrite Hty; exact Hll).
    fold to. rewrite (bool_decide_eq_false_2 (ty to = Tbool)) by exact Hnb.
    rewrite Ht.
    assert (bool_decide (size triple from < size triple to)
            || bool_decide (ty from = Tbool) = true) as ->.
    { destruct Hsz as [Hsz|Hsz].
      - rewrite (bool_decide_eq_true_2 _ Hsz). reflexivity.
      - rewrite (bool_decide_eq_true_2 _ Hsz). apply orb_true_r. }
    unfold widening.
    destruct (isLLVMUnsigned from || bool_decide (ty from = Tbool)); reflexivity.
  - intros x Hx. unfold push_instr. cbn [scopebb]. rewrite eval_value_last.
    unfold widening.
    destruct (isLLVMUnsigned from || bool_decide (ty from = Tbool));
      cbn [eval_instr]; fold (eval_value (scopebb s1) rval); rewrite Hx;
      reflexivity.
Qed.

(** [DtoCast] hands a scalar integer over to [DtoCastInt] whenever the two
    base types differ. *)
Lemma DtoCast_integer_dispatch (val : DValue) (to : DType) (s : IRState) :
  isintegral (toBasetype (dv_type val)) = true ->
  ty (toBasetype (dv_type val)) <> Tvector ->
  toBasetype (dv_type val) <> toBasetype to ->
  DtoCast triple val to s = DtoCastInt triple val to s.
Proof.
  intros Hi Hv Hne.
  destruct (integral_scalar_basic _ Hi Hv) as (k & Ek & Hk).
  unfold DtoCast, DtoCast_dispatch. rewrite Ek in *.
  rewrite bool_decide_eq_false_2 by (destruct k; discriminate).
  unfold equals. rewrite (bool_decide_eq_false_2 _ Hne).
  rewrite (bool_decide_eq_false_2 _ Hv). simpl in Hi |- *. rewrite Hi.
  reflexivity.
Qed.

(** C1. An integer-to-integer cast from a strictly smaller source type, or
    from [bool] to another type, of a value whose register has the lowered
    type of its source type, appends exactly one instruction to the block: a
    zero extension when the source type is unsigned or [bool], a sign
    extension otherwise; the result is the register of that instruction, and
    it holds the zero- or sign-extended source value.  The unsigned types are
    the unsigned integers, [bool] and the character types, and
    [isLLVMUnsigned] counts the pointers with them, though [DtoCastInt] itself
    stops at its assertion for a pointer.  [DtoCast] takes such a cast to
    [DtoCastInt].  In particular the 16-bit unsigned [0xFFFF] becomes the
    32-bit [0x0000FFFF], and the 32-bit signed [-1] becomes the 64-bit
    [0xFFFFFFFFFFFFFFFF]. *)
Theorem DtoCastInt_widens :
  (forall (val : DValue) (_to : DType) (s s1 : IRState) (rval : LLValue),
      let from := toBasetype (dv_type val) in
      let to := toBasetype _to in
      let tolltype := DtoType triple _to in
      let result := Reg (length (scopebb s1)) tolltype in
      isintegral from = true -> ty from <> Tvector ->
      isintegral to = true ->
      from <> to ->
      size triple from < size triple to \/ ty from = Tbool ->
      DtoRVal triple val s = (Ret rval, s1) ->
      getType rval = DtoType triple (dv_type val) ->
      (isunsigned from = true \/ ty from = Tbool ->
       DtoCastInt triple val _to s
       = (Ret (DImValue _to result), push_instr (ZExtInst rval tolltype) s1)
       /\ forall x : Z,
           eval_value (scopebb s1) rval = Some x ->
           eval_value (scopebb (push_instr (ZExtInst rval tolltype) s1)) result
           = Some x)
      /\ (isunsigned from = false -> ty from <> Tbool ->
          DtoCastInt triple val _to s
          = (Ret (DImValue _to result), push_instr (SExtInst rval tolltype) s1)
          /\ forall x : Z,
              eval_value (scopebb s1) rval = Some x ->
              eval_value (scopebb (push_instr (SExtInst rval tolltype) s1)) result
              = Some (if Z.testbit x (bitwidth (getType rval) - 1)
                      then x + 2 ^ bitwidth tolltype - 2 ^ bitwidth (getType rval)
                      else x)))
  /\ (forall k : BasicKind,
         basic_isintegral (basic_ty k) = true ->
         (isLLVMUnsigned (TypeBasic k) = true
          <-> In k [Kuns8; Kuns16; Kuns32; Kuns64; Kuns128; Kbool; Kchar; Kwchar; Kdchar])
         /\ (isLLVMUnsigned (TypeBasic k) = false
             <-> In k [Kint8; Kint16; Kint32; Kint64; Kint128]))
  /\ (forall t : DType,
         isLLVMUnsigned t = true <-> isunsigned t = true \/ ty t = Tpointer)
  /\ (forall (val : DValue) (_to : DType) (s : IRState),
         ty (toBasetype (dv_type val)) = Tpointer ->
         DtoCastInt triple val _to s = (Abort, s))
  /\ (forall (val : DValue) (_to : DType) (s : IRState),
         isintegral (toBasetype (dv_type val)) = true ->
         ty (toBasetype (dv_type val)) <> Tvector ->
         toBasetype (dv_type val) <> toBasetype _to ->
         DtoCast triple val _to s = DtoCastInt triple val _to s)
  /\ (forall s : IRState,
         exists r s',
           DtoCastInt triple (DImValue tuns16 (ConstantInt (LLInt 16) 0xFFFF)) tint32 s
           = (Ret (DImValue tint32 r), s')
           /\ scopebb s'
              = scopebb s ++ [ZExtInst (ConstantInt (LLInt 16) 0xFFFF) (LLInt 32)]
           /\ eval_value (scopebb s') r = Some 0x0000FFFF)
  /\ (forall s : IRState,
         exists r s',
           DtoCastInt triple (DImValue tint32 (ConstantInt (LLInt 32) 0xFFFFFFFF)) tint64 s
           = (Ret (DImValue tint64 r), s')
           /\ scopebb s'
              = scopebb s ++ [SExtInst (ConstantInt (LLInt 32) 0xFFFFFFFF) (LLInt 64)]
           /\ eval_value (scopebb s') r = Some 0xFFFFFFFFFFFFFFFF).
Proof.
  split; [|split; [|split; [|split; [|split; [exact DtoCast_integer_dispatch|]]]]].
  - intros val _to s s1 rval from to tolltype result Hf Hv Ht Hne Hsz Hr Hty.
    destruct (DtoCastInt_widening_step val _to s s1 rval Hf Hv Ht Hne Hsz Hr Hty)
      as [E V].
    fold from tolltype in E, V. unfold widening in E, V.
    destruct (integral_scalar_basic _ Hf Hv) as (k & Ek & Hk). fold from in Ek.
    assert (isLLVMUnsigned from = isunsigned from) as Eu.
    { unfold isLLVMUnsigned. rewrite Ek. cbn [ty].
      rewrite bool_decide_eq_false_2 by (destruct k; discriminate).
      apply orb_false_r. }
    rewrite Eu in E, V. split.
    + intros Hu.
      assert (isunsigned from || bool_decide (ty from = Tbool) = true) as Hb.
      { destruct Hu as [->|Hu]; [reflexivity|].
        rewrite (bool_decide_eq_true_2 _ Hu). apply orb_true_r. }
      rewrite Hb in E, V. split; [exact E|exact V].
    + intros Hu Hnb.
      rewrite Hu, (bool_decide_eq_false_2 _ Hnb) in E, V. cbn [orb] in E, V.
      split; [exact E|exact V].
  - intros k Hk. unfold isLLVMUnsigned.
    destruct k; try discriminate Hk; cbn; split; split; intros Hx;
      try reflexivity; try discriminate Hx;
      repeat (destruct Hx as [Hx|Hx]; [discriminate Hx|]); try contradiction;
      tauto.
  - intros t. unfold isLLVMUnsigned. rewrite orb_true_iff.
    split; (intros [Hu|Hp]; [left; exact Hu|right]).
    + apply bool_decide_eq_true_1 in Hp. exact Hp.
    + apply bool_decide_eq_true_2. exact Hp.
  - intros val _to s Hp. unfold DtoCastInt, bind, assert.
    pose proof (toBasetype_not_enum (dv_type val)) as NE.
    destruct (toBasetype (dv_type val)) as [k| | | | | | | | | | | | | |];
      cbn in Hp |- *; try discriminate Hp; try reflexivity.
    destruct k; discriminate Hp.
  - split; intros s.
    + destruct (DtoCastInt_widening_step
                  (DImValue tuns16 (ConstantInt (LLInt 16) 0xFFFF)) tint32 s s
                  (ConstantInt (LLInt 16) 0xFFFF)) as [E V];
        try reflexivity; try discriminate; [left; simpl; lia|].
      eexists _, _. split; [exact E|]. split; [reflexivity|].
      exact (V 0xFFFF eq_refl).
    + destruct (DtoCastInt_widening_step
                  (DImValue tint32 (ConstantInt (LLInt 32) 0xFFFFFFFF)) tint64 s s
                  (ConstantInt (LLInt 32) 0xFFFFFFFF)) as [E V];
        try reflexivity; try discriminate; [left; simpl; lia|].
      eexists _, _. split; [exact E|]. split; [reflexivity|].
      exact (V 0xFFFFFFFF eq_refl).
Qed.

(** *** Null values *)

Lemma ty_Tarray_inv (t : DType) : ty t = Tarray -> exists n, t = TypeDArray n.
Proof. destruct t as [k| | | | | | | | | | | | | |]; simpl; try discriminate; eauto.
  destruct k; discriminate. Qed.

(** C10. [DtoNullValue] by the category of the base type: a dynamic array
    gives the slice of length constant 0 and null element pointer; a complex
    type the pair of two zero components; integer, floating, pointer, null,
    class, delegate and associative-array types the null constant of the
    lowered type; any other type reports an error and ends the compilation. *)
Theorem DtoNullValue_by_category (type : DType) (s : IRState) :
  let basetype := toBasetype type in
  let nullable :=
    isintegral basetype || isfloating basetype
    || bool_decide (ty basetype = Tpointer) || bool_decide (ty basetype = Tnull)
    || bool_decide (ty basetype = Tclass) || bool_decide (ty basetype = Tdelegate)
    || bool_decide (ty basetype = Taarray) in
  (ty basetype = Tarray ->
   exists n, nextOf basetype = Some n
     /\ DtoNullValue triple type s
        = (Ret (DSliceValue type (ConstantInt (DtoSize_t triple) 0)
                            (ConstantNull (LLPointer (DtoMemType triple n)))), s))
  /\ (iscomplex basetype = true ->
      DtoNullValue triple type s
      = (Ret (DImValue type
                (AggrPair (DtoType triple type)
                          (ConstantNull (DtoComplexBaseType basetype))
                          (ConstantNull (DtoComplexBaseType basetype)))), s))
  /\ (iscomplex basetype = false -> nullable = true ->
      DtoNullValue triple type s
      = (Ret (DNullValue type (ConstantNull (DtoType triple basetype))), s))
  /\ (iscomplex basetype = false -> nullable = false -> ty basetype <> Tarray ->
      DtoNullValue triple type s = (Fatal, report (NullNotKnown type) s)).
Proof.
  intros basetype nullable. subst nullable basetype.
  unfold DtoNullValue. cbv zeta.
  repeat split.
  - intros Ha. destruct (ty_Tarray_inv _ Ha) as [n En].
    exists n. rewrite En. simpl. split; reflexivity.
  - intros ->. reflexivity.
  - intros -> ->. reflexivity.
  - intros -> -> Hna. rewrite (bool_decide_eq_false_2 _ Hna). reflexivity.
Qed.

(** *** The cast dispatcher *)

Lemma only_block_grew_refl (s : IRState) : only_block_grew s s.
Proof. repeat split. Qed.

Lemma DtoRVal_returns (val : DValue) (s : IRState) :
  exists r s1, DtoRVal triple val s = (Ret r, s1) /\ only_block_grew s s1.
Proof.
  destruct val; simpl; unfold ret, emit, bind;
    eexists _, _; (split; [reflexivity|repeat split]).
Qed.

(** C8, as the code has it.  A cast between types of one base type gives the
    value back as it is, with no instruction, unless the base type is an
    associative array: then a fresh value of the target type is built around
    the address (for an addressable value) or around the register value.  The
    early exit of [DtoCastFloat] gives the value back as well. *)
Theorem DtoCast_same_basetype (val : DValue) (to : DType) (s : IRState) :
  toBasetype (dv_type val) = toBasetype to ->
  (ty (toBasetype to) <> Taarray -> DtoCast triple val to s = (Ret val, s))
  /\ (ty (toBasetype to) = Taarray ->
      DtoCast triple val to s
      = (if isLVal val
         then bind (DtoLVal val) (fun l => ret (DLValue to l))
         else bind (DtoRVal triple val) (fun r => ret (DImValue to r))) s)
  /\ (dv_type val = to -> DtoCastFloat triple val to s = (Ret val, s)).
Proof.
  intros Eb. repeat split.
  - intros Hna. unfold DtoCast, DtoCast_dispatch. rewrite Eb.
    rewrite (bool_decide_eq_false_2 _ Hna).
    unfold equals. rewrite bool_decide_eq_true_2 by reflexivity. reflexivity.
  - intros Ha. unfold DtoCast. rewrite Eb.
    rewrite !(bool_decide_eq_true_2 _ Ha). reflexivity.
  - intros Et. unfold DtoCastFloat.
    rewrite (bool_decide_eq_true_2 _ Et). reflexivity.
Qed.

(** *** Rejected casts *)

Lemma DtoType_LLInt_integral (t : DType) (n : Z) :
  DtoType triple t = LLInt n -> isintegral (toBasetype t) = true.
Proof.
  induction t as [k| | | | |v _| | | | | | | | |]; simpl; try discriminate; auto.
  - destruct k; simpl; try discriminate; auto.
  - destruct v; discriminate.
Qed.

Lemma orb_false_split (a b : bool) : a || b = false -> a = false /\ b = false.
Proof. destruct a, b; simpl; auto; discriminate. Qed.

Ltac split_orb :=
  repeat match goal with
  | Hx : _ || _ = false |- _ =>
      let H1 := fresh "Hor" in
      let H2 := fresh "Hor" in
      apply orb_false_split in Hx; destruct Hx as [H1 H2]
  end.

Lemma DtoCastInt_rejects (val : DValue) (to : DType) (s s1 : IRState) (r : LLValue) :
  isintegral (toBasetype (dv_type val)) = true ->
  ty (toBasetype (dv_type val)) <> Tvector ->
  DtoRVal triple val s = (Ret r, s1) ->
  getType r = DtoType triple (dv_type val) ->
  bool_decide (ty (toBasetype to) = Tbool) || isintegral (toBasetype to)
    || iscomplex (toBasetype to) || isfloating (toBasetype to)
    || bool_decide (ty (toBasetype to) = Tpointer) = false ->
  DtoCastInt triple val to s = (Fatal, report (InvalidCast (dv_type val) to) s1).
Proof.
  intros Hf Hv Hr Hty Hto. split_orb.
  unfold DtoCastInt, bind, assert. rewrite Hf, Hr.
  assert (getType r <> DtoType triple to) as Hne.
  { rewrite Hty. intros E.
    destruct (integral_scalar_basic _ Hf Hv) as (k & Ek & Hk).
    rewrite <- (DtoType_toBasetype (dv_type val)), Ek in E.
    rewrite (basic_integral_DtoType k Hk) in E.
    assert (exists n, DtoType triple to = LLInt n) as [n En].
    { rewrite <- E. case_bool_decide; eauto. }
    apply DtoType_LLInt_integral in En. congruence. }
  rewrite (bool_decide_eq_false_2 _ Hne).
  repeat match goal with Hx : _ = false |- _ => rewrite Hx; clear Hx end.
  reflexivity.
Qed.

Lemma DtoCast_dispatch_rejects (val : DValue) (to : DType) (s : IRState) (d : Diagnostic) :
  cast_rejection triple (dv_type val) to = Some d ->
  (forall r s1, DtoRVal triple val s = (Ret r, s1) ->
                getType r = DtoType triple (dv_type val)) ->
  exists s1, only_block_grew s s1
             /\ DtoCast_dispatch triple val to s = (Fatal, report d s1).
Proof.
  intros Hrej Hty. unfold cast_rejection in Hrej. unfold DtoCast_dispatch.
  set (from := toBasetype (dv_type val)) in *.
  set (totype := toBasetype to) in *.
  destruct (bool_decide (ty from = Taarray)
            && (bool_decide (ty totype = Taarray) || bool_decide (ty totype = Tpointer)
                || bool_decide (ty totype = Tbool))) eqn:Eaa; [discriminate|].
  destruct (equals from totype) eqn:Eeq; [discriminate|].
  destruct (bool_decide (ty from = Tvector)) eqn:Ev.
  { (* vectors *)
    destruct (bool_decide (ty totype = Tsarray)
              || bool_decide (ty totype = Tvector)
                 && bool_decide (size triple to = size triple (dv_type val))) eqn:Et;
      [discriminate|].
    injection Hrej as <-. exists s. split; [apply only_block_grew_refl|].
    apply orb_false_split in Et as [Et1 Et2].
    unfold DtoCastVector, bind, assert. fold from. rewrite Ev.
    fold totype. rewrite Et1, Et2. reflexivity. }
  destruct (isintegral from) eqn:Ei.
  { (* integers *)
    match type of Hrej with (if ?c then _ else _) = _ => destruct c eqn:Et end;
      [discriminate|].
    injection Hrej as <-.
    destruct (DtoRVal_returns val s) as (r & s1 & Hr & Hg).
    exists s1. split; [exact Hg|].
    apply DtoCastInt_rejects with (r := r); auto.
    - apply bool_decide_eq_false_1 in Ev. exact Ev.
    - eapply Hty; eassumption. }
  destruct (iscomplex from) eqn:Ec; [discriminate|].
  destruct (isfloating from) eqn:Ef.
  { (* floating point *)
    match type of Hrej with (if ?c then _ else _) = _ => destruct c eqn:Et end;
      [discriminate|].
    injection Hrej as <-. exists s. split; [apply only_block_grew_refl|].
    split_orb.
    unfold DtoCastFloat, bind, assert.
    rewrite bool_decide_eq_false_2.
    2:{ intros E. unfold equals in Eeq. apply bool_decide_eq_false_1 in Eeq.
        apply Eeq. unfold from, totype. rewrite E. reflexivity. }
    fold from. fold totype. rewrite Ef.
    repeat match goal with Hx : _ = false |- _ => rewrite Hx; clear Hx end.
    reflexivity. }
  match type of Hrej with (if ?c then _ else _) = _ => destruct c eqn:Eo end;
    [discriminate|].
  split_orb.
  destruct (bool_decide (ty from = Tpointer) || bool_decide (ty from = Tfunction)) eqn:Ep.
  { (* pointers *)
    match type of Hrej with (if ?c then _ else _) = _ => destruct c eqn:Et end;
      [discriminate|].
    injection Hrej as <-. exists s. split; [apply only_block_grew_refl|].
    assert (DtoCastPtr triple val to s
            = (Fatal, report (InvalidCast (dv_type val) to) s)) as Eptr.
    { unfold DtoCastPtr, bind, assert. fold from. fold totype. rewrite Ep.
      split_orb.
      repeat match goal with Hx : _ = false |- _ => rewrite Hx; clear Hx end.
      reflexivity. }
    apply orb_true_iff in Ep as [Ep|Ep]; apply bool_decide_eq_true_1 in Ep;
      rewrite Ep; exact Eptr. }
  split_orb.
  destruct (bool_decide (ty from = Tdelegate)) eqn:Ed.
  { match type of Hrej with (if ?c then _ else _) = _ => destruct c eqn:Et end;
      [discriminate|].
    injection Hrej as <-. exists s. split; [apply only_block_grew_refl|].
    apply bool_decide_eq_true_1 in Ed. rewrite Ed.
    unfold DtoCastDelegate, bind. fold totype. split_orb.
    repeat match goal with Hx : _ = false |- _ => rewrite Hx; clear Hx end.
    reflexivity. }
  destruct (bool_decide (ty from = Tstruct)) eqn:Es.
  { match type of Hrej with (if ?c then _ else _) = _ => destruct c eqn:Et end;
      [discriminate|].
    injection Hrej as <-. exists s. split; [apply only_block_grew_refl|].
    apply bool_decide_eq_true_1 in Es. rewrite Es.
    unfold DtoCastStruct, bind. fold totype. rewrite Et. reflexivity. }
  injection Hrej as <-. exists s. split; [apply only_block_grew_refl|].
  repeat match goal with
         | Hx : bool_decide _ = false |- _ => apply bool_decide_eq_false_1 in Hx
         end.
  destruct (ty from); try contradiction; reflexivity.
Qed.

(** C3, as the code has it.  A cast whose pair of source and target category
    none of the cast functions recognizes reports its error and ends the
    compilation with [fatal]: no value, poison or other, goes back to the
    caller, whether errors are gagged or not. *)
Theorem DtoCast_rejects (val : DValue) (to : DType) (s : IRState) (d : Diagnostic) :
  cast_rejection triple (dv_type val) to = Some d ->
  (forall r s1, DtoRVal triple val s = (Ret r, s1) ->
                getType r = DtoType triple (dv_type val)) ->
  (d = InvalidCast (dv_type val) to \/ d = InvalidStructCast (dv_type val) to)
  /\ exists s1,
       only_block_grew s s1
       /\ DtoCast triple val to s = (Fatal, report d s1)
       /\ (forall v s', DtoCast triple val to s <> (Ret v, s'))
       /\ (gag s = 0%nat -> diagnostics (report d s1) = diagnostics s ++ [d])
       /\ (gag s <> 0%nat -> gaggedErrors (report d s1) = S (gaggedErrors s)).
Proof.
  intros Hrej Hty. split.
  - unfold cast_rejection in Hrej.
    repeat match type of Hrej with
           | (if ?c then _ else _) = _ => destruct c
           end; try discriminate; injection Hrej as <-; auto.
  - destruct (DtoCast_dispatch_rejects val to s d Hrej Hty) as (s1 & Hg & E).
    assert (DtoCast triple val to s = DtoCast_dispatch triple val to s) as Ed.
    { unfold DtoCast. unfold cast_rejection in Hrej.
      destruct (bool_decide (ty (toBasetype (dv_type val)) = Taarray)); [|reflexivity].
      destruct (bool_decide (ty (toBasetype to) = Taarray)); [discriminate|].
      destruct (bool_decide (ty (toBasetype to) = Tpointer)); [discriminate|].
      destruct (bool_decide (ty (toBasetype to) = Tbool)); [discriminate|].
      reflexivity. }
    exists s1. rewrite Ed, E.
    split; [exact Hg|]. split; [reflexivity|].
    destruct Hg as (Hd & He & Hgag & Hge & Hm).
    split; [|split].
    + intros v s'. discriminate.
    + intros G. unfold report. rewrite Hgag, G. simpl. rewrite Hd. reflexivity.
    + intros G. unfold report. rewrite Hgag.
      destruct (gag s) eqn:Eg; [contradiction|]. simpl. rewrite Hge. reflexivity.
Qed.

(** *** Assignment of structs *)

Lemma DtoLVal_emits (v : DValue) (s s1 : IRState) (a : LLValue) :
  DtoLVal v s = (Ret a, s1) ->
  exists l, scopebb s1 = scopebb s ++ l
            /\ Forall (fun i => writes_memory i = false) l.
Proof.
  destruct v; simpl; unfold ret, emit, llvm_unreachable; intros [=]; subst.
  - exists []. rewrite app_nil_r. split; [reflexivity|constructor].
  - eexists [_]. split; [reflexivity|]. repeat constructor.
Qed.

(** C4. Assigning a struct to itself, that is with the source address being
    the destination address, returns without a memory copy: nothing that
    writes memory enters the block, so the bytes of the destination stay as
    they are; for two addressable values of one address the block does not
    change at all.  A struct without fields is never copied: the assignment
    emits nothing. *)
Theorem DtoAssign_struct_self (lhs rhs : DValue) (op : Z) (canSkipPostblit : bool)
    (sym : StructDeclaration) (s : IRState) :
  toBasetype (dv_type lhs) = TypeStruct sym ->
  (forall (addr : LLValue) (s1 s2 : IRState),
      DtoLVal rhs s = (Ret addr, s1) ->
      DtoLVal lhs s1 = (Ret addr, s2) ->
      fields sym <> [] ->
      DtoAssign triple lhs rhs op canSkipPostblit s = (Ret tt, s2)
      /\ Forall (fun i => writes_memory i = false) (emitted_since s s2)
      /\ ~ (exists dst src, MemCpyInst dst src ∈ emitted_since s s2))
  /\ (forall (t t' : DType) (addr : LLValue),
         lhs = DLValue t addr -> rhs = DLValue t' addr ->
         DtoAssign triple lhs rhs op canSkipPostblit s = (Ret tt, s))
  /\ (fields sym = [] ->
      DtoAssign triple lhs rhs op canSkipPostblit s = (Ret tt, s)).
Proof.
  intros Et.
  assert (forall (addr : LLValue) (s1 s2 : IRState),
      DtoLVal rhs s = (Ret addr, s1) ->
      DtoLVal lhs s1 = (Ret addr, s2) ->
      fields sym <> [] ->
      DtoAssign triple lhs rhs op canSkipPostblit s = (Ret tt, s2)) as Self.
  { intros addr s1 s2 Hr Hl Hf.
    unfold DtoAssign, bind, assert. rewrite Et. simpl.
    rewrite bool_decide_eq_true_2 by (destruct (fields sym); [congruence|simpl; lia]).
    rewrite Hr, Hl. rewrite bool_decide_eq_true_2 by reflexivity. reflexivity. }
  split; [|split].
  - intros addr s1 s2 Hr Hl Hf. split; [eauto|].
    destruct (DtoLVal_emits _ _ _ _ Hr) as (l1 & E1 & F1).
    destruct (DtoLVal_emits _ _ _ _ Hl) as (l2 & E2 & F2).
    assert (emitted_since s s2 = l1 ++ l2) as ->.
    { unfold emitted_since. rewrite E2, E1, <- app_assoc. apply drop_app_length. }
    assert (Forall (fun i => writes_memory i = false) (l1 ++ l2)) as F
      by (apply Forall_app; auto).
    split; [exact F|].
    intros (dst & src & Hin). rewrite Forall_forall in F.
    specialize (F _ Hin). discriminate.
  - intros t t' addr -> ->.
    destruct (fields sym) eqn:Ef.
    + unfold DtoAssign, bind, assert. rewrite Et. simpl.
      rewrite Ef. reflexivity.
    + apply (Self addr s s); [reflexivity|reflexivity|congruence].
  - intros Ef. unfold DtoAssign, bind, assert. rewrite Et. simpl.
    rewrite Ef. reflexivity.
Qed.

(** Where the two addresses differ, the copy is emitted. *)
Lemma DtoAssign_struct_copies (lhs rhs : DValue) (op : Z) (canSkipPostblit : bool)
    (sym : StructDeclaration) (s s1 s2 : IRState) (src dst : LLValue) :
  toBasetype (dv_type lhs) = TypeStruct sym -> fields sym <> [] ->
  DtoLVal rhs s = (Ret src, s1) -> DtoLVal lhs s1 = (Ret dst, s2) -> src <> dst ->
  DtoAssign triple lhs rhs op canSkipPostblit s
  = (Ret tt, push_instr (MemCpyInst dst src) s2).
Proof.
  intros Et Hf Hr Hl Hne.
  unfold DtoAssign, bind, assert. rewrite Et. simpl.
  rewrite bool_decide_eq_true_2 by (destruct (fields sym); [congruence|simpl; lia]).
  rewrite Hr, Hl. rewrite (bool_decide_eq_false_2 _ Hne). reflexivity.
Qed.

(** *** Globals *)

(** C5, as the code has it.  When the mangled name is already in the module:
    a request whose physical type, constant-ness or effective thread-locality
    (the requested one, but never thread-local on WebAssembly and AVR)
    differs from the existing global reports the mismatch and ends the
    compilation; a request that agrees in all three gets the existing global
    back and the module is left as it was. *)
Theorem declareGlobal_existing (clThreadModel : ThreadLocalMode) (type : LLType)
    (mangledName : string) (isConstant isThreadLocal useDLLImport : bool)
    (s : IRState) (existing : GlobalVariable) :
  module_globals s !! mangledName = Some existing ->
  let tl := effective_isThreadLocal triple isThreadLocal in
  (gv_type existing <> type \/ gv_isConstant existing <> isConstant
   \/ gv_isThreadLocal existing <> tl ->
   declareGlobal triple clThreadModel type mangledName isConstant isThreadLocal
                 useDLLImport s
   = (Fatal,
      note (GlobalMismatchSuppl false type isConstant tl)
        (note (GlobalMismatchSuppl true (gv_type existing) (gv_isConstant existing)
                                   (gv_isThreadLocal existing))
           (report (GlobalMismatch mangledName) s))))
  /\ (gv_type existing = type -> gv_isConstant existing = isConstant ->
      gv_isThreadLocal existing = tl ->
      declareGlobal triple clThreadModel type mangledName isConstant isThreadLocal
                    useDLLImport s
      = (Ret existing, s)).
Proof.
  intros Hex tl. unfold declareGlobal, bind, getGlobalVariable. rewrite Hex.
  fold (effective_isThreadLocal triple isThreadLocal). fold tl.
  split.
  - intros Hm.
    assert (negb (bool_decide (gv_type existing = type))
            || negb (eqb (gv_isConstant existing) isConstant)
            || negb (eqb (gv_isThreadLocal existing) tl) = true) as ->.
    { destruct Hm as [Hm|[Hm|Hm]].
      - rewrite (bool_decide_eq_false_2 _ Hm). reflexivity.
      - apply eqb_false_iff in Hm. rewrite Hm. simpl.
        rewrite orb_true_r. reflexivity.
      - apply eqb_false_iff in Hm. rewrite Hm. simpl. apply orb_true_r. }
    reflexivity.
  - intros H1 H2 H3.
    rewrite (bool_decide_eq_true_2 _ H1).
    apply eqb_true_iff in H2, H3. rewrite H2, H3. reflexivity.
Qed.

(** C9, as the code has it.  A thread-local global that [declareGlobal]
    creates gets the TLS model of the [-fthread-model] option, global-dynamic
    when the option is absent, on every target but three kinds: on 32-bit
    PowerPC it is always local-exec, and on WebAssembly and AVR the global is
    not thread-local at all. *)
Theorem declareGlobal_tls_model (given : option string) (clThreadModel : ThreadLocalMode)
    (type : LLType) (mangledName : string) (isConstant useDLLImport : bool)
    (s : IRState) :
  clThreadModel_getValue given = Some clThreadModel ->
  module_globals s !! mangledName = None ->
  exists gvar s',
    declareGlobal triple clThreadModel type mangledName isConstant true useDLLImport s
    = (Ret gvar, s')
    /\ module_globals s' !! mangledName = Some gvar
    /\ (getArch triple <> ppc -> getArch triple <> wasm32 ->
        getArch triple <> wasm64 -> getArch triple <> avr ->
        gv_tlsMode gvar = clThreadModel)
    /\ (getArch triple = ppc -> gv_tlsMode gvar = LocalExecTLSModel)
    /\ (getArch triple = wasm32 \/ getArch triple = wasm64 \/ getArch triple = avr ->
        gv_tlsMode gvar = NotThreadLocal)
    /\ (given = None -> clThreadModel = GeneralDynamicTLSModel)
    /\ clThreadModel ∈ [GeneralDynamicTLSModel; LocalDynamicTLSModel;
                        InitialExecTLSModel; LocalExecTLSModel].
Proof.
  intros Hopt Hnew.
  unfold declareGlobal, bind, getGlobalVariable. rewrite Hnew.
  fold (effective_isThreadLocal triple true).
  unfold newGlobalVariable.
  assert ((given = None -> clThreadModel = GeneralDynamicTLSModel)
          /\ clThreadModel ∈ [GeneralDynamicTLSModel; LocalDynamicTLSModel;
                              InitialExecTLSModel; LocalExecTLSModel]) as [Hd Hin].
  { destruct given as [name|]; simpl in Hopt.
    - split; [discriminate|].
      repeat (case_bool_decide; [injection Hopt as <-; set_solver|]).
      discriminate.
    - injection Hopt as <-. split; [reflexivity|set_solver]. }
  assert (forall dll : DLLStorageClass,
             let tls := if effective_isThreadLocal triple true
                        then (if bool_decide (getArch triple = ppc)
                              then LocalExecTLSModel else clThreadModel)
                        else NotThreadLocal in
             (getArch triple <> ppc -> getArch triple <> wasm32 ->
              getArch triple <> wasm64 -> getArch triple <> avr ->
              tls = clThreadModel)
             /\ (getArch triple = ppc -> tls = LocalExecTLSModel)
             /\ (getArch triple = wasm32 \/ getArch triple = wasm64
                 \/ getArch triple = avr -> tls = NotThreadLocal)) as Htls.
  { intros _ tls. subst tls. unfold effective_isThreadLocal.
    split; [|split].
    - intros N1 N2 N3 N4.
      rewrite !bool_decide_eq_false_2 by assumption. reflexivity.
    - intros ->. reflexivity.
    - intros [->|[->| ->]]; reflexivity. }
  specialize (Htls DefaultStorageClass). destruct Htls as (T1 & T2 & T3).
  destruct (useDLLImport && isOSWindows triple); simpl;
    eexists _, _; (split; [reflexivity|]); simpl;
    (split; [apply lookup_insert_eq|]); auto 10.
Qed.

(** *** Constant folding *)




(** *** The x86 ABI: return values *)

(** What [rewriteFunctionType] leaves as the return value is the work of its
    first step alone. *)
Lemma rewriteFunctionType_ret (abi : X86TargetABI) (fty : IrFuncTy) :
  fty_ret (rewriteFunctionType triple abi fty) = rewriteReturnValue triple fty.
Proof.
  unfold rewriteFunctionType.
  destruct (isExternD (fty_type fty)); simpl; [|reflexivity].
  destruct (arg_this fty), (arg_nest fty), (arg_sret fty); reflexivity.
Qed.

(** The lowered return type with the tag of [cfloat] is [cfloat]. *)
Lemma lowered_cfloat (tf : TypeFunctionInfo) :
  ty (getExtraLoweredReturnType tf) = Tcomplex32 ->
  getExtraLoweredReturnType tf = TypeBasic Kcomplex32.
Proof.
  assert (forall t, ty (toBasetype t) = Tcomplex32 ->
                    toBasetype t = TypeBasic Kcomplex32) as Hb.
  { intros t Ht. pose proof (toBasetype_not_enum t) as NEt.
    destruct (toBasetype t) as [k| | | | | | | | | | | | | |];
      cbn in Ht; try discriminate Ht.
    destruct k; try discriminate Ht. reflexivity. }
  unfold getExtraLoweredReturnType.
  destruct (next tf) as [k| | | | | | | | | | | | | |] eqn:En;
    try (rewrite <- En; apply Hb).
  repeat case_bool_decide; try reflexivity; try discriminate.
  rewrite <- En. apply Hb.
Qed.

(** C2, as the code has it.  A function that returns by [ref] is never sret.
    Any other function with an aggregate return type that is not complex is
    sret exactly when one of these holds: it is not extern(D) and the target
    returns no struct in registers; it is an MSVC++ member function returning
    a struct; the type is not POD (for MSVC++: or has a constructor); its size
    is not 1, 2, 4 or 8 bytes.  Otherwise it returns in registers, and
    [rewriteFunctionType] rewrites the return value as the integer of its
    size, unless that rewrite is skipped or obsolete; in every other case it
    leaves the return value as it is.  A complex number is returned directly
    under extern(D), [cfloat] without being rewritten, and otherwise only
    [cfloat] is (as an integer), [cdouble] and [creal] being sret. *)
Theorem returnInArg_classification (abi : X86TargetABI) (tf : TypeFunctionInfo)
    (needsThis : bool) :
  let rt := getExtraLoweredReturnType tf in
  let externD := isExternD tf in
  let isMSVCpp := isMSVC abi && bool_decide (linkage tf = LINKcpp) in
  (isref tf = true -> returnInArg triple abi tf needsThis = false)
  /\ (isref tf = false -> isAggregate rt = false ->
      returnInArg triple abi tf needsThis = false)
  /\ (isref tf = false -> isAggregate rt = true -> iscomplex rt = false ->
      returnInArg triple abi tf needsThis
      = (negb externD && negb (returnStructsInRegs abi))
        || (isMSVCpp && needsThis && bool_decide (ty rt = Tstruct))
        || negb (isPOD rt isMSVCpp)
        || negb (canRewriteAsInt triple rt))
  /\ (isref tf = false -> isAggregate rt = true -> iscomplex rt = true ->
      returnInArg triple abi tf needsThis
      = negb externD && negb (bool_decide (ty rt = Tcomplex32)))
  /\ (forall fty : IrFuncTy,
         fty_type fty = tf ->
         skipReturnValueRewrite fty = false ->
         IntegerRewrite_isObsoleteFor (ltype (fty_ret fty)) = false ->
         isAggregate rt = true -> canRewriteAsInt triple rt = true ->
         externD && bool_decide (ty rt = Tcomplex32) = false ->
         let ret' := fty_ret (rewriteFunctionType triple abi fty) in
         rewrite ret' = Some integerRewrite
         /\ ltype ret' = LLInt (8 * size triple (arg_type (fty_ret fty)))
         /\ arg_type ret' = arg_type (fty_ret fty))
  /\ (forall fty : IrFuncTy,
         fty_type fty = tf ->
         skipReturnValueRewrite fty = true
         \/ IntegerRewrite_isObsoleteFor (ltype (fty_ret fty)) = true
         \/ isAggregate rt = false
         \/ canRewriteAsInt triple rt = false
         \/ (externD = true /\ ty rt = Tcomplex32) ->
         fty_ret (rewriteFunctionType triple abi fty) = fty_ret fty)
  /\ (forall fty : IrFuncTy,
         fty_type fty = tf ->
         ty rt = Tcomplex32 ->
         let ret' := fty_ret (rewriteFunctionType triple abi fty) in
         (externD = true -> ret' = fty_ret fty)
         /\ (externD = false ->
             skipReturnValueRewrite fty = false ->
             IntegerRewrite_isObsoleteFor (ltype (fty_ret fty)) = false ->
             rewrite ret' = Some integerRewrite
             /\ ltype ret' = LLInt (8 * size triple (arg_type (fty_ret fty))))).
Proof.
  intros rt externD isMSVCpp. subst rt externD isMSVCpp.
  assert (forall fty : IrFuncTy,
             fty_type fty = tf ->
             skipReturnValueRewrite fty = false ->
             IntegerRewrite_isObsoleteFor (ltype (fty_ret fty)) = false ->
             isAggregate (getExtraLoweredReturnType tf) = true ->
             canRewriteAsInt triple (getExtraLoweredReturnType tf) = true ->
             isExternD tf && bool_decide (ty (getExtraLoweredReturnType tf) = Tcomplex32)
             = false ->
             fty_ret (rewriteFunctionType triple abi fty)
             = IntegerRewrite_applyTo triple (fty_ret fty)) as Hrewritten.
  { intros fty <- Hs Ho Ha Hc Hx. rewrite rewriteFunctionType_ret.
    unfold rewriteReturnValue. rewrite Hs, Ha, Hc, Hx. simpl.
    unfold IntegerRewrite_applyToIfNotObsolete. rewrite Ho. reflexivity. }
  assert (forall fty : IrFuncTy,
             fty_type fty = tf ->
             skipReturnValueRewrite fty = true
             \/ IntegerRewrite_isObsoleteFor (ltype (fty_ret fty)) = true
             \/ isAggregate (getExtraLoweredReturnType tf) = false
             \/ canRewriteAsInt triple (getExtraLoweredReturnType tf) = false
             \/ (isExternD tf = true /\ ty (getExtraLoweredReturnType tf) = Tcomplex32) ->
             fty_ret (rewriteFunctionType triple abi fty) = fty_ret fty) as Hkept.
  { clear Hrewritten. intros fty <- Hc. rewrite rewriteFunctionType_ret.
    unfold rewriteReturnValue, IntegerRewrite_applyToIfNotObsolete.
    destruct (skipReturnValueRewrite fty) eqn:Es; [reflexivity|]. cbn [negb].
    destruct (IntegerRewrite_isObsoleteFor (ltype (fty_ret fty))) eqn:Eo;
      [match goal with |- (if ?c then _ else _) = _ => destruct c end; reflexivity|].
    destruct Hc as [Hc|[Hc|[Hc|[Hc|[Hd Hc]]]]]; try discriminate.
    - rewrite Hc. reflexivity.
    - rewrite Hc, andb_false_r. reflexivity.
    - rewrite Hd, (bool_decide_eq_true_2 _ Hc). cbn [andb negb].
      rewrite andb_false_r. reflexivity. }
  split; [|split; [|split; [|split; [|split; [|split]]]]].
  - intros Hr. unfold returnInArg. rewrite Hr. reflexivity.
  - intros Hr Ha. unfold returnInArg. rewrite Hr, Ha. reflexivity.
  - intros Hr Ha Hc. unfold returnInArg. rewrite Hr, Ha, Hc. simpl.
    destruct (negb (isExternD tf) && negb (returnStructsInRegs abi)); [reflexivity|].
    destruct (isMSVC abi && bool_decide (linkage tf = LINKcpp) && needsThis
              && bool_decide (ty (getExtraLoweredReturnType tf) = Tstruct));
      [reflexivity|].
    destruct (isPOD (getExtraLoweredReturnType tf)
                    (isMSVC abi && bool_decide (linkage tf = LINKcpp)));
      reflexivity.
  - intros Hr Ha Hc. unfold returnInArg. rewrite Hr, Ha, Hc. simpl.
    destruct (isExternD tf); reflexivity.
  - intros fty Hf Hs Ho Ha Hc Hx ret'. subst ret'.
    rewrite (Hrewritten fty Hf Hs Ho Ha Hc Hx). repeat split.
  - exact Hkept.
  - intros fty Hf Hc ret'. subst ret'. split.
    + intros Hd. apply (Hkept fty Hf). right. right. right. right. auto.
    + intros Hd Hs Ho.
      pose proof (lowered_cfloat tf Hc) as Ert.
      rewrite (Hrewritten fty Hf Hs Ho).
      * split; reflexivity.
      * rewrite Ert. reflexivity.
      * rewrite Ert. reflexivity.
      * rewrite Hd. reflexivity.
Qed.

(** *** The x86 ABI: passing in a register *)

Lemma map_last_snoc {A} (f : A -> A) (l : list A) (x : A) :
  map_last f (l ++ [x]) = l ++ [f x].
Proof.
  induction l as [|y l IH]; [reflexivity|].
  simpl. rewrite IH. destruct (l ++ [x]) eqn:E; [|reflexivity].
  destruct l; discriminate.
Qed.

Lemma hasAttribute_add (a : LLAttribute) (l : list LLAttribute) :
  hasAttribute a (addAttribute a l) = true.
Proof.
  unfold addAttribute. destruct (hasAttribute a l) eqn:E; [exact E|].
  unfold hasAttribute. apply bool_decide_eq_true_2.
  rewrite elem_of_app, list_elem_of_singleton. auto.
Qed.

Lemma hasAttribute_remove_ne (a b : LLAttribute) (l : list LLAttribute) :
  a <> b -> hasAttribute a (removeAttribute b l) = hasAttribute a l.
Proof.
  intros Hne. unfold hasAttribute, removeAttribute.
  apply bool_decide_ext. rewrite list_elem_of_filter. tauto.
Qed.

Lemma hasAttribute_add_ne (a b : LLAttribute) (l : list LLAttribute) :
  a <> b -> hasAttribute a (addAttribute b l) = hasAttribute a l.
Proof.
  intros Hne. unfold addAttribute. destruct (hasAttribute b l); [reflexivity|].
  unfold hasAttribute. apply bool_decide_ext.
  rewrite elem_of_app, list_elem_of_singleton. tauto.
Qed.

Lemma workaround_keeps_InReg (abi : X86TargetABI) (l : list IrFuncTyArg) :
  map isInReg (workaroundIssue1356 abi l) = map isInReg l.
Proof.
  unfold workaroundIssue1356. destruct (isMSVC abi); [|reflexivity].
  rewrite map_map. apply map_ext. intros a.
  destruct (isByVal a); [|reflexivity].
  unfold isInReg. simpl. apply hasAttribute_remove_ne. discriminate.
Qed.

(** C7. [rewriteFunctionType] marks an argument for a register only under
    extern(D): for any other function type the implicit arguments stay as
    they were and no explicit argument gains [InReg].  Under extern(D) the
    first of [this], context and sret pointer that exists is marked (the sret
    pointer losing [StructRet]), and then no explicit argument is; with none
    of the three, a trailing argument passed by value
    gains [InReg] exactly when its type is not floating point and its size is
    1, 2 or 4 bytes (so never a 3-byte struct), a struct or static array of
    such a size being first rewritten as the integer of its size, with its
    by-value passing undone. *)
Theorem rewriteFunctionType_InReg (abi : X86TargetABI) (fty : IrFuncTy) :
  let fty' := rewriteFunctionType triple abi fty in
  (isExternD (fty_type fty) = false ->
   arg_this fty' = arg_this fty /\ arg_nest fty' = arg_nest fty
   /\ arg_sret fty' = arg_sret fty
   /\ (Forall (fun a => isInReg a = false) (args fty) ->
       Forall (fun a => isInReg a = false) (args fty')))
  /\ (isExternD (fty_type fty) = true ->
      match arg_this fty, arg_nest fty, arg_sret fty with
      | Some this, _, _ =>
          arg_this fty' = Some (with_attrs this (addAttribute InReg))
          /\ arg_nest fty' = arg_nest fty /\ arg_sret fty' = arg_sret fty
      | None, Some nest, _ =>
          arg_nest fty' = Some (with_attrs nest (addAttribute InReg))
          /\ arg_sret fty' = arg_sret fty
      | None, None, Some sret =>
          exists sret', arg_sret fty' = Some sret' /\ isInReg sret' = true
                        /\ hasAttribute StructRet (attrs sret') = false
      | None, None, None => True
      end)
  /\ (isExternD (fty_type fty) = true ->
      is_Some (arg_this fty) \/ is_Some (arg_nest fty) \/ is_Some (arg_sret fty) ->
      Forall (fun a => isInReg a = false) (args fty) ->
      Forall (fun a => isInReg a = false) (args fty'))
  /\ (forall (front : list IrFuncTyArg) (last : IrFuncTyArg),
         isExternD (fty_type fty) = true ->
         arg_this fty = None -> arg_nest fty = None -> arg_sret fty = None ->
         args fty = front ++ [last] ->
         passed_by_value last ->
         let lastTy := toBasetype (arg_type last) in
         let sz := size triple lastTy in
         let fits := negb (isfloating lastTy)
                     && (bool_decide (sz = 1) || bool_decide (sz = 2)
                         || bool_decide (sz = 4)) in
         exists front' last',
           args fty' = front' ++ [last'] /\ length front' = length front
           /\ arg_type last' = arg_type last
           /\ isInReg last' = fits || isInReg last
           /\ (fits = true -> ty lastTy = Tstruct \/ ty lastTy = Tsarray ->
               rewrite last' = Some integerRewrite
               /\ ltype last' = LLInt (8 * size triple (arg_type last))
               /\ byref last' = false /\ attrs last' = [InReg])
           /\ (sz = 3 -> isInReg last' = isInReg last)).
Proof.
  intros fty'. subst fty'.
  assert (forall l : list IrFuncTyArg,
             Forall (fun a => isInReg a = false) l ->
             Forall (fun a => isInReg a = false)
               (workaroundIssue1356 abi
                  (if negb (isMSVC abi && bool_decide (linkage (fty_type fty) = LINKcpp))
                   then map (fun arg =>
                               if negb (byref arg) && negb (isPOD (arg_type arg) false)
                               then IndirectByvalRewrite_applyTo triple arg else arg) l
                   else l))) as Keep.
  { intros l Hin.
    set (args1 := if negb (isMSVC abi && bool_decide (linkage (fty_type fty) = LINKcpp))
                  then _ else l).
    assert (Forall (fun a => isInReg a = false) args1) as H1.
    { subst args1.
      destruct (negb (isMSVC abi && bool_decide (linkage (fty_type fty) = LINKcpp)));
        [|exact Hin].
      apply Forall_fmap. eapply Forall_impl; [exact Hin|].
      intros a Ha. simpl.
      destruct (negb (byref a) && negb (isPOD (arg_type a) false)); [reflexivity|exact Ha]. }
    rewrite Forall_forall in H1. rewrite Forall_forall. intros a Ha.
    pose proof (workaround_keeps_InReg abi args1) as Ew.
    apply list_elem_of_lookup in Ha as [i Hi].
    assert (map isInReg (workaroundIssue1356 abi args1) !! i = Some (isInReg a)) as Hm
      by (rewrite list_lookup_fmap, Hi; reflexivity).
    rewrite Ew, list_lookup_fmap in Hm.
    destruct (args1 !! i) as [a0|] eqn:E0; [|discriminate].
    simpl in Hm. injection Hm as <-. apply H1.
    apply list_elem_of_lookup. eauto. }
  split; [|split; [|split]].
  - intros Hd. unfold rewriteFunctionType. rewrite Hd. simpl.
    repeat split.
    intros Hin. specialize (Keep _ Hin).
    destruct (negb (isDarwin abi)); [exact Keep|].
    rewrite Forall_forall in Keep. rewrite Forall_forall. intros a Ha.
    apply list_elem_of_filter in Ha as [_ Ha]. auto.
  - intros Hd. unfold rewriteFunctionType. rewrite Hd.
    destruct (arg_this fty) as [this|]; [simpl; auto|].
    destruct (arg_nest fty) as [nest|]; [simpl; auto|].
    destruct (arg_sret fty) as [sret|]; [|exact I].
    simpl. eexists. split; [reflexivity|]. split.
    + unfold isInReg. simpl. apply hasAttribute_add.
    + simpl. rewrite hasAttribute_add_ne by discriminate.
      unfold hasAttribute, removeAttribute. apply bool_decide_eq_false_2.
      rewrite list_elem_of_filter. tauto.
  - intros Hd Himp Hin. specialize (Keep _ Hin).
    unfold rewriteFunctionType. rewrite Hd.
    destruct (arg_this fty) as [this|]; [exact Keep|].
    destruct (arg_nest fty) as [nest|]; [exact Keep|].
    destruct (arg_sret fty) as [sret|]; [exact Keep|].
    destruct Himp as [[x E]|[[x E]|[x E]]]; discriminate.
  - intros front last Hd Ht Hn Hs Ha (Hbv & Hrw & Hpod) lastTy sz fits.
    unfold rewriteFunctionType. rewrite Hd, Ht, Hn, Hs, Ha. simpl.
    set (nonpod := fun arg : IrFuncTyArg =>
                     if negb (byref arg) && negb (isPOD (arg_type arg) false)
                     then IndirectByvalRewrite_applyTo triple arg else arg).
    set (front1 := if negb (isMSVC abi && bool_decide (linkage (fty_type fty) = LINKcpp))
                   then map nonpod front else front).
    assert ((if negb (isMSVC abi && bool_decide (linkage (fty_type fty) = LINKcpp))
             then map nonpod (front ++ [last]) else front ++ [last])
            = front1 ++ [last]) as ->.
    { subst front1.
      destruct (negb (isMSVC abi && bool_decide (linkage (fty_type fty) = LINKcpp)));
        [|reflexivity].
      rewrite map_app. simpl. f_equal. f_equal.
      unfold nonpod. rewrite Hpod. rewrite andb_false_r. reflexivity. }
    rewrite map_last_snoc.
    set (l1 := passLastInEAX triple last).
    assert (arg_type l1 = arg_type last
            /\ isInReg l1 = fits || isInReg last
            /\ (fits = true -> ty lastTy = Tstruct \/ ty lastTy = Tsarray ->
                rewrite l1 = Some integerRewrite
                /\ ltype l1 = LLInt (8 * size triple (arg_type last))
                /\ byref l1 = false /\ attrs l1 = [InReg])
            /\ (isByVal l1 = true -> isByVal last = true)) as (P1 & P2 & P3 & P4).
    { subst l1. unfold passLastInEAX.
      rewrite (bool_decide_eq_false_2 _ Hrw). simpl.
      assert (byref last && negb (isByVal last) = false) as ->.
      { destruct Hbv as [-> | ->]; [reflexivity|apply andb_false_r]. }
      fold lastTy. fold sz. fold fits.
      destruct fits eqn:Ef.
      - destruct (bool_decide (ty lastTy = Tstruct) || bool_decide (ty lastTy = Tsarray))
          eqn:Eagg.
        + simpl. repeat split; auto. discriminate.
        + simpl. split; [reflexivity|]. split.
          { unfold isInReg. simpl. apply hasAttribute_add. }
          split.
          { intros _ [E|E]; apply orb_false_split in Eagg as [E1 E2];
              [apply bool_decide_eq_false_1 in E1|apply bool_decide_eq_false_1 in E2];
              contradiction. }
          unfold isByVal. simpl. rewrite hasAttribute_add_ne by discriminate. auto.
      - split; [reflexivity|]. split; [reflexivity|]. split; [discriminate|auto]. }
    set (out := workaroundIssue1356 abi (front1 ++ [l1])).
    assert (exists front' last', out = front' ++ [last']
              /\ length front' = length front
              /\ arg_type last' = arg_type l1 /\ isInReg last' = isInReg l1
              /\ (isByVal l1 = false -> last' = l1))
      as (front' & last' & Eo & El & Q1 & Q2 & Q3).
    { subst out. unfold workaroundIssue1356.
      assert (length front1 = length front) as L1.
      { subst front1.
        destruct (negb (isMSVC abi && bool_decide (linkage (fty_type fty) = LINKcpp)));
          [apply length_map|reflexivity]. }
      destruct (isMSVC abi).
      - rewrite map_app. simpl. eexists _, _. split; [reflexivity|].
        rewrite length_map. split; [exact L1|].
        destruct (isByVal l1); simpl.
        + split; [reflexivity|]. split; [|discriminate].
          unfold isInReg. simpl. apply hasAttribute_remove_ne. discriminate.
        + repeat split.
      - eexists _, _. split; [reflexivity|]. repeat split. exact L1. }
    exists front', last'. fold out. rewrite Eo.
    split; [reflexivity|]. split; [exact El|].
    split; [congruence|]. split; [congruence|]. split.
    + intros Hf Hagg. destruct (P3 Hf Hagg) as (R1 & R2 & R3 & R4).
      assert (isByVal l1 = false) as Hnb by (unfold isByVal; rewrite R4; reflexivity).
      rewrite (Q3 Hnb). auto.
    + intros H3. rewrite Q2, P2.
      assert (fits = false) as ->; [|reflexivity].
      subst fits. rewrite H3. simpl. apply andb_false_r.
Qed.

End LoweringProperties.

(** ** More on the casts *)

Section CastProperties.

Context (triple : Triple) `{Collaborators}.

Lemma scalar_integral_DtoType (t : DType) :
  isintegral (toBasetype t) = true -> ty (toBasetype t) <> Tvector ->
  DtoType triple t
  = (if bool_decide (ty (toBasetype t) = Tbool) then LLInt 1
     else LLInt (8 * size triple (toBasetype t)))
  /\ 1 <= size triple (toBasetype t) <= 16.
Proof.
  intros Hi Hv. destruct (integral_scalar_basic t Hi Hv) as (k & Ek & Hk).
  rewrite <- DtoType_toBasetype, Ek. rewrite (basic_integral_DtoType triple k Hk).
  split; [|exact (basic_integral_size triple k Hk)].
  simpl. destruct k; simpl in *; try discriminate; reflexivity.
Qed.

(** The narrowing branch of [DtoCastInt]: one truncation. *)
Lemma DtoCastInt_narrowing_step (val : DValue) (_to : DType) (s s1 : IRState)
    (rval : LLValue) :
  let from := toBasetype (dv_type val) in
  let to := toBasetype _to in
  let tolltype := DtoType triple _to in
  isintegral from = true -> ty from <> Tvector ->
  isintegral to = true -> ty to <> Tvector -> ty to <> Tbool ->
  size triple to < size triple from ->
  DtoRVal triple val s = (Ret rval, s1) ->
  getType rval = DtoType triple (dv_type val) ->
  DtoCastInt triple val _to s
  = (Ret (DImValue _to (Reg (length (scopebb s1)) tolltype)),
     push_instr (TruncInst rval tolltype) s1)
  /\ tolltype = LLInt (8 * size triple to)
  /\ forall x : Z,
      eval_value (scopebb s1) rval = Some x ->
      eval_value (scopebb (push_instr (TruncInst rval tolltype) s1))
                 (Reg (length (scopebb s1)) tolltype)
      = Some (x mod 2 ^ (8 * size triple to)).
Proof.
  intros from to tolltype Hf Hvf Ht Hvt Hnb Hsz Hr Hty.
  destruct (scalar_integral_DtoType (dv_type val) Hf Hvf) as [Ef Sf].
  destruct (scalar_integral_DtoType _to Ht Hvt) as [Et St].
  fold from in Ef, Sf. fold to in Et, St.
  rewrite (bool_decide_eq_false_2 _ Hnb) in Et.
  assert (ty from <> Tbool) as Hfb.
  { intros E. destruct (integral_scalar_basic _ Hf Hvf) as (k & Ek & _).
    fold from in Ek. rewrite Ek in E, Hsz. apply basic_ty_bool in E. subst k.
    simpl in Hsz. lia. }
  rewrite (bool_decide_eq_false_2 _ Hfb) in Ef.
  assert (tolltype = LLInt (8 * size triple to)) as Etl by exact Et.
  split; [|split; [exact Etl|]].
  - unfold DtoCastInt, bind, assert. fold from. rewrite Hf, Hr.
    rewrite (bool_decide_eq_false_2 (getType rval = DtoType triple _to))
      by (rewrite Hty, Ef, Et; intros [=]; lia).
    fold to. rewrite (bool_decide_eq_false_2 _ Hnb), Ht.
    rewrite (bool_decide_eq_false_2 (size triple from < size triple to)) by lia.
    rewrite (bool_decide_eq_false_2 _ Hfb). simpl.
    rewrite (bool_decide_eq_true_2 (size triple from > size triple to)) by lia.
    reflexivity.
  - intros x Hx. unfold push_instr. cbn [scopebb]. rewrite eval_value_last.
    cbn [eval_instr]. fold (eval_value (scopebb s1) rval). rewrite Hx.
    simpl. unfold trunc_val. rewrite Etl. reflexivity.
Qed.

(** The branch of [DtoCastInt] to [bool]: a comparison against zero, which
    the IR builder inserts for a source that is no constant. *)
Lemma DtoCastInt_to_bool_step (val : DValue) (_to : DType) (s s1 : IRState)
    (rval : LLValue) :
  let from := toBasetype (dv_type val) in
  isintegral from = true -> ty from <> Tvector -> ty from <> Tbool ->
  ty (toBasetype _to) = Tbool ->
  DtoRVal triple val s = (Ret rval, s1) ->
  getType rval = DtoType triple (dv_type val) ->
  DtoCastInt triple val _to s
  = (let (o, s') := CreateICmpNE rval (ConstantInt (getType rval) 0) s1 in
     match o with
     | Ret r => (Ret (DImValue _to r), s')
     | Fatal => (Fatal, s')
     | Abort => (Abort, s')
     end)
  /\ DtoType triple _to = LLInt 1.
Proof.
  intros from Hf Hvf Hfb Htb Hr Hty.
  destruct (scalar_integral_DtoType (dv_type val) Hf Hvf) as [Ef Sf].
  fold from in Ef, Sf. rewrite (bool_decide_eq_false_2 _ Hfb) in Ef.
  assert (DtoType triple _to = LLInt 1) as Et.
  { rewrite <- DtoType_toBasetype.
    pose proof (toBasetype_not_enum _to) as NE.
    destruct (toBasetype _to) as [k| | | | | | | | | | | | | |]; simpl in Htb;
      try discriminate.
    apply basic_ty_bool in Htb. subst k. reflexivity. }
  split; [|exact Et].
  unfold DtoCastInt, bind, assert. fold from. rewrite Hf, Hr.
  rewrite (bool_decide_eq_false_2 (getType rval = DtoType triple _to))
    by (rewrite Hty, Ef, Et; intros [=]; lia).
  rewrite (bool_decide_eq_true_2 _ Htb). reflexivity.
Qed.

(** What the builder makes of a comparison against zero. *)
Lemma CreateICmpNE_inserts (a b : LLValue) (s : IRState) :
  isConstant a = false ->
  CreateICmpNE a b s = (Ret (Reg (length (scopebb s)) (LLInt 1)), push_instr (ICmpNE a b) s).
Proof. intros Ha. unfold CreateICmpNE. rewrite Ha. reflexivity. Qed.

Lemma eval_constant_operand (regs : list (option Z)) (v : LLValue) :
  isConstant v = true -> eval_operand regs v = eval_constant v.
Proof. destruct v; try reflexivity. discriminate. Qed.

Lemma CreateICmpNE_folds (a : LLValue) (t : LLType) (s : IRState) (regs : list (option Z))
    (x : Z) :
  isConstant a = true -> eval_operand regs a = Some x ->
  exists r,
    CreateICmpNE a (ConstantInt t 0) s = (Ret r, s)
    /\ isConstant r = true /\ getType r = LLInt 1
    /\ forall regs', eval_operand regs' r = Some (if bool_decide (x = 0) then 0 else 1).
Proof.
  intros Hc Hx. unfold CreateICmpNE. rewrite Hc. cbn [andb isConstant].
  eexists. split; [reflexivity|].
  rewrite (eval_constant_operand regs a Hc) in Hx.
  destruct a; try discriminate; cbn [ConstantExpr_getICmpNE];
    (split; [reflexivity|]); (split; [reflexivity|]); intros regs';
    cbn [eval_operand eval_constant] in *; try rewrite Hx; try reflexivity;
    injection Hx as <-; reflexivity.
Qed.

(** X3. Casting a scalar integer to a strictly smaller integer type other
    than [bool] appends exactly one truncation, and the result is the source
    value modulo two to the width of the target. *)
Theorem DtoCastInt_narrows (val : DValue) (_to : DType) (s s1 : IRState)
    (rval : LLValue) (x : Z) :
  let from := toBasetype (dv_type val) in
  let to := toBasetype _to in
  isintegral from = true -> ty from <> Tvector ->
  isintegral to = true -> ty to <> Tvector -> ty to <> Tbool ->
  size triple to < size triple from ->
  DtoRVal triple val s = (Ret rval, s1) ->
  getType rval = DtoType triple (dv_type val) ->
  eval_value (scopebb s1) rval = Some x ->
  exists r s2,
    DtoCastInt triple val _to s = (Ret (DImValue _to r), s2)
    /\ scopebb s2 = scopebb s1 ++ [TruncInst rval (LLInt (8 * size triple to))]
    /\ getType r = LLInt (8 * size triple to)
    /\ eval_value (scopebb s2) r = Some (x mod 2 ^ (8 * size triple to))
    /\ 0 <= x mod 2 ^ (8 * size triple to) < 2 ^ (8 * size triple to).
Proof.
  intros from to Hf Hvf Ht Hvt Hnb Hsz Hr Hty Hx.
  destruct (DtoCastInt_narrowing_step val _to s s1 rval Hf Hvf Ht Hvt Hnb Hsz Hr Hty)
    as (E & Etl & V).
  eexists _, _. split; [exact E|].
  split; [unfold push_instr; simpl; rewrite Etl; reflexivity|].
  split; [exact Etl|]. split; [exact (V x Hx)|].
  apply Z.mod_pos_bound.
  destruct (scalar_integral_DtoType _to Ht Hvt) as [_ St]. fold to in St.
  apply Z.pow_pos_nonneg; lia.
Qed.

(** X4. Casting a scalar integer other than [bool] to [bool] compares the
    value against the zero of the source type, through the IR builder: for a
    source that is no constant exactly one comparison is appended; a constant
    source is folded, nothing is appended and the result is a constant.  Either
    way the result is 1 for a non-zero source value and 0 for zero.  No bit is
    cut off: 256 as a 16-bit value gives true. *)
Theorem DtoCastInt_to_bool (val : DValue) (_to : DType) (s s1 : IRState)
    (rval : LLValue) (x : Z) :
  let from := toBasetype (dv_type val) in
  isintegral from = true -> ty from <> Tvector -> ty from <> Tbool ->
  ty (toBasetype _to) = Tbool ->
  DtoRVal triple val s = (Ret rval, s1) ->
  getType rval = DtoType triple (dv_type val) ->
  eval_value (scopebb s1) rval = Some x ->
  exists r s2,
    DtoCastInt triple val _to s = (Ret (DImValue _to r), s2)
    /\ getType r = LLInt 1
    /\ (isConstant rval = false ->
        scopebb s2 = scopebb s1 ++ [ICmpNE rval (ConstantInt (getType rval) 0)]
        /\ r = Reg (length (scopebb s1)) (LLInt 1))
    /\ (isConstant rval = true -> s2 = s1 /\ isConstant r = true)
    /\ (x <> 0 -> eval_value (scopebb s2) r = Some 1)
    /\ (x = 0 -> eval_value (scopebb s2) r = Some 0).
Proof.
  intros from Hf Hvf Hfb Htb Hr Hty Hx.
  destruct (DtoCastInt_to_bool_step val _to s s1 rval Hf Hvf Hfb Htb Hr Hty)
    as (E & _).
  assert (forall y : option Z, (x <> 0 -> y = Some (if bool_decide (x = 0) then 0 else 1) -> y = Some 1)
                        /\ (x = 0 -> y = Some (if bool_decide (x = 0) then 0 else 1)
                            -> y = Some 0)) as Hcase.
  { intros y. split; intros Hz ->.
    - rewrite (bool_decide_eq_false_2 _ Hz). reflexivity.
    - rewrite (bool_decide_eq_true_2 _ Hz). reflexivity. }
  destruct (isConstant rval) eqn:Hc.
  - destruct (CreateICmpNE_folds rval (getType rval) s1 (eval_block (scopebb s1)) x Hc Hx)
      as (r & Er & Cr & Tr & Vr).
    rewrite Er in E. exists r, s1. split; [exact E|]. split; [exact Tr|].
    split; [discriminate|]. split; [auto|].
    split; intros Hz; apply (Hcase _); auto; apply Vr.
  - rewrite (CreateICmpNE_inserts _ _ _ Hc) in E.
    eexists _, _. split; [exact E|]. split; [reflexivity|].
    split; [intros _; split; reflexivity|]. split; [discriminate|].
    assert (eval_value (scopebb (push_instr (ICmpNE rval (ConstantInt (getType rval) 0)) s1))
                       (Reg (length (scopebb s1)) (LLInt 1))
            = Some (if bool_decide (x = 0) then 0 else 1)) as V.
    { unfold push_instr. cbn [scopebb]. rewrite eval_value_last.
      cbn [eval_instr]. fold (eval_value (scopebb s1) rval). rewrite Hx.
      reflexivity. }
    split; intros Hz; apply (Hcase _); auto.
Qed.

(** X2. A cast between two scalar integer types of one size, neither being
    [bool] (a change of signedness, or between a character and an integer
    type), is a repaint: the register value is handed on under the new type
    and no instruction is appended. *)
Theorem DtoCastInt_same_size (val : DValue) (_to : DType) (s s1 : IRState)
    (rval : LLValue) :
  let from := toBasetype (dv_type val) in
  let to := toBasetype _to in
  isintegral from = true -> ty from <> Tvector -> ty from <> Tbool ->
  isintegral to = true -> ty to <> Tvector -> ty to <> Tbool ->
  size triple from = size triple to ->
  DtoRVal triple val s = (Ret rval, s1) ->
  getType rval = DtoType triple (dv_type val) ->
  DtoCastInt triple val _to s = (Ret (DImValue _to rval), s1)
  /\ (from <> to -> DtoCast triple val _to s = (Ret (DImValue _to rval), s1)).
Proof.
  intros from to Hf Hvf Hfb Ht Hvt Htb Hsz Hr Hty.
  destruct (scalar_integral_DtoType (dv_type val) Hf Hvf) as [Ef _].
  destruct (scalar_integral_DtoType _to Ht Hvt) as [Et _].
  fold from in Ef. fold to in Et.
  rewrite (bool_decide_eq_false_2 _ Hfb) in Ef.
  rewrite (bool_decide_eq_false_2 _ Htb) in Et.
  assert (DtoCastInt triple val _to s = (Ret (DImValue _to rval), s1)) as E.
  { unfold DtoCastInt, bind, assert. fold from. rewrite Hf, Hr.
    rewrite bool_decide_eq_true_2 by (rewrite Hty, Ef, Et, Hsz; reflexivity).
    reflexivity. }
  split; [exact E|].
  intros Hne. rewrite (DtoCast_integer_dispatch triple val _to s Hf Hvf Hne).
  exact E.
Qed.

Lemma sext_then_trunc (wf wt x : Z) :
  0 < wf -> wf <= wt -> 0 <= x < 2 ^ wf ->
  sext_val wf wt x mod 2 ^ wf = x.
Proof.
  intros Hwf Hle Hx. unfold sext_val.
  destruct (Z.testbit x (wf - 1)).
  - replace (x + 2 ^ wt - 2 ^ wf)
      with (x + (2 ^ (wt - wf) - 1) * 2 ^ wf).
    + rewrite Z.mod_add by lia. apply Z.mod_small. exact Hx.
    + replace wt with ((wt - wf) + wf) at 2 by lia.
      rewrite Z.pow_add_r by lia. ring.
  - apply Z.mod_small. exact Hx.
Qed.

(** X1. Round trip through a wider type.  A scalar integer value of type [T]
    cast to a strictly wider integer type [U] and the result cast back to
    [T] is the value it was: the two casts append an extension and then a
    truncation (for [T] = [bool]: a comparison against zero), and the final
    register holds the original bit pattern. *)
Theorem DtoCastInt_round_trip (T U : DType) (v : LLValue) (s : IRState) (x : Z) :
  let bT := toBasetype T in
  let bU := toBasetype U in
  isintegral bT = true -> ty bT <> Tvector ->
  isintegral bU = true -> ty bU <> Tvector ->
  size triple bT < size triple bU ->
  getType v = DtoType triple T ->
  eval_value (scopebb s) v = Some x ->
  0 <= x < 2 ^ bitwidth (DtoType triple T) ->
  exists w s1 r s2,
    DtoCastInt triple (DImValue T v) U s = (Ret (DImValue U w), s1)
    /\ DtoCastInt triple (DImValue U w) T s1 = (Ret (DImValue T r), s2)
    /\ length (scopebb s2) = S (S (length (scopebb s)))
    /\ eval_value (scopebb s2) r = Some x.
Proof.
  intros bT bU HT HvT HU HvU Hsz Hty Hx Hrange.
  destruct (scalar_integral_DtoType T HT HvT) as [ET ST].
  destruct (scalar_integral_DtoType U HU HvU) as [EU SU].
  fold bT in ET, ST. fold bU in EU, SU.
  assert (ty bU <> Tbool) as HUb.
  { intros E. destruct (integral_scalar_basic _ HU HvU) as (k & Ek & _).
    fold bU in Ek. rewrite Ek in E, Hsz. apply basic_ty_bool in E. subst k.
    simpl in Hsz. lia. }
  rewrite (bool_decide_eq_false_2 _ HUb) in EU.
  assert (bT <> bU) as Hne by (intros E; rewrite E in Hsz; lia).
  destruct (DtoCastInt_widening_step triple (DImValue T v) U s s v HT HvT HU Hne
              (or_introl Hsz) eq_refl Hty) as [E1 V1].
  specialize (V1 x Hx). cbn [dv_type] in E1, V1. fold bT in E1, V1.
  set (s1 := push_instr (widening bT v (DtoType triple U)) s) in *.
  set (w := Reg (length (scopebb s)) (DtoType triple U)) in *.
  assert (length (scopebb s1) = S (length (scopebb s))) as L1.
  { unfold s1, push_instr. simpl. rewrite length_app. simpl. lia. }
  destruct (decide (ty bT = Tbool)) as [Hb|Hb].
  - (* back to bool *)
    destruct (DtoCastInt_to_bool_step (DImValue U w) T s1 s1 w HU HvU HUb Hb
                eq_refl eq_refl) as (E2 & _).
    rewrite (CreateICmpNE_inserts w _ s1 eq_refl) in E2.
    assert (forall y : Z,
              eval_value (scopebb s1) w = Some y ->
              eval_value (scopebb (push_instr (ICmpNE w (ConstantInt (getType w) 0)) s1))
                         (Reg (length (scopebb s1)) (LLInt 1))
              = Some (if bool_decide (y = 0) then 0 else 1)) as V2.
    { intros y Hy. unfold push_instr. cbn [scopebb]. rewrite eval_value_last.
      cbn [eval_instr]. fold (eval_value (scopebb s1) w). rewrite Hy.
      reflexivity. }
    eexists w, s1, _, _. split; [exact E1|]. split; [exact E2|]. split.
    + unfold push_instr. cbn [scopebb]. rewrite length_app, L1. simpl. lia.
    + rewrite (V2 _ V1).
      assert (bool_decide (ty bT = Tbool) = true) as Eb
        by (apply bool_decide_eq_true_2; exact Hb).
      simpl in V1 |- *.
      replace (isLLVMUnsigned bT || bool_decide (ty bT = Tbool)) with true
        by (rewrite Eb, orb_true_r; reflexivity).
      rewrite ET, Eb in Hrange. unfold zext_val.
      assert (x = 0 \/ x = 1) as [-> | ->]
        by (change (bitwidth (LLInt 1)) with 1 in Hrange;
            change (2 ^ 1) with 2 in Hrange; lia);
        reflexivity.
  - (* back to an integer *)
    rewrite (bool_decide_eq_false_2 _ Hb) in ET.
    destruct (DtoCastInt_narrowing_step (DImValue U w) T s1 s1 w HU HvU HT HvT Hb
                Hsz eq_refl eq_refl) as (E2 & Etl & V2).
    eexists w, s1, _, _. split; [exact E1|]. split; [exact E2|]. split.
    + unfold push_instr. cbn [scopebb]. rewrite length_app, L1. simpl. lia.
    + rewrite (V2 _ V1). f_equal. fold bT.
      rewrite ET in Hrange. simpl in Hrange.
      destruct (isLLVMUnsigned bT || bool_decide (ty bT = Tbool)).
      * unfold zext_val. apply Z.mod_small. exact Hrange.
      * rewrite Hty, ET, EU. simpl. apply sext_then_trunc; lia.
Qed.

(** *** Casts leave memory and the diagnostics alone *)

Lemma pure_step_refl (s : IRState) : pure_step s s.
Proof.
  split; [apply only_block_grew_refl|].
  exists []. rewrite app_nil_r. split; [reflexivity|constructor].
Qed.

Lemma pure_step_trans (s s1 s2 : IRState) :
  pure_step s s1 -> pure_step s1 s2 -> pure_step s s2.
Proof.
  intros [(D1 & E1 & G1 & GE1 & M1) (l1 & B1 & F1)]
         [(D2 & E2 & G2 & GE2 & M2) (l2 & B2 & F2)].
  split.
  - repeat split; congruence.
  - exists (l1 ++ l2). split.
    + rewrite B2, B1, app_assoc. reflexivity.
    + apply Forall_app; auto.
Qed.

Lemma pure_ret {A} (a : A) : pure_comp (ret a).
Proof. intros s a' s' [=]; subst. apply pure_step_refl. Qed.

Lemma pure_bind {A B} (m : M A) (k : A -> M B) :
  pure_comp m -> (forall a, pure_comp (k a)) -> pure_comp (bind m k).
Proof.
  intros Hm Hk s b s'. unfold bind.
  destruct (m s) as [[a| |] s1] eqn:E; try discriminate.
  intros Ek. eapply pure_step_trans; [eapply Hm; exact E|eapply Hk; exact Ek].
Qed.

Lemma pure_emit (i : Instr) (t : LLType) :
  writes_memory i = false -> pure_comp (emit i t).
Proof.
  intros Hw s a s' [=]; subst. split; [repeat split|].
  exists [i]. split; [reflexivity|]. repeat constructor. exact Hw.
Qed.

Lemma pure_assert (c : bool) : pure_comp (assert c).
Proof.
  intros s a s'. unfold assert. destruct c; intros [=]; subst.
  apply pure_step_refl.
Qed.

Lemma pure_unreachable {A} : pure_comp (llvm_unreachable (A := A)).
Proof. intros s a s'. discriminate. Qed.

Lemma pure_error_fatal {A} (d : Diagnostic) :
  pure_comp (bind (error d) (fun _ => fatal (A := A))).
Proof. intros s a s'. discriminate. Qed.

Lemma pure_DtoRVal (val : DValue) : pure_comp (DtoRVal triple val).
Proof.
  destruct val; simpl; try apply pure_ret.
  - apply pure_emit. reflexivity.
  - apply pure_bind; [|intros p]; apply pure_emit; reflexivity.
Qed.

Lemma pure_DtoLVal (val : DValue) : pure_comp (DtoLVal val).
Proof.
  destruct val; simpl; try apply pure_unreachable.
  - apply pure_ret.
  - apply pure_emit. reflexivity.
Qed.

Lemma pure_DtoBitCast (v : LLValue) (t : LLType) : pure_comp (DtoBitCast v t).
Proof.
  unfold DtoBitCast. case_bool_decide; [apply pure_ret|].
  apply pure_emit. reflexivity.
Qed.

Lemma pure_CreateICmpNE (a b : LLValue) : pure_comp (CreateICmpNE a b).
Proof.
  unfold CreateICmpNE. destruct (isConstant a && isConstant b); [apply pure_ret|].
  apply pure_emit. reflexivity.
Qed.

Lemma pure_CreateFCmpUNE (a b : LLValue) : pure_comp (CreateFCmpUNE a b).
Proof.
  unfold CreateFCmpUNE. destruct (isConstant a && isConstant b); [apply pure_ret|].
  apply pure_emit. reflexivity.
Qed.

Lemma pure_CreateIntToPtr (v : LLValue) (t : LLType) : pure_comp (CreateIntToPtr v t).
Proof.
  unfold CreateIntToPtr. case_bool_decide; [apply pure_ret|].
  destruct (isConstant v); [apply pure_ret|]. apply pure_emit. reflexivity.
Qed.

Ltac pure_tac :=
  repeat first
    [ apply pure_ret
    | apply pure_CreateICmpNE
    | apply pure_CreateFCmpUNE
    | apply pure_CreateIntToPtr
    | apply pure_error_fatal
    | apply pure_unreachable
    | apply pure_assert
    | apply pure_DtoRVal
    | apply pure_DtoLVal
    | apply pure_DtoBitCast
    | (apply pure_emit; reflexivity)
    | (apply pure_bind; [|intros ?])
    | match goal with
      | |- pure_comp (if ?c then _ else _) => destruct c
      end ].

(** X5. A scalar cast that returns has done nothing but append instructions
    that do not write memory: [DtoCastInt], [DtoCastFloat] (both for a target
    that is not complex), [DtoCastPtr] and [DtoCastStruct] emit no store, no
    copy and no call, and leave the diagnostics, the error counters and the
    globals of the module as they were; instructions already in the block are
    kept. *)
Theorem scalar_casts_are_pure (val : DValue) (to : DType) :
  (iscomplex (toBasetype to) = false -> pure_comp (DtoCastInt triple val to))
  /\ (iscomplex (toBasetype to) = false -> pure_comp (DtoCastFloat triple val to))
  /\ pure_comp (DtoCastPtr triple val to)
  /\ pure_comp (DtoCastStruct triple val to).
Proof.
  split; [|split; [|split]].
  - intros Hc. unfold DtoCastInt. rewrite Hc. pure_tac.
  - intros Hc. unfold DtoCastFloat. rewrite Hc. pure_tac.
  - unfold DtoCastPtr. pure_tac.
  - unfold DtoCastStruct. pure_tac.
Qed.

(** X6. [DtoCastFloat] to a type other than the value's own ends the
    compilation exactly when the target is neither [bool] nor floating point
    nor an integer: between two floating-point types one of "same size",
    "wider" and "narrower" always applies, so the invalid-cast error written
    after these three is never reported. *)
Theorem DtoCastFloat_fatal_iff (val : DValue) (to : DType) (s : IRState) :
  isfloating (toBasetype (dv_type val)) = true ->
  iscomplex (toBasetype to) = false ->
  dv_type val <> to ->
  (fst (DtoCastFloat triple val to s) = Fatal
   <-> ty (toBasetype to) <> Tbool /\ isfloating (toBasetype to) = false
       /\ isintegral (toBasetype to) = false)
  /\ (fst (DtoCastFloat triple val to s) = Fatal ->
      DtoCastFloat triple val to s = (Fatal, report (InvalidCast (dv_type val) to) s)).
Proof.
  intros Hf Hc Hne.
  destruct (DtoRVal_returns triple val s) as (r & s1 & Hr & _).
  unfold DtoCastFloat, bind, assert.
  rewrite (bool_decide_eq_false_2 _ Hne), Hf, Hc.
  destruct (bool_decide (ty (toBasetype to) = Tbool)) eqn:Eb.
  { rewrite Hr. unfold CreateFCmpUNE.
    destruct (isConstant r && isConstant (ConstantNull (getType r))); simpl;
      apply bool_decide_eq_true_1 in Eb;
      (split; [split|]; [discriminate|intros (N & _); contradiction|discriminate]). }
  apply bool_decide_eq_false_1 in Eb.
  destruct (isfloating (toBasetype to)) eqn:Efl.
  { repeat case_bool_decide; rewrite ?Hr; simpl; try lia;
      try destruct (bool_decide (getType r = DtoType triple to)); simpl;
      (split; [split; [discriminate|intros (_ & N & _); discriminate]|discriminate]). }
  destruct (isintegral (toBasetype to)) eqn:Ei.
  { destruct (isunsigned (toBasetype to)); rewrite Hr; simpl;
      (split; [split|]; [discriminate|intros (_ & _ & N); discriminate|discriminate]). }
  simpl. split; [split|]; auto.
Qed.

End CastProperties.

(** ** More on the globals of the module *)

Section GlobalProperties.

Context (triple : Triple).

(** X7. Declaring a global twice.  Once [declareGlobal] has created a global
    under a fresh name, the same request (whatever its import flag) gives
    that very global back and leaves the state as it is, while a request of
    another type or constant-ness for that name ends the compilation.  The
    option value is one of the four TLS models. *)
Theorem declareGlobal_twice (clThreadModel : ThreadLocalMode) (type type' : LLType)
    (mangledName : string) (isConstant isConstant' isThreadLocal : bool)
    (useDLLImport useDLLImport' : bool) (s s1 : IRState) (gvar : GlobalVariable) :
  clThreadModel <> NotThreadLocal ->
  module_globals s !! mangledName = None ->
  declareGlobal triple clThreadModel type mangledName isConstant isThreadLocal
                useDLLImport s = (Ret gvar, s1) ->
  declareGlobal triple clThreadModel type mangledName isConstant isThreadLocal
                useDLLImport' s1 = (Ret gvar, s1)
  /\ (type' <> type \/ isConstant' <> isConstant ->
      fst (declareGlobal triple clThreadModel type' mangledName isConstant'
                         isThreadLocal useDLLImport' s1) = Fatal).
Proof.
  intros Hcl Hnew Hfirst.
  set (tl := effective_isThreadLocal triple isThreadLocal).
  assert (module_globals s1 !! mangledName = Some gvar
          /\ gv_type gvar = type /\ gv_isConstant gvar = isConstant
          /\ gv_isThreadLocal gvar = tl) as (Hl & Hty & Hco & Htl).
  { unfold declareGlobal, bind, getGlobalVariable in Hfirst. rewrite Hnew in Hfirst.
    fold (effective_isThreadLocal triple isThreadLocal) in Hfirst. fold tl in Hfirst.
    unfold newGlobalVariable in Hfirst.
    assert (negb (bool_decide
              ((if tl then if bool_decide (getArch triple = ppc)
                           then LocalExecTLSModel else clThreadModel
                else NotThreadLocal) = NotThreadLocal)) = tl) as Etl.
    { destruct tl; [|reflexivity].
      case_bool_decide; rewrite bool_decide_eq_false_2; try reflexivity;
        try discriminate; assumption. }
    destruct (useDLLImport && isOSWindows triple); simpl in Hfirst;
      injection Hfirst as <- <-; simpl;
      (split; [apply lookup_insert_eq|]); unfold gv_isThreadLocal; simpl; auto. }
  split.
  - unfold declareGlobal, bind, getGlobalVariable. rewrite Hl.
    fold (effective_isThreadLocal triple isThreadLocal). fold tl.
    rewrite Hty, Hco, Htl.
    rewrite bool_decide_eq_true_2 by reflexivity.
    rewrite !eqb_reflx. reflexivity.
  - intros Hd.
    unfold declareGlobal, bind, getGlobalVariable. rewrite Hl.
    fold (effective_isThreadLocal triple isThreadLocal). fold tl.
    rewrite Hty, Hco.
    assert (negb (bool_decide (type = type')) || negb (eqb isConstant isConstant')
            = true) as Em.
    { destruct Hd as [Hd|Hd].
      - rewrite bool_decide_eq_false_2 by congruence. reflexivity.
      - assert (eqb isConstant isConstant' = false) as ->
          by (apply eqb_false_iff; congruence).
        apply orb_true_r. }
    rewrite Em. reflexivity.
Qed.

(** X8. [declareGlobal] never disturbs what is in the module: whatever the
    outcome, the globals under other names are untouched, a global already
    present under the requested name is neither replaced nor altered, and the
    block is left alone. *)
Theorem declareGlobal_frame (clThreadModel : ThreadLocalMode) (type : LLType)
    (mangledName : string) (isConstant isThreadLocal useDLLImport : bool)
    (s s' : IRState) (o : Outcome GlobalVariable) :
  declareGlobal triple clThreadModel type mangledName isConstant isThreadLocal
                useDLLImport s = (o, s') ->
  (forall other : string,
      other <> mangledName -> module_globals s' !! other = module_globals s !! other)
  /\ (is_Some (module_globals s !! mangledName) ->
      module_globals s' = module_globals s)
  /\ (forall g, o = Ret g -> module_globals s' !! mangledName = Some g)
  /\ scopebb s' = scopebb s.
Proof.
  unfold declareGlobal, bind, getGlobalVariable.
  destruct (module_globals s !! mangledName) as [existing|] eqn:El.
  - match goal with
    | |- (if ?c then _ else _) _ = _ -> _ => destruct c
    end; simpl; intros [=]; subst.
    + assert (forall d t, module_globals (note d t) = module_globals t
                          /\ scopebb (note d t) = scopebb t) as Hnote
        by (intros d t; unfold note; destruct (gag t); simpl; auto).
      assert (forall d t, module_globals (report d t) = module_globals t
                          /\ scopebb (report d t) = scopebb t) as Hrep
        by (intros d t; unfold report; destruct (gag t); simpl; auto).
      rewrite !(proj1 (Hnote _ _)), !(proj2 (Hnote _ _)).
      rewrite (proj1 (Hrep _ _)), (proj2 (Hrep _ _)).
      repeat split; auto. intros g. discriminate.
    + repeat split; auto. intros g [=]; subst. exact El.
  - unfold newGlobalVariable.
    destruct (useDLLImport && isOSWindows triple); simpl; intros [=]; subst; simpl.
    + repeat split.
      * intros other Hne. rewrite !lookup_insert_ne by congruence. reflexivity.
      * intros [x Hx]. discriminate.
      * intros g [=]; subst. apply lookup_insert_eq.
    + repeat split.
      * intros other Hne. rewrite lookup_insert_ne by congruence. reflexivity.
      * intros [x Hx]. discriminate.
      * intros g [=]; subst. apply lookup_insert_eq.
Qed.

End GlobalProperties.

(** ** More on constant folding *)

Section FoldProperties.

Context (triple : Triple) `{Collaborators}.

(** X11. An integer literal of a scalar integer type always folds: no error,
    no change of state, and the constant is the 64-bit pattern of the literal
    cut to the width of the type, so it always fits; for the 128-bit types
    the pattern is sign- or zero-extended instead. *)
Theorem IntegerExp_folds (type : DType) (value : Z) (s : IRState) :
  isintegral (toBasetype type) = true -> ty (toBasetype type) <> Tvector ->
  exists n,
    process triple (IntegerExp type value) s
    = (Ret (Some (ConstantInt (DtoType triple type) n)), s)
    /\ 0 <= n < 2 ^ bitwidth (DtoType triple type)
    /\ (bitwidth (DtoType triple type) <= 64 ->
        n = value mod 2 ^ bitwidth (DtoType triple type))
    /\ toConstElem triple (IntegerExp type value) s
       = (Ret (Some (ConstantInt (DtoType triple type) n)), s).
Proof.
  intros Hi Hv.
  destruct (integral_scalar_basic type Hi Hv) as (k & Ek & Hk).
  assert (exists bits, DtoType triple type = LLInt bits /\ 1 <= bits <= 128)
    as (bits & Et & Hb).
  { rewrite <- DtoType_toBasetype, Ek, (basic_integral_DtoType triple k Hk).
    pose proof (basic_integral_size triple k Hk).
    case_bool_decide; eexists; (split; [reflexivity|lia]). }
  assert (0 <= value mod 2 ^ 64 < 2 ^ 64) as H64
    by (apply Z.mod_pos_bound; lia).
  assert (exists n,
             LLConstantInt_get (LLInt bits) value (negb (isunsigned type))
             = ConstantInt (LLInt bits) n
             /\ 0 <= n < 2 ^ bits
             /\ (bits <= 64 -> n = value mod 2 ^ bits)) as (n & En & Hn & Hm).
  { unfold LLConstantInt_get. case_bool_decide as Hle.
    - eexists. split; [reflexivity|]. split.
      + apply Z.mod_pos_bound. apply Z.pow_pos_nonneg; lia.
      + intros _. apply Z.mod_mod_divide.
        exists (2 ^ (64 - bits)). rewrite <- Z.pow_add_r by lia.
        f_equal. lia.
    - assert (2 ^ 64 < 2 ^ bits) by (apply Z.pow_lt_mono_r; lia).
      destruct (negb (isunsigned type) && Z.testbit (value mod 2 ^ 64) 63);
        eexists; (split; [reflexivity|]); (split; [lia|intros; lia]). }
  exists n.
  assert (process triple (IntegerExp type value) s
          = (Ret (Some (ConstantInt (DtoType triple type) n)), s)) as E.
  { cbn [process]. rewrite Et. cbn [isaPointer isaIntegerType].
    unfold bind, assert. rewrite En. reflexivity. }
  split; [exact E|]. rewrite Et. simpl. split; [exact Hn|]. split; [exact Hm|].
  unfold toConstElem, orUndef, bind. rewrite E. rewrite Et. reflexivity.
Qed.


(** *** The error state across a fold *)

Lemma disciplined_ret {A} (a : A) : gag_disciplined (ret a).
Proof. intros s o s' [=] _; subst. repeat split; lia. Qed.

Lemma disciplined_stop {A} (o : Outcome A) : gag_disciplined (fun s => (o, s)).
Proof. intros s o' s' [=] _; subst. repeat split; lia. Qed.

Lemma disciplined_bind {A B} (m : M A) (k : A -> M B) :
  gag_disciplined m -> (forall a, gag_disciplined (k a)) ->
  gag_disciplined (bind m k).
Proof.
  intros Hm Hk s o s' E Hg. unfold bind in E.
  destruct (m s) as [[a| |] s1] eqn:Em.
  - destruct (Hm _ _ _ Em Hg) as (G1 & D1 & L1 & C1).
    assert (gag s1 <> 0%nat) as Hg1 by congruence.
    destruct (Hk a _ _ _ E Hg1) as (G2 & D2 & L2 & C2).
    repeat split; try congruence; lia.
  - injection E as <- <-. exact (Hm _ _ _ Em Hg).
  - injection E as <- <-. exact (Hm _ _ _ Em Hg).
Qed.

Lemma disciplined_error (d : Diagnostic) : gag_disciplined (error d).
Proof.
  intros s o s' [=] Hg; subst. unfold report.
  destruct (gag s); [contradiction|]. simpl. repeat split; lia.
Qed.

Lemma disciplined_assert (c : bool) : gag_disciplined (assert c).
Proof.
  intros s o s' E _. unfold assert in E.
  destruct c; injection E as <- <-; repeat split; lia.
Qed.

Lemma disciplined_getGag : gag_disciplined getGag.
Proof. intros s o s' [=] _; subst. repeat split; lia. Qed.

Ltac disciplined_tac :=
  repeat first
    [ apply disciplined_ret
    | apply disciplined_error
    | apply disciplined_assert
    | apply disciplined_getGag
    | apply (disciplined_stop Fatal)
    | apply (disciplined_stop Abort)
    | assumption
    | (apply disciplined_bind; [|intros ?])
    | match goal with
      | |- gag_disciplined (if ?c then _ else _) => destruct c
      | |- gag_disciplined (match ?c with Some _ => _ | None => _ end) =>
          destruct c
      end ].

Lemma disciplined_fatalError : gag_disciplined fatalError.
Proof. unfold fatalError, fatal. disciplined_tac. Qed.

Lemma disciplined_visit_Expression : gag_disciplined visit_Expression.
Proof.
  unfold visit_Expression. disciplined_tac; try apply disciplined_fatalError.
Qed.

Lemma disciplined_orUndef (t : DType) (m : M (option LLValue)) :
  gag_disciplined m -> gag_disciplined (orUndef triple t m).
Proof. intros Hm. unfold orUndef. disciplined_tac. Qed.

Lemma disciplined_DtoConstSymbolAddress (decl : Declaration) :
  gag_disciplined (DtoConstSymbolAddress decl).
Proof.
  unfold DtoConstSymbolAddress, fatal, llvm_unreachable.
  destruct (needThis decl); [disciplined_tac|].
  destruct (decl_kind decl); disciplined_tac.
Qed.

Lemma process_disciplined (e : Expression) :
  visits_disciplined e -> gag_disciplined (process triple e).
Proof.
  induction e as [t var|t v|t|t e1 IH1 e2 _|t e1 IH1 e2 _|t to e1 IH1|t var off
                  |t ifs visit|op t visit|op t|t fd]; intros Hv.
  - cbn [process]. simpl in Hv.
    destruct (decl_kind var) as [st di|ti|vd|callee|]; disciplined_tac.
  - cbn [process]. disciplined_tac.
  - cbn [process]. disciplined_tac.
  - cbn [process]. simpl in Hv. specialize (IH1 Hv).
    destruct (bool_decide (ty (toBasetype (exp_type e1)) = Tpointer)
              && isintegral (exp_type e2)); [|apply disciplined_visit_Expression].
    apply disciplined_bind; [apply disciplined_orUndef; exact IH1|intros c].
    unfold nonnull, llvm_unreachable. disciplined_tac.
  - cbn [process]. simpl in Hv. specialize (IH1 Hv).
    destruct (bool_decide (ty (toBasetype (exp_type e1)) = Tpointer)
              && isintegral (exp_type e2)); [|apply disciplined_visit_Expression].
    apply disciplined_bind; [apply disciplined_orUndef; exact IH1|intros c].
    unfold nonnull, llvm_unreachable. disciplined_tac.
  - cbn [process]. simpl in Hv. specialize (IH1 Hv).
    pose proof (disciplined_orUndef (exp_type e1) _ IH1) as IHu.
    pose proof disciplined_fatalError as Hfe.
    unfold nonnull, llvm_unreachable.
    repeat match goal with
           | |- gag_disciplined (if ?c then _ else _) => destruct c
           end;
      try solve [disciplined_tac].
    + destruct e1 as [t1 [nt [| |vd| |]]| | | | | | | | | |]; try solve [disciplined_tac];
        destruct (irValue vd); disciplined_tac.
    + destruct e1; try solve [disciplined_tac];
        destruct (toBasetype to); try solve [disciplined_tac];
        (apply disciplined_bind; [exact IHu|intros c]);
        disciplined_tac; destruct (index_of _ _); disciplined_tac.
  - cbn [process].
    apply disciplined_bind; [apply disciplined_DtoConstSymbolAddress|intros b].
    disciplined_tac.
  - exact Hv.
  - exact Hv.
  - apply disciplined_visit_Expression.
  - cbn [process]. simpl in Hv. pose proof disciplined_fatalError as Hfe.
    unfold nonnull, llvm_unreachable. disciplined_tac.
Qed.

(** X9. A speculative fold leaves the error state as it found it: when
    [tryToConstElem] returns, be it with a constant or with null, the gag
    level, the printed diagnostics and both error counters are what they
    were before the call, provided the visits that are not written out here
    count their gagged errors as [error] does. *)
Theorem tryToConstElem_restores_errors (e : Expression) (s s' : IRState)
    (r : option LLValue) :
  visits_disciplined e ->
  tryToConstElem triple e s = (Ret r, s') ->
  gag s' = gag s /\ diagnostics s' = diagnostics s
  /\ errors s' = errors s /\ gaggedErrors s' = gaggedErrors s.
Proof.
  intros Hv. unfold tryToConstElem, bind, startGagging, endGagging.
  destruct (process triple e (gagged s)) as [[ce| |] s1] eqn:Ep; try discriminate.
  destruct (process_disciplined e Hv _ _ _ Ep) as (G & D & L & C);
    [simpl; discriminate|].
  simpl in G, D, L, C.
  assert (gag (ungagged (gaggedErrors s) s1) = gag s
          /\ diagnostics (ungagged (gaggedErrors s) s1) = diagnostics s
          /\ errors (ungagged (gaggedErrors s) s1) = errors s
          /\ gaggedErrors (ungagged (gaggedErrors s) s1) = gaggedErrors s) as R.
  { unfold ungagged. simpl. rewrite G. simpl. repeat split; auto. lia. }
  destruct (negb (Nat.eqb (gaggedErrors s1) (gaggedErrors s))).
  - intros [=]; subst. exact R.
  - unfold assert. case_bool_decide; intros [=]; subst. exact R.
Qed.

End FoldProperties.

(** ** More on the x86 ABI *)

Section AbiProperties.

Context (triple : Triple) `{Collaborators}.

Lemma map_last_types (f : IrFuncTyArg -> IrFuncTyArg) (l : list IrFuncTyArg) :
  (forall a, arg_type (f a) = arg_type a) ->
  map arg_type (map_last f l) = map arg_type l.
Proof.
  intros Hf. induction l as [|x l IH]; [reflexivity|].
  destruct l as [|y l]; [simpl; rewrite Hf; reflexivity|].
  change (map_last f (x :: y :: l)) with (x :: map_last f (y :: l)).
  simpl. simpl in IH. rewrite IH. reflexivity.
Qed.

Lemma passLastInEAX_type (a : IrFuncTyArg) :
  arg_type (passLastInEAX triple a) = arg_type a.
Proof.
  unfold passLastInEAX.
  repeat match goal with
         | |- context [if ?c then _ else _] => destruct c
         end; reflexivity.
Qed.

Lemma workaround_types (abi : X86TargetABI) (l : list IrFuncTyArg) :
  map arg_type (workaroundIssue1356 abi l) = map arg_type l.
Proof.
  unfold workaroundIssue1356. destruct (isMSVC abi); [|reflexivity].
  rewrite map_map. apply map_ext. intros a. destruct (isByVal a); reflexivity.
Qed.

Lemma filter_types (P : DType -> bool) (l : list IrFuncTyArg) :
  map arg_type (filter (fun a => P (arg_type a) = false) l)
  = filter (fun t => P t = false) (map arg_type l).
Proof.
  induction l as [|a l IH]; [reflexivity|].
  rewrite filter_cons. simpl. rewrite filter_cons.
  destruct (decide (P (arg_type a) = false)); simpl; rewrite IH; reflexivity.
Qed.

(** The arguments just before the part of [rewriteFunctionType] for Darwin
    have the types the function type came with. *)
Lemma rewriteFunctionType_types (abi : X86TargetABI) (fty : IrFuncTy) :
  map arg_type (args (rewriteFunctionType triple abi fty))
  = if isExternD (fty_type fty) || negb (isDarwin abi)
    then map arg_type (args fty)
    else filter (fun t => isEmptyStruct t = false) (map arg_type (args fty)).
Proof.
  unfold rewriteFunctionType.
  set (args1 := if negb (isMSVC abi && bool_decide (linkage (fty_type fty) = LINKcpp))
                then _ else args fty).
  assert (map arg_type args1 = map arg_type (args fty)) as E1.
  { subst args1.
    destruct (negb (isMSVC abi && bool_decide (linkage (fty_type fty) = LINKcpp)));
      [|reflexivity].
    rewrite map_map. apply map_ext. intros a.
    destruct (negb (byref a) && negb (isPOD (arg_type a) false)); reflexivity. }
  destruct (isExternD (fty_type fty)) eqn:Ed; simpl.
  - destruct (arg_this fty), (arg_nest fty), (arg_sret fty); simpl;
      rewrite workaround_types; try exact E1.
    rewrite (map_last_types _ _ (passLastInEAX_type)). exact E1.
  - destruct (negb (isDarwin abi)); simpl.
    + rewrite workaround_types. exact E1.
    + rewrite (filter_types isEmptyStruct), workaround_types, E1. reflexivity.
Qed.

(** The arguments the Darwin part drops: those whose base type is a struct
    without fields. *)
Lemma isEmptyStruct_iff (t : DType) :
  isEmptyStruct t = true
  <-> exists sd, toBasetype t = TypeStruct sd /\ fields sd = [].
Proof.
  unfold isEmptyStruct. split.
  - intros He. destruct (toBasetype t); try discriminate.
    apply bool_decide_eq_true_1 in He. eauto.
  - intros (sd & -> & Hf). apply bool_decide_eq_true_2. exact Hf.
Qed.

(** X13. [rewriteFunctionType] keeps the source types of the arguments and
    their order.  It drops arguments in one case only, a function that is not
    extern(D) on Darwin, and then exactly those whose base type is a struct
    without fields: a struct with a field and every argument that is no
    struct stay, and no struct without fields is left.  Everywhere else the
    number of arguments is unchanged. *)
Theorem rewriteFunctionType_arguments (abi : X86TargetABI) (fty : IrFuncTy) :
  let fty' := rewriteFunctionType triple abi fty in
  (isExternD (fty_type fty) = true \/ isDarwin abi = false ->
   map arg_type (args fty') = map arg_type (args fty)
   /\ length (args fty') = length (args fty))
  /\ (isExternD (fty_type fty) = false -> isDarwin abi = true ->
      map arg_type (args fty')
      = filter (fun t => isEmptyStruct t = false) (map arg_type (args fty))
      /\ Forall (fun a => isEmptyStruct (arg_type a) = false) (args fty')
      /\ (length (args fty') <= length (args fty))%nat
      /\ Forall (fun a => forall sd, toBasetype (arg_type a) = TypeStruct sd ->
                                     fields sd <> []) (args fty')
      /\ (forall t, t ∈ map arg_type (args fty) ->
          (forall sd, toBasetype t = TypeStruct sd -> fields sd <> []) ->
          t ∈ map arg_type (args fty'))
      /\ (forall t sd, toBasetype t = TypeStruct sd -> fields sd = [] ->
          t ∉ map arg_type (args fty')))
  /\ (forall t : DType,
         isEmptyStruct t = true
         <-> exists sd, toBasetype t = TypeStruct sd /\ fields sd = []).
Proof.
  intros fty'. subst fty'.
  pose proof (rewriteFunctionType_types abi fty) as E.
  split; [|split; [|exact isEmptyStruct_iff]].
  - intros Hc.
    assert (isExternD (fty_type fty) || negb (isDarwin abi) = true) as Hb
      by (destruct Hc as [-> | ->]; [reflexivity|apply orb_true_r]).
    rewrite Hb in E. split; [exact E|].
    rewrite <- (length_map arg_type), E, length_map. reflexivity.
  - intros Hd Hda. rewrite Hd, Hda in E. cbn [orb negb] in E.
    assert (forall t, isEmptyStruct t = false
                      <-> (forall sd, toBasetype t = TypeStruct sd -> fields sd <> []))
      as Hne.
    { intros t. split.
      - intros Hf sd Es Hn.
        assert (isEmptyStruct t = true) as Ht by (apply isEmptyStruct_iff; eauto).
        congruence.
      - intros Hall. destruct (isEmptyStruct t) eqn:Ee; [|reflexivity].
        apply isEmptyStruct_iff in Ee as (sd & Es & Hn).
        exfalso. exact (Hall sd Es Hn). }
    assert (Forall (fun a => isEmptyStruct (arg_type a) = false)
                   (args (rewriteFunctionType triple abi fty))) as HF.
    { rewrite Forall_forall. intros a Ha.
      assert (arg_type a ∈ map arg_type (args (rewriteFunctionType triple abi fty)))
        as Hin by (apply list_elem_of_fmap; eauto).
      rewrite E in Hin. apply list_elem_of_filter in Hin as [Hp _]. exact Hp. }
    split; [exact E|]. split; [exact HF|]. split.
    { rewrite <- (length_map arg_type), E, <- (length_map arg_type (args fty)).
      apply length_filter. }
    split.
    { eapply Forall_impl; [exact HF|]. intros a Ha. apply Hne. exact Ha. }
    split.
    { intros t Hin Hall. rewrite E. apply list_elem_of_filter.
      split; [apply Hne; exact Hall|exact Hin]. }
    intros t sd Es Hn Hin. rewrite E in Hin.
    apply list_elem_of_filter in Hin as [Hp _].
    assert (isEmptyStruct t = true) as Ht by (apply isEmptyStruct_iff; eauto).
    congruence.
Qed.

(** X12. On an MSVC target no argument comes out of [rewriteFunctionType]
    with both the by-value and the alignment attribute. *)
Theorem rewriteFunctionType_msvc_alignment (abi : X86TargetABI) (fty : IrFuncTy) :
  isMSVC abi = true ->
  Forall (fun a => isByVal a = true -> hasAttribute Alignment (attrs a) = false)
         (args (rewriteFunctionType triple abi fty)).
Proof.
  intros Hm.
  assert (forall l, Forall (fun a => isByVal a = true ->
                                     hasAttribute Alignment (attrs a) = false)
                           (workaroundIssue1356 abi l)) as Hw.
  { intros l. unfold workaroundIssue1356. rewrite Hm.
    rewrite Forall_forall. intros a Ha.
    apply list_elem_of_fmap in Ha as (a0 & -> & _).
    destruct (isByVal a0) eqn:Eb.
    - intros _. simpl. unfold hasAttribute, removeAttribute.
      apply bool_decide_eq_false_2. rewrite list_elem_of_filter. tauto.
    - intros Hb. congruence. }
  unfold rewriteFunctionType. simpl.
  match goal with
  | |- Forall _ (if ?c then ?l else _) =>
      destruct c; [apply Hw|]
  end.
  rewrite Forall_forall. intros a Ha.
  apply list_elem_of_filter in Ha as [_ Ha].
  match type of Ha with
  | a ∈ workaroundIssue1356 abi ?l =>
      pose proof (Hw l) as Hl; rewrite Forall_forall in Hl; exact (Hl a Ha)
  end.
Qed.

(** X15. [callingConv]: a variadic function type always gets the C
    convention; otherwise the convention follows the linkage, stdcall for
    extern(D), default and Windows linkage, and thiscall exactly for an
    extern(C++) function that needs [this] on MSVC.  Only the system linkage
    has no convention. *)
Theorem callingConv_cases (abi : X86TargetABI) (l : LINK)
    (tf : option TypeFunctionInfo) (fdecl : option bool) :
  let variadic := match tf with
                  | Some tf => bool_decide (varargs tf = VARARGvariadic)
                  | None => false
                  end in
  (variadic = true -> callingConv abi l tf fdecl = Some CC_C)
  /\ (callingConv abi l tf fdecl = Some CC_X86_ThisCall
      <-> variadic = false /\ l = LINKcpp /\ isMSVC abi = true /\ fdecl = Some true)
  /\ (callingConv abi l tf fdecl = Some CC_X86_StdCall
      <-> variadic = false /\ (l = LINKd \/ l = LINKdefault \/ l = LINKwindows))
  /\ (callingConv abi l tf fdecl = None <-> variadic = false /\ l = LINKsystem).
Proof.
  intros variadic. unfold callingConv. fold variadic.
  destruct variadic.
  - repeat split; try discriminate; intros (N & _); discriminate.
  - split; [discriminate|].
    destruct l, (isMSVC abi), fdecl as [[|]|]; simpl;
      repeat split; try discriminate; try tauto; try congruence;
      try (intros (_ & N & _); discriminate);
      try (intros (_ & _ & N & _); discriminate);
      try (intros (_ & _ & _ & N); discriminate);
      try (intros (_ & [N|[N|N]]); discriminate);
      try (intros (_ & N); discriminate);
      auto.
Qed.

(** X14. Mangling for LLVM only ever puts a marker in front of a name: the
    result ends in the name and is at most two characters longer; off Windows
    nothing is added, and on Windows every extern(D) name gets the 0x1 byte
    and an underscore.  A variable and a function of one name are mangled
    alike unless the linkage is extern(D) or the default. *)
Theorem mangle_prefix (name : string) (l : LINK) :
  (exists prefix,
      mangleFunctionForLLVM triple name l = (prefix ++ name)%string
      /\ (String.length prefix <= 2)%nat
      /\ (isOSWindows triple = false -> prefix = ""%string)
      /\ (isOSWindows triple = true -> l = LINKd ->
          prefix = String byte_1 "_"%string))
  /\ (exists prefix,
         mangleVariableForLLVM triple name l = (prefix ++ name)%string
         /\ (String.length prefix <= 1)%nat
         /\ (isOSWindows triple = false -> prefix = ""%string))
  /\ (l <> LINKd -> l <> LINKdefault ->
      mangleVariableForLLVM triple name l = mangleFunctionForLLVM triple name l).
Proof.
  unfold mangleFunctionForLLVM, mangleVariableForLLVM.
  split; [|split].
  - destruct (isOSWindows triple); [|exists ""%string; repeat split; simpl; auto; discriminate].
    destruct (bool_decide (l = LINKd) || bool_decide (l = LINKdefault)) eqn:Ed.
    + exists (String byte_1 "_"%string). repeat split; simpl; auto. discriminate.
    + apply orb_false_split in Ed as [Ed _]. apply bool_decide_eq_false_1 in Ed.
      destruct (bool_decide (l = LINKcpp) && starts_with_question_mark name).
      * exists (String byte_1 ""%string).
        repeat split; simpl; auto; try discriminate. intros _ N. contradiction.
      * exists ""%string.
        repeat split; simpl; auto; try discriminate. intros _ N. contradiction.
  - destruct (isOSWindows triple && bool_decide (l = LINKcpp)
              && starts_with_question_mark name) eqn:E.
    + exists (String byte_1 ""%string). repeat split; simpl; auto.
      intros Hw. rewrite Hw in E. discriminate.
    + exists ""%string. repeat split; simpl; auto.
  - intros Hd Hdef.
    rewrite (bool_decide_eq_false_2 _ Hd), (bool_decide_eq_false_2 _ Hdef).
    destruct (isOSWindows triple); reflexivity.
Qed.

End AbiProperties.

(** ** Pointer arithmetic in constants *)

Section PointerArithmetic.

Context (triple : Triple) `{Collaborators}.

(** X16. A constant pointer plus an integer constant folds to the address
    that many elements further, minus it to the address that many elements
    back, as an index that wraps at the width of a pointer.  Both keep the
    symbol the pointer starts from, and taking away what was added gives the
    byte offset of the pointer again, up to a multiple of the size of the
    address space. *)
Theorem pointer_add_sub_fold (stride : LLType -> Z) (type : DType) (e1 e2 : Expression)
    (p : LLValue) (s : IRState) :
  let t1b := toBasetype (exp_type e1) in
  let idx := undoStrideMul t1b (toInteger e2) in
  let elem := getContainedType0 (getType p) in
  process triple e1 s = (Ret (Some p), s) ->
  ty t1b = Tpointer ->
  isintegral (exp_type e2) = true ->
  toBasetype type = t1b ->
  exists a b c,
    process triple (AddExp type e1 e2) s = (Ret (Some a), s)
    /\ process triple (MinExp type e1 e2) s = (Ret (Some b), s)
    /\ process triple (MinExp type (AddExp type e1 e2) e2) s = (Ret (Some c), s)
    /\ (getType a = getType p /\ getType b = getType p /\ getType c = getType p)
    /\ (address_base a = address_base p /\ address_base b = address_base p
        /\ address_base c = address_base p)
    /\ byte_offset stride a = byte_offset stride p + idx * stride elem
    /\ byte_offset stride b
       = byte_offset stride p + ((- idx) mod 2 ^ (8 * ptrsize triple)) * stride elem
    /\ (byte_offset stride c - byte_offset stride p) mod 2 ^ (8 * ptrsize triple) = 0.
Proof.
  intros t1b idx elem Hp Ht Hi Hty.
  assert (process triple (AddExp type e1 e2) s
          = (Ret (Some (ConstGEP p (DtoConstSize_t triple idx) (getType p))), s)) as Ea.
  { cbn [process]. fold t1b. rewrite Ht, Hi.
    rewrite bool_decide_eq_true_2 by reflexivity. cbn [andb].
    unfold orUndef, bind. rewrite Hp. reflexivity. }
  assert (process triple (MinExp type e1 e2) s
          = (Ret (Some (ConstGEP p (ConstantInt (DtoSize_t triple)
                                      ((- idx) mod 2 ^ (8 * ptrsize triple)))
                                 (getType p))), s)) as Eb.
  { cbn [process]. fold t1b. rewrite Ht, Hi.
    rewrite bool_decide_eq_true_2 by reflexivity. cbn [andb].
    unfold orUndef, bind. rewrite Hp. reflexivity. }
  assert (process triple (MinExp type (AddExp type e1 e2) e2) s
          = (Ret (Some (ConstGEP (ConstGEP p (DtoConstSize_t triple idx) (getType p))
                                 (ConstantInt (DtoSize_t triple)
                                    ((- idx) mod 2 ^ (8 * ptrsize triple)))
                                 (getType p))), s)) as Ec.
  { cbn [process exp_type]. rewrite Hty. fold t1b. rewrite Ht, Hi.
    rewrite bool_decide_eq_true_2 by reflexivity. cbn [andb].
    unfold orUndef, bind. fold (process triple e1). rewrite Hp. reflexivity. }
  do 3 eexists. split; [exact Ea|]. split; [exact Eb|]. split; [exact Ec|].
  cbn [getType address_base byte_offset DtoConstSize_t]. fold elem.
  split; [auto|]. split; [auto|]. split; [reflexivity|]. split; [reflexivity|].
  set (W := 2 ^ (8 * ptrsize triple)).
  replace (byte_offset stride p + idx * stride elem + (- idx) mod W * stride elem
           - byte_offset stride p)
    with ((idx + (- idx) mod W) * stride elem) by ring.
  destruct (Z.eq_dec W 0) as [W0|W0].
  - rewrite W0. rewrite !Z.mod_0_r. replace (idx + - idx) with 0 by lia. reflexivity.
  - assert ((idx + (- idx) mod W) mod W = 0) as E0.
    { rewrite Zplus_mod_idemp_r. replace (idx + - idx) with 0 by lia.
      apply Zmod_0_l. }
    apply Z.mod_divide in E0; [|exact W0]. destruct E0 as [k ->].
    replace (k * W * stride elem) with (k * stride elem * W) by ring.
    apply Z_mod_mult.
Qed.

End PointerArithmetic.

(** ** String literals *)

Section StringProperties.

Context (triple : Triple).

Lemma LLConstantInt_get_type (t : LLType) (v : Z) (sg : bool) :
  getType (LLConstantInt_get t v sg) = t.
Proof.
  unfold LLConstantInt_get. destruct t; try reflexivity.
  case_bool_decide; [reflexivity|]. destruct (sg && _); reflexivity.
Qed.

Lemma LLConstantInt_get_small (bits v : Z) :
  0 < bits <= 64 -> 0 <= v < 2 ^ bits ->
  LLConstantInt_get (LLInt bits) v false = ConstantInt (LLInt bits) v.
Proof.
  intros Hb Hv. unfold LLConstantInt_get.
  rewrite bool_decide_eq_true_2 by lia.
  assert (2 ^ bits <= 2 ^ 64) by (apply Z.pow_le_mono_r; lia).
  rewrite (Z.mod_small v (2 ^ 64)) by lia.
  rewrite Z.mod_small by lia. reflexivity.
Qed.

Lemma map_seq_nth (f : Z -> LLValue) (l : list Z) :
  map (fun i => f (nth i l 0)) (seq 0 (length l)) = map f l.
Proof.
  induction l as [|x l IH]; [reflexivity|].
  cbn [length seq map nth]. f_equal.
  rewrite <- seq_shift, map_map. exact IH.
Qed.

(** X17. The constant of a string literal is an array of as many elements as
    its type says: the code units of the literal in their order, each of the
    element type, and one more element, zero, exactly when a terminator is
    asked for.  Code units that fit the element type are kept as they are, so
    the literal is read back from the constant. *)
Theorem buildStringLiteralConstant_shape (se : StringExp) (zeroTerm : bool) :
  exists ct vals,
    buildStringLiteralConstant triple se zeroTerm
    = ConstantArray (LLArray (Z.of_nat (length vals)) ct) vals
    /\ length vals = (numberOfCodeUnits se + (if zeroTerm then 1 else 0))%nat
    /\ Forall (fun v => getType v = ct) vals
    /\ (zeroTerm = true -> last vals = Some (ConstantInt ct 0))
    /\ buildStringLiteralConstant triple se false
       = ConstantArray (LLArray (Z.of_nat (numberOfCodeUnits se)) ct)
                       (take (numberOfCodeUnits se) vals)
    /\ (forall bits, ct = LLInt bits -> 0 < bits <= 64 ->
        Forall (fun c => 0 <= c < 2 ^ bits) (se_string se) ->
        take (numberOfCodeUnits se) vals = map (ConstantInt ct) (se_string se)).
Proof.
  unfold buildStringLiteralConstant, ConstantDataArray_getString, numberOfCodeUnits, charAt.
  case_bool_decide as Hsz.
  - exists (LLInt 8), (map (ConstantInt (LLInt 8))
                           (se_string se ++ (if zeroTerm then [0] else []))).
    rewrite !length_map, !length_app.
    split; [reflexivity|]. split; [destruct zeroTerm; reflexivity|].
    split; [apply Forall_fmap, Forall_true; intros; reflexivity|].
    split; [intros ->; rewrite map_app; apply last_snoc|].
    assert (take (length (se_string se))
                 (map (ConstantInt (LLInt 8))
                      (se_string se ++ (if zeroTerm then [0] else [])))
            = map (ConstantInt (LLInt 8)) (se_string se)) as Et.
    { rewrite map_app. apply take_app_length'. rewrite length_map. reflexivity. }
    rewrite Et, app_nil_r, Nat.add_0_r. split; [reflexivity|]. intros; reflexivity.
  - set (ct := DtoMemType triple _).
    rewrite (map_seq_nth (fun c => LLConstantInt_get ct c false)).
    assert (LLConstantInt_get ct 0 false = ConstantInt ct 0) as E0.
    { unfold LLConstantInt_get. destruct ct; try reflexivity.
      cbn. case_bool_decide; reflexivity. }
    exists ct, (map (fun c => LLConstantInt_get ct c false) (se_string se)
                ++ (if zeroTerm then [LLConstantInt_get ct 0 false] else [])).
    rewrite length_app, length_map.
    split; [destruct zeroTerm; [reflexivity|]; rewrite app_nil_r, Nat.add_0_r; reflexivity|].
    split; [destruct zeroTerm; reflexivity|].
    split.
    { apply Forall_app; split.
      - apply Forall_fmap, Forall_true. intros c. apply LLConstantInt_get_type.
      - destruct zeroTerm; [|constructor].
        constructor; [apply LLConstantInt_get_type|constructor]. }
    split; [intros ->; rewrite E0; apply last_snoc|].
    rewrite take_app_length' by (rewrite length_map; reflexivity).
    split; [reflexivity|].
    intros bits Hct Hb Hr. apply map_ext_Forall.
    rewrite Forall_forall in Hr |- *. intros c Hc. rewrite Hct.
    apply LLConstantInt_get_small; [exact Hb|]. apply Hr, Hc.
Qed.

End StringProperties.

(** ** Parent functions *)

Lemma getParentFunc_loop_nearest (p fd : Dsymbol) :
  fd <> nullptr ->
  getParentFunc_loop p = fd
  <-> exists pre post,
        chain p = pre ++ fd :: post
        /\ is_Some (sym_isFuncDeclaration fd)
        /\ Forall (fun a => sym_isFuncDeclaration a = None
                            /\ sym_isAggregateDeclaration a <> Some false) pre.
Proof.
  intros Hfd. induction p as [|ident k up IH].
  - simpl. split; [congruence|]. intros (pre & post & E & _). destruct pre; discriminate.
  - set (p := mkDsymbol ident k up).
    assert (forall pre post, chain p = pre ++ fd :: post ->
              Forall (fun a => sym_isFuncDeclaration a = None
                               /\ sym_isAggregateDeclaration a <> Some false) pre ->
              (pre = [] /\ fd = p)
              \/ (exists pre', pre = p :: pre' /\ chain up = pre' ++ fd :: post
                               /\ sym_isFuncDeclaration p = None
                               /\ sym_isAggregateDeclaration p <> Some false
                               /\ Forall (fun a => sym_isFuncDeclaration a = None
                                            /\ sym_isAggregateDeclaration a <> Some false)
                                         pre')) as Hsplit.
    { intros pre post E F. destruct pre as [|a pre'].
      - left. simpl in E. injection E as E _. auto.
      - right. simpl in E. injection E as Ea E. subst a.
        inversion F as [|? ? [F1 F2] F3]; subst. eauto 10. }
    destruct k as [f|[|]|].
    + change (getParentFunc_loop p) with p. split.
      * intros <-. exists [], (chain up). repeat split; simpl; eauto.
      * intros (pre & post & E & _ & F).
        destruct (Hsplit _ _ E F) as [[_ ->]|(pre' & _ & _ & N & _)];
          [reflexivity|subst p; discriminate].
    + change (getParentFunc_loop p) with (getParentFunc_loop up).
      rewrite IH. split.
      * intros (pre & post & E & Hf & F). exists (p :: pre), post.
        split; [simpl; rewrite E; reflexivity|]. split; [exact Hf|].
        constructor; [split; [reflexivity|discriminate]|exact F].
      * intros (pre & post & E & Hf & F).
        destruct (Hsplit _ _ E F) as [[_ ->]|(pre' & _ & E' & _ & _ & F')].
        -- destruct Hf as [? Hf]. subst p. discriminate.
        -- eauto.
    + change (getParentFunc_loop p) with nullptr. split; [congruence|].
      intros (pre & post & E & Hf & F).
      destruct (Hsplit _ _ E F) as [[_ ->]|(pre' & _ & _ & _ & N & _)].
      * destruct Hf as [? Hf]. subst p. discriminate.
      * exfalso. apply N. reflexivity.
    + change (getParentFunc_loop p) with (getParentFunc_loop up).
      rewrite IH. split.
      * intros (pre & post & E & Hf & F). exists (p :: pre), post.
        split; [simpl; rewrite E; reflexivity|]. split; [exact Hf|].
        constructor; [split; [reflexivity|discriminate]|exact F].
      * intros (pre & post & E & Hf & F).
        destruct (Hsplit _ _ E F) as [[_ ->]|(pre' & _ & E' & _ & _ & F')].
        -- destruct Hf as [? Hf]. subst p. discriminate.
        -- eauto.
Qed.

(** X18. [getParentFunc] gives a function exactly when the symbol allows
    access to a parent context (it is no aggregate that is not nested, and as
    a function it is not static, is a member or extern(D), and is no function
    literal with the function token) and a function lies above it with no
    aggregate that is not nested in between; it then gives the nearest such
    function, never the symbol itself. *)
Theorem getParentFunc_nearest (sym fd : Dsymbol) :
  fd <> nullptr ->
  getParentFunc sym = fd
  <-> sym_isAggregateDeclaration sym <> Some false
      /\ (forall f, sym_isFuncDeclaration sym = Some f ->
          fd_isStatic f = false
          /\ (fd_isThis f = true \/ fd_linkage f = LINKd)
          /\ fd_literal f <> Some TOKfunction)
      /\ exists pre post,
           chain (sym_parent sym) = pre ++ fd :: post
           /\ is_Some (sym_isFuncDeclaration fd)
           /\ Forall (fun a => sym_isFuncDeclaration a = None
                               /\ sym_isAggregateDeclaration a <> Some false) pre.
Proof.
  intros Hfd. destruct sym as [|ident k up].
  - simpl. split; [congruence|]. intros (_ & _ & pre & post & E & _).
    destruct pre; discriminate.
  - cbn [sym_parent]. rewrite <- (getParentFunc_loop_nearest up fd Hfd).
    unfold getParentFunc. destruct k as [f|[|]|]; cbn [sym_isFuncDeclaration
      sym_isAggregateDeclaration negb].
    + destruct (fd_isStatic f) eqn:Es; cbn [orb].
      { split; [congruence|]. intros (_ & Hf & _).
        destruct (Hf f eq_refl) as [N _]. congruence. }
      destruct (fd_isThis f) eqn:Et; cbn [negb andb orb].
      * case_bool_decide as Hl.
        -- split; [congruence|]. intros (_ & Hf & _).
           destruct (Hf f eq_refl) as (_ & _ & N). contradiction.
        -- split; [|tauto]. intros E. split; [discriminate|]. split; [|exact E].
           intros f' [= <-]. rewrite Es, Et. auto.
      * case_bool_decide as Hd; cbn [negb orb].
        -- case_bool_decide as Hl.
           ++ split; [congruence|]. intros (_ & Hf & _).
              destruct (Hf f eq_refl) as (_ & _ & N). contradiction.
           ++ split; [|tauto]. intros E. split; [discriminate|]. split; [|exact E].
              intros f' [= <-]. rewrite Es. auto.
        -- split; [congruence|]. intros (_ & Hf & _).
           destruct (Hf f eq_refl) as (_ & [N|N] & _); [congruence|contradiction].
    + split; [|tauto]. intros E. split; [discriminate|]. split; [|exact E].
      intros f' [=].
    + split; [congruence|]. intros (N & _). exfalso. apply N. reflexivity.
    + split; [|tauto]. intros E. split; [discriminate|]. split; [|exact E].
      intros f' [=].
Qed.

(** ** Symbols of the default libraries *)

(** X20. A symbol counts as one of the default libraries exactly when its
    module is [object] or [std] themselves, or lies in one of the packages
    [core], [etc] and [ldc], or in [std] but not in [std.io]: what decides is
    the first two parts of the fully qualified module name. *)
Theorem isDefaultLibSymbol_by_name (sym : SymbolInfo) :
  isDefaultLibSymbol sym = true
  <-> exists md,
        getModule sym = Some (Some md)
        /\ (fully_qualified md = ["object"%string] \/ fully_qualified md = ["std"%string]
            \/ exists first second rest,
                 fully_qualified md = first :: second :: rest
                 /\ (first = "core"%string \/ first = "etc"%string
                     \/ first = "ldc"%string
                     \/ (first = "std"%string /\ second <> "io"%string))).
Proof.
  unfold isDefaultLibSymbol, fully_qualified.
  destruct (getModule sym) as [[md|]|].
  2,3: split; [discriminate|]; intros (md & [=] & _).
  destruct md as [pk id]. cbn [packages md_id].
  split.
  - intros Hd. eexists. split; [reflexivity|]. cbn [packages md_id].
    destruct pk as [|p rest].
    + apply orb_true_iff in Hd as [Hd|Hd]; apply bool_decide_eq_true_1 in Hd;
        subst; simpl; auto.
    + right. right.
      destruct rest as [|q rest]; cbn [app length nth] in *.
      * exists p, id, []. split; [reflexivity|].
        rewrite !orb_true_iff, andb_true_iff, negb_true_iff in Hd.
        destruct Hd as [[[Hd|Hd]|Hd]|[Hd Hn]];
          try (apply bool_decide_eq_true_1 in Hd; auto).
        right. right. right. split; [exact Hd|].
        rewrite orb_false_r in Hn. cbn [andb] in Hn.
        rewrite bool_decide_eq_true_2 in Hn by reflexivity. cbn [andb] in Hn.
        apply bool_decide_eq_false_1 in Hn. exact Hn.
      * exists p, q, (rest ++ [id]). split; [reflexivity|].
        rewrite !orb_true_iff, andb_true_iff, negb_true_iff in Hd.
        destruct Hd as [[[Hd|Hd]|Hd]|[Hd Hn]];
          try (apply bool_decide_eq_true_1 in Hd; auto).
        right. right. right. split; [exact Hd|].
        apply orb_false_split in Hn as [_ Hn].
        rewrite bool_decide_eq_true_2 in Hn by (simpl; lia). cbn [andb] in Hn.
        apply bool_decide_eq_false_1 in Hn. exact Hn.
  - intros (md & [= <-] & Hq). cbn [packages md_id] in Hq.
    destruct pk as [|p rest].
    + cbn [app] in Hq. destruct Hq as [[= ->]|[[= ->]|(a & b & r & [=] & _)]];
        reflexivity.
    + destruct Hq as [Hq|[Hq|(a & b & r & Hq & Hc)]].
      1,2: destruct rest; discriminate.
      destruct rest as [|q rest]; cbn [app length nth] in *;
        injection Hq as <- <- _.
      * destruct Hc as [->|[->|[->|[-> Hn]]]]; try reflexivity.
        rewrite (bool_decide_eq_false_2 _ Hn). reflexivity.
      * destruct Hc as [->|[->|[->|[-> Hn]]]]; try reflexivity.
        rewrite (bool_decide_eq_false_2 _ Hn). reflexivity.
Qed.

(** X19. Without linkonce templates, a symbol that is defined wherever it is
    declared is a data symbol instantiated from a template of the default
    libraries, and it is imported from a DLL only if it is exported itself;
    under linkonce templates every instantiated symbol is defined on
    declaration.  With no DLL import selected, a data symbol is imported
    exactly when it is exported. *)
Theorem defineOnDeclare_dllimport (params : Param) (sym : SymbolInfo) (isFunction : bool) :
  (linkonceTemplates params = false ->
   defineOnDeclare params sym isFunction = true ->
   isFunction = false /\ isInstantiated sym = true /\ isDefaultLibSymbol sym = true
   /\ dllimportDataSymbol params sym = isExport sym)
  /\ (linkonceTemplates params = true ->
      defineOnDeclare params sym isFunction = isInstantiated sym)
  /\ (dllimport params = DLLImport_none ->
      dllimportDataSymbol params sym = isExport sym
      /\ (linkonceTemplates params = false ->
          defineOnDeclare params sym isFunction = false)).
Proof.
  unfold defineOnDeclare, dllimportDataSymbol.
  split; [|split].
  - intros -> Hd. rewrite !andb_true_iff, negb_true_iff in Hd.
    destruct Hd as [[[Hf Hl] Hi] Hs]. apply bool_decide_eq_true_1 in Hl.
    rewrite Hl, Hi. repeat split; auto.
    rewrite bool_decide_eq_false_2 by discriminate.
    cbn [negb andb]. rewrite andb_false_r, !orb_false_r. reflexivity.
  - intros ->. reflexivity.
  - intros Hn. rewrite Hn. rewrite !bool_decide_eq_false_2 by discriminate.
    cbn [andb]. rewrite !orb_false_r. split; [reflexivity|].
    intros ->. rewrite andb_false_r. reflexivity.
Qed.

(** ** Variables as values *)

Section VariableProperties.

Context (triple : Triple) `{Collaborators}.

(** X21. What [makeVarDValue] returns is addressable, of the requested type,
    and its address has the canonical pointer type of that type, whatever the
    type of the storage was: one more level of indirection for a special
    reference, which [DtoLVal] takes off again with a load.  Storage of the
    expected type is used as it is; any other costs one cast and nothing
    else. *)
Theorem makeVarDValue_canonical (type : DType) (vd : VarDeclaration)
    (storage_class : StorageClass) (storage : option LLValue) (s s' : IRState) (v : DValue) :
  makeVarDValue triple type vd storage_class storage s = (Ret v, s') ->
  exists val addr s'',
    (storage = Some val \/ storage = None /\ irValue vd = Some val)
    /\ dv_type v = type /\ isLVal v = true
    /\ DtoLVal v s' = (Ret addr, s'')
    /\ getType addr = DtoPtrToType triple type
    /\ only_block_grew s s''
    /\ (let expectedType := if isSpecialRefVar storage_class
                            then LLPointer (DtoPtrToType triple type)
                            else DtoPtrToType triple type in
        (getType val = expectedType -> s' = s)
        /\ (getType val <> expectedType ->
            scopebb s' = scopebb s ++ [BitCastInst val expectedType]))
    /\ (isSpecialRefVar storage_class = false -> s'' = s')
    /\ (isSpecialRefVar storage_class = true ->
        exists a, v = DSpecialRefValue type a /\ scopebb s'' = scopebb s' ++ [LoadInst a]).
Proof.
  unfold makeVarDValue. intros E.
  assert (exists val, (storage = Some val \/ storage = None /\ irValue vd = Some val)
                      /\ match storage with
                         | Some val => ret val
                         | None => run assert (isIrVarCreated vd); nonnull (irValue vd)
                         end s = (Ret val, s)) as (val & Hval & E0).
  { destruct storage as [val|]; [exists val; split; [auto|reflexivity]|].
    unfold bind, assert, isIrVarCreated in E |- *.
    destruct (irValue vd) as [val|]; [|discriminate].
    exists val. split; [auto|]. rewrite bool_decide_eq_true_2 by eauto. reflexivity. }
  unfold bind at 1 in E. rewrite E0 in E.
  set (exp := if isSpecialRefVar storage_class then LLPointer (DtoPtrToType triple type)
              else DtoPtrToType triple type) in *.
  assert (exists val', (if bool_decide (getType val <> exp)
            then
              run assert (isDataseg vd || STCextern storage_class
                          || bool_decide (ty (toBasetype type) = Tclass)
                          || bool_decide (ty (toBasetype type) = Tsarray));
              run assert (bool_decide
                            (getTypeStoreSize (DtoType triple type)
                             <= getTypeStoreSize
                                  (if isSpecialRefVar storage_class
                                   then getContainedType0 (getContainedType0 (getType val))
                                   else getContainedType0 (getType val))));
              DtoBitCast val exp
            else ret val) s = (Ret val', s')
          /\ getType val' = exp
          /\ v = (if isSpecialRefVar storage_class then DSpecialRefValue type val'
                  else DLValue type val')
          /\ only_block_grew s s'
          /\ (getType val = exp -> s' = s)
          /\ (getType val <> exp -> scopebb s' = scopebb s ++ [BitCastInst val exp]))
    as (val' & _ & Ht & Hv & Hg & Hs1 & Hs2).
  { unfold bind at 1 in E.
    case_bool_decide as Hne.
    - unfold bind, assert in E |- *.
      destruct (isDataseg vd || STCextern storage_class
                || bool_decide (ty (toBasetype type) = Tclass)
                || bool_decide (ty (toBasetype type) = Tsarray)); [|discriminate].
      destruct (bool_decide _); [|discriminate].
      unfold DtoBitCast in E |- *. rewrite bool_decide_eq_false_2 in E |- * by exact Hne.
      unfold emit in E |- *.
      destruct (isSpecialRefVar storage_class); injection E as <- <-;
        eexists; (split; [reflexivity|]); cbn [getType];
        repeat split; try reflexivity; try contradiction.
    - assert (getType val = exp) as He by (destruct (decide (getType val = exp)); tauto).
      destruct (isSpecialRefVar storage_class); injection E as <- <-;
        exists val; (split; [reflexivity|]);
        repeat split; try reflexivity; try tauto. }
  subst exp.
  destruct (isSpecialRefVar storage_class) eqn:Er; subst v.
  - exists val. cbn [DtoLVal dv_type isLVal]. unfold emit.
    do 2 eexists. split; [exact Hval|]. split; [reflexivity|]. split; [reflexivity|].
    split; [reflexivity|]. cbn [getType]. rewrite Ht.
    split; [reflexivity|]. split; [exact Hg|]. split; [split; assumption|].
    split; [discriminate|]. intros _. eexists. split; reflexivity.
  - exists val. cbn [DtoLVal dv_type isLVal]. unfold ret.
    do 2 eexists. split; [exact Hval|]. split; [reflexivity|]. split; [reflexivity|].
    split; [reflexivity|]. split; [exact Ht|]. split; [exact Hg|].
    split; [split; assumption|]. split; [reflexivity|]. discriminate.
Qed.

End VariableProperties.

#[local] Existing Instance no_collaborators.

(** ** Concrete cases *)

(** *** C1 *)

Lemma DtoCastInt_widens_witness :
  DtoCastInt x86_linux (DImValue tuns16 (ConstantInt (LLInt 16) 0xFFFF)) tint32
             initial_state
  = (Ret (DImValue tint32 (Reg 0 (LLInt 32))),
     push_instr (ZExtInst (ConstantInt (LLInt 16) 0xFFFF) (LLInt 32)) initial_state)
  /\ DtoCastInt x86_linux (DImValue tint32 (ConstantInt (LLInt 32) 0xFFFFFFFF)) tint64
                initial_state
     = (Ret (DImValue tint64 (Reg 0 (LLInt 64))),
        push_instr (SExtInst (ConstantInt (LLInt 32) 0xFFFFFFFF) (LLInt 64)) initial_state).
Proof.
  split.
  - refine (proj1 (proj1 (proj1 (DtoCastInt_widens x86_linux)
                           (DImValue tuns16 (ConstantInt (LLInt 16) 0xFFFF)) tint32
                           initial_state initial_state (ConstantInt (LLInt 16) 0xFFFF)
                           _ _ _ _ _ _ _) _)).
    + reflexivity.
    + discriminate.
    + reflexivity.
    + discriminate.
    + left. reflexivity.
    + reflexivity.
    + reflexivity.
    + left. reflexivity.
  - refine (proj1 (proj2 (proj1 (DtoCastInt_widens x86_linux)
                           (DImValue tint32 (ConstantInt (LLInt 32) 0xFFFFFFFF)) tint64
                           initial_state initial_state
                           (ConstantInt (LLInt 32) 0xFFFFFFFF)
                           _ _ _ _ _ _ _) _ _)).
    + reflexivity.
    + discriminate.
    + reflexivity.
    + discriminate.
    + left. reflexivity.
    + reflexivity.
    + reflexivity.
    + reflexivity.
    + discriminate.
Defined.

(** *** C10 *)

Lemma DtoNullValue_by_category_witness :
  DtoNullValue x86_linux (TypeDArray tint32) initial_state
  = (Ret (DSliceValue (TypeDArray tint32) (ConstantInt (LLInt 32) 0)
                      (ConstantNull (LLPointer (LLInt 32)))), initial_state)
  /\ DtoNullValue x86_linux (TypeBasic Kcomplex64) initial_state
     = (Ret (DImValue (TypeBasic Kcomplex64)
               (AggrPair (LLPair LLDouble LLDouble) (ConstantNull LLDouble)
                         (ConstantNull LLDouble))), initial_state)
  /\ DtoNullValue x86_linux (TypePointer tint32) initial_state
     = (Ret (DNullValue (TypePointer tint32) (ConstantNull (LLPointer (LLInt 32)))),
        initial_state)
  /\ DtoNullValue x86_linux (TypeStruct S4) initial_state
     = (Fatal, report (NullNotKnown (TypeStruct S4)) initial_state).
Proof.
  split; [|split; [|split]].
  - destruct (proj1 (DtoNullValue_by_category x86_linux (TypeDArray tint32) initial_state)
                    eq_refl) as (n & En & E).
    injection En as <-. exact E.
  - apply (proj1 (proj2 (DtoNullValue_by_category x86_linux (TypeBasic Kcomplex64)
                                                  initial_state))).
    reflexivity.
  - apply (proj1 (proj2 (proj2 (DtoNullValue_by_category x86_linux (TypePointer tint32)
                                                         initial_state))));
      reflexivity.
  - apply (proj2 (proj2 (proj2 (DtoNullValue_by_category x86_linux (TypeStruct S4)
                                                         initial_state))));
      [reflexivity|reflexivity|discriminate].
Defined.

(** *** C8 *)

(** A null constant of an associative-array type, cast to that very type,
    comes back as another value, an immediate; and a special reference comes
    back as a plain addressable value, after a load was emitted. *)
Lemma DtoCast_same_type_counterexample :
  let val := DNullValue aa_int_int (ConstantNull (LLPointer (LLInt 8))) in
  let ref := DSpecialRefValue aa_int_int
               (Argument 0 (LLPointer (LLPointer (LLPointer (LLInt 8))))) in
  toBasetype (dv_type val) = toBasetype aa_int_int
  /\ DtoCast x86_linux val aa_int_int initial_state
     = (Ret (DImValue aa_int_int (ConstantNull (LLPointer (LLInt 8)))), initial_state)
  /\ DtoCast x86_linux val aa_int_int initial_state <> (Ret val, initial_state)
  /\ DtoCast x86_linux ref aa_int_int initial_state
     = (Ret (DLValue aa_int_int (Reg 0 (LLPointer (LLPointer (LLInt 8))))),
        push_instr (LoadInst (Argument 0 (LLPointer (LLPointer (LLPointer (LLInt 8))))))
                   initial_state)
  /\ DtoCast x86_linux ref aa_int_int initial_state <> (Ret ref, initial_state).
Proof.
  repeat split; try reflexivity; discriminate.
Qed.

Lemma DtoCast_same_basetype_witness :
  DtoCast x86_linux (DImValue (TypeEnum "E" tint32) (ConstantInt (LLInt 32) 7)) tint32
          initial_state
  = (Ret (DImValue (TypeEnum "E" tint32) (ConstantInt (LLInt 32) 7)), initial_state).
Proof.
  apply (proj1 (DtoCast_same_basetype x86_linux
                  (DImValue (TypeEnum "E" tint32) (ConstantInt (LLInt 32) 7)) tint32
                  initial_state eq_refl)).
  discriminate.
Defined.

(** *** C3 *)

(** An integer cast to a struct: the error is reported and the compilation
    ends, with errors gagged as well as without; nothing is returned. *)
Lemma DtoCast_poison_counterexample :
  let val := DImValue tint32 (ConstantInt (LLInt 32) 1) in
  let to := TypeStruct S4 in
  cast_rejection x86_linux (dv_type val) to = Some (InvalidCast tint32 to)
  /\ DtoCast x86_linux val to initial_state
     = (Fatal, report (InvalidCast tint32 to) initial_state)
  /\ DtoCast x86_linux val to (gagged initial_state)
     = (Fatal, report (InvalidCast tint32 to) (gagged initial_state))
  /\ ~ (exists v s', DtoCast x86_linux val to initial_state = (Ret v, s'))
  /\ ~ (exists v s', DtoCast x86_linux val to (gagged initial_state) = (Ret v, s')).
Proof.
  repeat split; try reflexivity; intros (v & s' & E); discriminate.
Qed.

Lemma DtoCast_rejects_witness :
  exists s1,
    DtoCast x86_linux (DImValue tint32 (ConstantInt (LLInt 32) 1)) (TypeStruct S4)
            initial_state
    = (Fatal, report (InvalidCast tint32 (TypeStruct S4)) s1).
Proof.
  destruct (DtoCast_rejects x86_linux (DImValue tint32 (ConstantInt (LLInt 32) 1))
                            (TypeStruct S4) initial_state
                            (InvalidCast tint32 (TypeStruct S4)))
    as (_ & s1 & _ & E & _).
  - reflexivity.
  - intros r s1 [=]; subst. reflexivity.
  - exists s1. exact E.
Defined.

(** *** C4 *)

Lemma DtoAssign_struct_self_witness :
  DtoAssign x86_linux (DLValue (TypeStruct S4) (Argument 0 (LLPointer (LLNamedStruct "S4"))))
            (DLValue (TypeStruct S4) (Argument 0 (LLPointer (LLNamedStruct "S4"))))
            0 false initial_state
  = (Ret tt, initial_state)
  /\ DtoAssign x86_linux
       (DLValue (TypeStruct Empty) (Argument 0 (LLPointer (LLNamedStruct "Empty"))))
       (DLValue (TypeStruct Empty) (Argument 1 (LLPointer (LLNamedStruct "Empty"))))
       0 false initial_state
     = (Ret tt, initial_state).
Proof.
  split.
  - apply (proj1 (DtoAssign_struct_self x86_linux
                    (DLValue (TypeStruct S4) (Argument 0 (LLPointer (LLNamedStruct "S4"))))
                    (DLValue (TypeStruct S4) (Argument 0 (LLPointer (LLNamedStruct "S4"))))
                    0 false S4 initial_state eq_refl)
                 (Argument 0 (LLPointer (LLNamedStruct "S4"))) initial_state initial_state).
    + reflexivity.
    + reflexivity.
    + discriminate.
  - apply (proj2 (proj2 (DtoAssign_struct_self x86_linux
                    (DLValue (TypeStruct Empty) (Argument 0 (LLPointer (LLNamedStruct "Empty"))))
                    (DLValue (TypeStruct Empty) (Argument 1 (LLPointer (LLNamedStruct "Empty"))))
                    0 false Empty initial_state eq_refl))).
    reflexivity.
Defined.

(** *** C5 and C9 *)

(** On WebAssembly a thread-local redeclaration of a global that is not
    thread-local is no error: the existing global comes back. *)
Lemma declareGlobal_wasm_counterexample :
  module_globals module_with_x !! "x"%string = Some plain_x
  /\ gv_isThreadLocal plain_x <> true
  /\ declareGlobal wasm32_unknown GeneralDynamicTLSModel (LLInt 32) "x" false true false
                   module_with_x
     = (Ret plain_x, module_with_x).
Proof.
  assert (module_globals module_with_x !! "x"%string = Some plain_x) as E
    by apply lookup_insert_eq.
  split; [exact E|]. split; [discriminate|].
  unfold declareGlobal, bind, getGlobalVariable. rewrite E. reflexivity.
Qed.

Lemma declareGlobal_existing_witness :
  declareGlobal x86_linux GeneralDynamicTLSModel (LLInt 32) "x" false true false
                module_with_x
  = (Fatal,
     note (GlobalMismatchSuppl false (LLInt 32) false true)
       (note (GlobalMismatchSuppl true (LLInt 32) false false)
          (report (GlobalMismatch "x") module_with_x)))
  /\ declareGlobal x86_linux GeneralDynamicTLSModel (LLInt 32) "x" false false false
                   module_with_x
     = (Ret plain_x, module_with_x).
Proof.
  assert (module_globals module_with_x !! "x"%string = Some plain_x) as E
    by apply lookup_insert_eq.
  split.
  - apply (proj1 (declareGlobal_existing x86_linux GeneralDynamicTLSModel (LLInt 32) "x"
                    false true false module_with_x plain_x E)).
    right. right. discriminate.
  - apply (proj2 (declareGlobal_existing x86_linux GeneralDynamicTLSModel (LLInt 32) "x"
                    false false false module_with_x plain_x E)); reflexivity.
Defined.

(** On 32-bit PowerPC the option is ignored: with the default, global-dynamic,
    a new thread-local global is local-exec. *)
Lemma declareGlobal_ppc_counterexample :
  clThreadModel_getValue None = Some GeneralDynamicTLSModel
  /\ module_globals initial_state !! "x"%string = None
  /\ exists s',
       declareGlobal ppc_linux GeneralDynamicTLSModel (LLInt 32) "x" false true false
                     initial_state
       = (Ret (mkGlobalVariable (LLInt 32) false ExternalLinkage LocalExecTLSModel
                                DefaultStorageClass), s')
       /\ LocalExecTLSModel <> GeneralDynamicTLSModel.
Proof.
  assert (module_globals initial_state !! "x"%string = None) as E
    by apply lookup_empty.
  split; [reflexivity|]. split; [exact E|].
  eexists. split; [|discriminate].
  unfold declareGlobal, bind, getGlobalVariable. rewrite E. reflexivity.
Qed.

Lemma declareGlobal_tls_model_witness :
  exists gvar s',
    declareGlobal x86_linux InitialExecTLSModel (LLInt 32) "x" false true false
                  initial_state
    = (Ret gvar, s')
    /\ gv_tlsMode gvar = InitialExecTLSModel.
Proof.
  destruct (declareGlobal_tls_model x86_linux (Some "initial-exec"%string)
              InitialExecTLSModel (LLInt 32) "x" false false initial_state)
    as (gvar & s' & E & _ & Em & _).
  - reflexivity.
  - apply lookup_empty.
  - exists gvar, s'. split; [exact E|]. apply Em; discriminate.
Defined.

(** *** C6 *)



(** *** C2 *)

(** A POD struct of four bytes returned by an extern(C) function on Linux is
    sret all the same; and a [cdouble], an aggregate of sixteen bytes,
    returned by an extern(D) function is not sret on a target that returns
    structs in registers. *)
Lemma returnInArg_counterexample :
  isAggregate (TypeStruct S4) = true
  /\ isPOD (TypeStruct S4) false = true
  /\ size x86_linux (TypeStruct S4) = 4
  /\ returnInArg x86_linux (getX86TargetABI x86_linux)
                 (extern_C_returning (TypeStruct S4)) false = true
  /\ isAggregate (TypeBasic Kcomplex64) = true
  /\ canRewriteAsInt x86_darwin (TypeBasic Kcomplex64) = false
  /\ returnStructsInRegs (getX86TargetABI x86_darwin) = true
  /\ returnInArg x86_darwin (getX86TargetABI x86_darwin)
                 (extern_D_returning (TypeBasic Kcomplex64)) false = false.
Proof. repeat split. Qed.

Lemma returnInArg_classification_witness :
  returnInArg x86_darwin (getX86TargetABI x86_darwin)
              (mkTypeFunction true LINKd (TypeStruct S3) VARARGnone) false = false
  /\ returnInArg x86_darwin (getX86TargetABI x86_darwin)
                 (extern_C_returning (TypeStruct S4)) false = false
  /\ returnInArg x86_darwin (getX86TargetABI x86_darwin)
                 (extern_C_returning (TypeStruct S3)) false = true
  /\ rewrite (fty_ret (rewriteFunctionType x86_darwin (getX86TargetABI x86_darwin)
                (mkIrFuncTy (extern_C_returning (TypeStruct S4))
                   (mkIrFuncTyArg (TypeStruct S4) (LLNamedStruct "S4") [] false None)
                   None None None [])))
     = Some integerRewrite
  /\ fty_ret (rewriteFunctionType x86_darwin (getX86TargetABI x86_darwin)
                (mkIrFuncTy (extern_D_returning (TypeBasic Kcomplex32))
                   (mkIrFuncTyArg (TypeBasic Kcomplex32) (LLPair LLFloat LLFloat) []
                                  false None)
                   None None None []))
     = mkIrFuncTyArg (TypeBasic Kcomplex32) (LLPair LLFloat LLFloat) [] false None
  /\ fty_ret (rewriteFunctionType x86_darwin (getX86TargetABI x86_darwin)
                (mkIrFuncTy (extern_C_returning (TypeStruct S3))
                   (mkIrFuncTyArg (TypeStruct S3) (LLNamedStruct "S3") [] false None)
                   None None None []))
     = mkIrFuncTyArg (TypeStruct S3) (LLNamedStruct "S3") [] false None.
Proof.
  split; [|split; [|split; [|split; [|split]]]].
  - apply (proj1 (returnInArg_classification x86_darwin (getX86TargetABI x86_darwin)
                    (mkTypeFunction true LINKd (TypeStruct S3) VARARGnone) false)).
    reflexivity.
  - rewrite (proj1 (proj2 (proj2 (returnInArg_classification x86_darwin
                    (getX86TargetABI x86_darwin) (extern_C_returning (TypeStruct S4)) false)))
               eq_refl eq_refl eq_refl).
    reflexivity.
  - rewrite (proj1 (proj2 (proj2 (returnInArg_classification x86_darwin
                    (getX86TargetABI x86_darwin) (extern_C_returning (TypeStruct S3)) false)))
               eq_refl eq_refl eq_refl).
    reflexivity.
  - apply (proj1 (proj2 (proj2 (proj2 (proj2 (returnInArg_classification x86_darwin
                    (getX86TargetABI x86_darwin) (extern_C_returning (TypeStruct S4)) false)))))
                 (mkIrFuncTy (extern_C_returning (TypeStruct S4))
                    (mkIrFuncTyArg (TypeStruct S4) (LLNamedStruct "S4") [] false None)
                    None None None []));
      reflexivity.
  - apply (proj1 (proj2 (proj2 (proj2 (proj2 (proj2 (proj2
                    (returnInArg_classification x86_darwin (getX86TargetABI x86_darwin)
                       (extern_D_returning (TypeBasic Kcomplex32)) false))))))
                    (mkIrFuncTy (extern_D_returning (TypeBasic Kcomplex32))
                       (mkIrFuncTyArg (TypeBasic Kcomplex32) (LLPair LLFloat LLFloat) []
                                      false None)
                       None None None [])
                    eq_refl eq_refl)).
    reflexivity.
  - apply (proj1 (proj2 (proj2 (proj2 (proj2 (proj2
                    (returnInArg_classification x86_darwin (getX86TargetABI x86_darwin)
                       (extern_C_returning (TypeStruct S3)) false))))))
                 (mkIrFuncTy (extern_C_returning (TypeStruct S3))
                    (mkIrFuncTyArg (TypeStruct S3) (LLNamedStruct "S3") [] false None)
                    None None None [])
                 eq_refl).
    right. right. right. left. reflexivity.
Defined.

(** *** C7 *)

Lemma rewriteFunctionType_InReg_witness :
  (exists front' last',
      args (rewriteFunctionType x86_linux (getX86TargetABI x86_linux)
              (extern_D_taking [by_value tint64 (LLInt 64);
                                by_value (TypeStruct S4) (LLNamedStruct "S4")]))
      = front' ++ [last']
      /\ isInReg last' = true /\ rewrite last' = Some integerRewrite
      /\ ltype last' = LLInt 32)
  /\ (exists front' last',
         args (rewriteFunctionType x86_linux (getX86TargetABI x86_linux)
                 (extern_D_taking [by_value (TypeStruct S3) (LLNamedStruct "S3")]))
         = front' ++ [last']
         /\ isInReg last' = false).
Proof.
  split.
  - destruct (proj2 (proj2 (proj2 (rewriteFunctionType_InReg x86_linux
                (getX86TargetABI x86_linux)
                (extern_D_taking [by_value tint64 (LLInt 64);
                                  by_value (TypeStruct S4) (LLNamedStruct "S4")]))))
                [by_value tint64 (LLInt 64)]
                (by_value (TypeStruct S4) (LLNamedStruct "S4"))
                eq_refl eq_refl eq_refl eq_refl eq_refl)
      as (front' & last' & E & _ & _ & Ei & Er & _).
    + split; [left; reflexivity|]. split; [discriminate|reflexivity].
    + exists front', last'. split; [exact E|]. split; [exact Ei|].
      destruct (Er eq_refl (or_introl eq_refl)) as (R1 & R2 & _).
      split; [exact R1|exact R2].
  - destruct (proj2 (proj2 (proj2 (rewriteFunctionType_InReg x86_linux
                (getX86TargetABI x86_linux)
                (extern_D_taking [by_value (TypeStruct S3) (LLNamedStruct "S3")]))))
                []
                (by_value (TypeStruct S3) (LLNamedStruct "S3"))
                eq_refl eq_refl eq_refl eq_refl eq_refl)
      as (front' & last' & E & _ & _ & _ & _ & E3).
    + split; [left; reflexivity|]. split; [discriminate|reflexivity].
    + exists front', last'. split; [exact E|]. exact (E3 eq_refl).
Defined.

(** ** Concrete cases of the further properties *)

(** *** Integer casts *)

Lemma DtoCastInt_round_trip_witness :
  exists w s1 r s2,
    DtoCastInt x86_linux (DImValue tuns16 (ConstantInt (LLInt 16) 0xFFFF)) tint32
               initial_state
    = (Ret (DImValue tint32 w), s1)
    /\ DtoCastInt x86_linux (DImValue tint32 w) tuns16 s1 = (Ret (DImValue tuns16 r), s2)
    /\ length (scopebb s2) = S (S (length (scopebb initial_state)))
    /\ eval_value (scopebb s2) r = Some 0xFFFF.
Proof.
  apply (DtoCastInt_round_trip x86_linux tuns16 tint32 (ConstantInt (LLInt 16) 0xFFFF)
           initial_state 0xFFFF).
  - reflexivity.
  - discriminate.
  - reflexivity.
  - discriminate.
  - reflexivity.
  - reflexivity.
  - reflexivity.
  - vm_compute. split; [discriminate|reflexivity].
Defined.

Lemma DtoCastInt_same_size_witness :
  DtoCastInt x86_linux (DImValue tint32 (ConstantInt (LLInt 32) 7)) (TypeBasic Kuns32)
             initial_state
  = (Ret (DImValue (TypeBasic Kuns32) (ConstantInt (LLInt 32) 7)), initial_state)
  /\ DtoCast x86_linux (DImValue tint32 (ConstantInt (LLInt 32) 7)) (TypeBasic Kuns32)
             initial_state
     = (Ret (DImValue (TypeBasic Kuns32) (ConstantInt (LLInt 32) 7)), initial_state).
Proof.
  destruct (DtoCastInt_same_size x86_linux (DImValue tint32 (ConstantInt (LLInt 32) 7))
              (TypeBasic Kuns32) initial_state initial_state (ConstantInt (LLInt 32) 7))
    as [E1 E2]; try reflexivity; try discriminate.
  split; [exact E1|]. apply E2. discriminate.
Defined.

Lemma DtoCastInt_narrows_witness :
  exists r s2,
    DtoCastInt x86_linux (DImValue tint32 (ConstantInt (LLInt 32) 0x12345)) tuns16
               initial_state
    = (Ret (DImValue tuns16 r), s2)
    /\ scopebb s2 = [TruncInst (ConstantInt (LLInt 32) 0x12345) (LLInt 16)]
    /\ eval_value (scopebb s2) r = Some 0x2345.
Proof.
  destruct (DtoCastInt_narrows x86_linux (DImValue tint32 (ConstantInt (LLInt 32) 0x12345))
              tuns16 initial_state initial_state (ConstantInt (LLInt 32) 0x12345) 0x12345)
    as (r & s2 & E & B & _ & V & _); try reflexivity; try discriminate.
  exists r, s2. split; [exact E|]. split; [exact B|exact V].
Defined.

Lemma DtoCastInt_to_bool_witness :
  (exists r,
      DtoCastInt x86_linux (DImValue tuns16 (ConstantInt (LLInt 16) 256)) tbool initial_state
      = (Ret (DImValue tbool r), initial_state)
      /\ isConstant r = true
      /\ eval_value (scopebb initial_state) r = Some 1)
  /\ (exists r s2,
         DtoCastInt x86_linux (DImValue tuns16 (Reg 0 (LLInt 16))) tbool
                    (push_instr (ZExtInst (ConstantInt (LLInt 8) 0) (LLInt 16)) initial_state)
         = (Ret (DImValue tbool r), s2)
         /\ scopebb s2 = [ZExtInst (ConstantInt (LLInt 8) 0) (LLInt 16);
                          ICmpNE (Reg 0 (LLInt 16)) (ConstantInt (LLInt 16) 0)]
         /\ eval_value (scopebb s2) r = Some 0).
Proof.
  split.
  - destruct (DtoCastInt_to_bool x86_linux (DImValue tuns16 (ConstantInt (LLInt 16) 256))
                tbool initial_state initial_state (ConstantInt (LLInt 16) 256) 256)
      as (r & s2 & E & _ & _ & C & V & _).
    + reflexivity.
    + discriminate.
    + discriminate.
    + reflexivity.
    + reflexivity.
    + reflexivity.
    + reflexivity.
    + destruct (C eq_refl) as [-> Cr]. exists r. split; [exact E|]. split; [exact Cr|].
      apply V. discriminate.
  - destruct (DtoCastInt_to_bool x86_linux (DImValue tuns16 (Reg 0 (LLInt 16))) tbool
                (push_instr (ZExtInst (ConstantInt (LLInt 8) 0) (LLInt 16)) initial_state)
                (push_instr (ZExtInst (ConstantInt (LLInt 8) 0) (LLInt 16)) initial_state)
                (Reg 0 (LLInt 16)) 0)
      as (r & s2 & E & _ & I & _ & _ & V).
    + reflexivity.
    + discriminate.
    + discriminate.
    + reflexivity.
    + reflexivity.
    + reflexivity.
    + reflexivity.
    + exists r, s2. split; [exact E|]. split; [exact (proj1 (I eq_refl))|].
      apply V. reflexivity.
Defined.

Lemma scalar_casts_are_pure_witness :
  pure_step initial_state
    (push_instr (ZExtInst (ConstantInt (LLInt 16) 0xFFFF) (LLInt 32)) initial_state).
Proof.
  apply (proj1 (scalar_casts_are_pure x86_linux
                  (DImValue tuns16 (ConstantInt (LLInt 16) 0xFFFF)) tint32)
               eq_refl initial_state (DImValue tint32 (Reg 0 (LLInt 32)))).
  reflexivity.
Defined.

Lemma DtoCastFloat_fatal_iff_witness :
  DtoCastFloat x86_linux (DImValue (TypeBasic Kfloat32) (UndefValue LLFloat))
               (TypePointer tint32) initial_state
  = (Fatal, report (InvalidCast (TypeBasic Kfloat32) (TypePointer tint32)) initial_state).
Proof.
  destruct (DtoCastFloat_fatal_iff x86_linux
              (DImValue (TypeBasic Kfloat32) (UndefValue LLFloat))
              (TypePointer tint32) initial_state) as [Hiff Hst].
  - reflexivity.
  - reflexivity.
  - discriminate.
  - apply Hst, Hiff. split; [discriminate|]. split; reflexivity.
Defined.

(** *** Globals *)

Lemma declareGlobal_twice_witness :
  declareGlobal x86_linux GeneralDynamicTLSModel (LLInt 32) "x" false false true
                module_with_x
  = (Ret plain_x, module_with_x)
  /\ fst (declareGlobal x86_linux GeneralDynamicTLSModel (LLInt 64) "x" false false true
                        module_with_x) = Fatal.
Proof.
  assert (module_globals initial_state !! "x"%string = None) as E by apply lookup_empty.
  destruct (declareGlobal_twice x86_linux GeneralDynamicTLSModel (LLInt 32) (LLInt 64) "x"
              false false false false true initial_state module_with_x plain_x)
    as [E1 E2].
  - discriminate.
  - exact E.
  - unfold declareGlobal, bind, getGlobalVariable. rewrite E. reflexivity.
  - split; [exact E1|]. apply E2. left. discriminate.
Defined.

Lemma declareGlobal_frame_witness :
  module_globals module_with_x !! "y"%string = module_globals initial_state !! "y"%string
  /\ module_globals module_with_x !! "x"%string = Some plain_x
  /\ scopebb module_with_x = scopebb initial_state.
Proof.
  assert (module_globals initial_state !! "x"%string = None) as E by apply lookup_empty.
  destruct (declareGlobal_frame x86_linux GeneralDynamicTLSModel (LLInt 32) "x"
              false false false initial_state module_with_x (Ret plain_x))
    as (F1 & _ & F3 & F4).
  - unfold declareGlobal, bind, getGlobalVariable. rewrite E. reflexivity.
  - split; [apply F1; discriminate|]. split; [apply F3; reflexivity|exact F4].
Defined.

(** *** Constant folding *)

Lemma tryToConstElem_restores_errors_witness :
  tryToConstElem x86_linux (UnhandledExp TOKother tint32) initial_state
  = (Ret None, ungagged 0 (report NotAConstant (gagged initial_state)))
  /\ diagnostics (ungagged 0 (report NotAConstant (gagged initial_state)))
     = diagnostics initial_state
  /\ errors (ungagged 0 (report NotAConstant (gagged initial_state)))
     = errors initial_state.
Proof.
  destruct (tryToConstElem_restores_errors x86_linux (UnhandledExp TOKother tint32)
              initial_state (ungagged 0 (report NotAConstant (gagged initial_state))) None)
    as (_ & D & R & _).
  - simpl. exact I.
  - reflexivity.
  - split; [reflexivity|]. split; [exact D|exact R].
Defined.


Lemma IntegerExp_folds_witness :
  toConstElem x86_linux (IntegerExp tuns16 (-1)) initial_state
  = (Ret (Some (ConstantInt (LLInt 16) 65535)), initial_state).
Proof.
  destruct (IntegerExp_folds x86_linux tuns16 (-1) initial_state)
    as (n & _ & _ & Hn & E); [reflexivity|discriminate|].
  rewrite E. rewrite Hn by (vm_compute; discriminate). reflexivity.
Defined.

Lemma pointer_add_sub_fold_witness :
  exists c,
    process x86_linux
      (MinExp (TypePointer tint32)
         (AddExp (TypePointer tint32)
            (SymOffExp (TypePointer tint32)
               (mkDeclaration false
                  (isVarDeclaration
                     (mkVarDeclaration tint32 false 0 None true
                        (Some (GlobalRef "g" (LLPointer (LLInt 32))))))) 0)
            (IntegerExp tint32 3))
         (IntegerExp tint32 3)) initial_state
    = (Ret (Some c), initial_state)
    /\ address_base c = GlobalRef "g" (LLPointer (LLInt 32))
    /\ byte_offset (fun t => bitwidth t / 8) c mod 2 ^ 32 = 0.
Proof.
  destruct (pointer_add_sub_fold x86_linux (fun t => bitwidth t / 8) (TypePointer tint32)
              (SymOffExp (TypePointer tint32)
                 (mkDeclaration false
                    (isVarDeclaration
                       (mkVarDeclaration tint32 false 0 None true
                          (Some (GlobalRef "g" (LLPointer (LLInt 32))))))) 0)
              (IntegerExp tint32 3) (GlobalRef "g" (LLPointer (LLInt 32))) initial_state)
    as (a & b & c & _ & _ & E & _ & (_ & _ & B) & _ & _ & O); try reflexivity.
  exists c. split; [exact E|]. split; [exact B|].
  rewrite Z.sub_0_r in O. exact O.
Defined.

(** *** The x86 ABI *)

Lemma rewriteFunctionType_msvc_alignment_witness :
  exists a rest,
    args (rewriteFunctionType x86_windows_msvc (getX86TargetABI x86_windows_msvc)
            (extern_D_taking
               [mkIrFuncTyArg (TypeStruct S3) (LLPointer (LLNamedStruct "S3"))
                              [ByVal; Alignment] true None;
                by_value tint64 (LLInt 64)]))
    = a :: rest
    /\ isByVal a = true
    /\ hasAttribute Alignment (attrs a) = false.
Proof.
  pose proof (rewriteFunctionType_msvc_alignment x86_windows_msvc
                (getX86TargetABI x86_windows_msvc)
                (extern_D_taking
                   [mkIrFuncTyArg (TypeStruct S3) (LLPointer (LLNamedStruct "S3"))
                                  [ByVal; Alignment] true None;
                    by_value tint64 (LLInt 64)])
                eq_refl) as F.
  rewrite Forall_forall in F.
  exists (mkIrFuncTyArg (TypeStruct S3) (LLPointer (LLNamedStruct "S3")) [ByVal] true None),
         [by_value tint64 (LLInt 64)].
  split; [reflexivity|]. split; [reflexivity|].
  apply F; [|reflexivity].
  change (mkIrFuncTyArg (TypeStruct S3) (LLPointer (LLNamedStruct "S3")) [ByVal] true None
          ∈ [mkIrFuncTyArg (TypeStruct S3) (LLPointer (LLNamedStruct "S3")) [ByVal] true None;
             by_value tint64 (LLInt 64)]).
  apply list_elem_of_here.
Defined.

Lemma rewriteFunctionType_arguments_witness :
  map arg_type
      (args (rewriteFunctionType x86_darwin (getX86TargetABI x86_darwin)
               (mkIrFuncTy (extern_C_returning tvoid) (by_value tvoid LLVoid) None None None
                  [by_value (TypeStruct Empty) (LLNamedStruct "Empty");
                   by_value (TypeStruct S4) (LLNamedStruct "S4");
                   by_value tint32 (LLInt 32)])))
  = [TypeStruct S4; tint32]
  /\ (TypeStruct S4
      ∈ map arg_type
         (args (rewriteFunctionType x86_darwin (getX86TargetABI x86_darwin)
                  (mkIrFuncTy (extern_C_returning tvoid) (by_value tvoid LLVoid) None None None
                  [by_value (TypeStruct Empty) (LLNamedStruct "Empty");
                   by_value (TypeStruct S4) (LLNamedStruct "S4");
                   by_value tint32 (LLInt 32)]))))
  /\ (TypeStruct Empty
      ∉ map arg_type
         (args (rewriteFunctionType x86_darwin (getX86TargetABI x86_darwin)
                  (mkIrFuncTy (extern_C_returning tvoid) (by_value tvoid LLVoid) None None None
                  [by_value (TypeStruct Empty) (LLNamedStruct "Empty");
                   by_value (TypeStruct S4) (LLNamedStruct "S4");
                   by_value tint32 (LLInt 32)]))))
  /\ map arg_type
         (args (rewriteFunctionType x86_linux (getX86TargetABI x86_linux)
                  (mkIrFuncTy (extern_C_returning tvoid) (by_value tvoid LLVoid) None None None
                  [by_value (TypeStruct Empty) (LLNamedStruct "Empty");
                   by_value (TypeStruct S4) (LLNamedStruct "S4");
                   by_value tint32 (LLInt 32)])))
     = [TypeStruct Empty; TypeStruct S4; tint32].
Proof.
  pose proof (proj1 (proj2 (rewriteFunctionType_arguments x86_darwin
                              (getX86TargetABI x86_darwin)
                              (mkIrFuncTy (extern_C_returning tvoid) (by_value tvoid LLVoid) None None None
                  [by_value (TypeStruct Empty) (LLNamedStruct "Empty");
                   by_value (TypeStruct S4) (LLNamedStruct "S4");
                   by_value tint32 (LLInt 32)])))
                    eq_refl eq_refl) as (E & _ & _ & _ & K & D).
  split; [exact E|]. split; [|split].
  - apply K.
    + change (TypeStruct S4 ∈ [TypeStruct Empty; TypeStruct S4; tint32]).
      apply list_elem_of_further, list_elem_of_here.
    + intros sd [= <-]. discriminate.
  - apply (D (TypeStruct Empty) Empty); reflexivity.
  - apply (proj1 (proj1 (rewriteFunctionType_arguments x86_linux
                           (getX86TargetABI x86_linux)
                           (mkIrFuncTy (extern_C_returning tvoid) (by_value tvoid LLVoid) None None None
                  [by_value (TypeStruct Empty) (LLNamedStruct "Empty");
                   by_value (TypeStruct S4) (LLNamedStruct "S4");
                   by_value tint32 (LLInt 32)]))
                        (or_intror eq_refl))).
Defined.

Lemma mangle_prefix_witness :
  mangleVariableForLLVM x86_windows_msvc "?x@@3HA" LINKcpp
  = mangleFunctionForLLVM x86_windows_msvc "?x@@3HA" LINKcpp.
Proof.
  apply (proj2 (proj2 (mangle_prefix x86_windows_msvc "?x@@3HA" LINKcpp)));
    discriminate.
Defined.

Lemma callingConv_cases_witness :
  callingConv (getX86TargetABI x86_windows_msvc) LINKcpp None (Some true)
  = Some CC_X86_ThisCall.
Proof.
  apply (proj2 (proj1 (proj2 (callingConv_cases (getX86TargetABI x86_windows_msvc)
                                LINKcpp None (Some true))))).
  repeat split; reflexivity.
Defined.

(** *** String literals, symbols and variables *)

Lemma buildStringLiteralConstant_shape_witness :
  exists ct vals,
    buildStringLiteralConstant x86_linux
      (mkStringExp 2 (TypeDArray (TypeBasic Kwchar)) [104; 105]) true
    = ConstantArray (LLArray (Z.of_nat (length vals)) ct) vals
    /\ length vals = 3%nat
    /\ last vals = Some (ConstantInt ct 0).
Proof.
  destruct (buildStringLiteralConstant_shape x86_linux
              (mkStringExp 2 (TypeDArray (TypeBasic Kwchar)) [104; 105]) true)
    as (ct & vals & E & L & _ & Z0 & _).
  exists ct, vals. split; [exact E|]. split; [exact L|]. apply Z0. reflexivity.
Defined.

Lemma getParentFunc_nearest_witness :
  getParentFunc
    (mkDsymbol "x" SymOther
       (mkDsymbol "S" (SymAggregateDeclaration true)
          (mkDsymbol "f" (SymFuncDeclaration (mkFuncDeclaration false false LINKd None))
             nullptr)))
  = mkDsymbol "f" (SymFuncDeclaration (mkFuncDeclaration false false LINKd None)) nullptr.
Proof.
  apply (proj2 (getParentFunc_nearest
                  (mkDsymbol "x" SymOther
                     (mkDsymbol "S" (SymAggregateDeclaration true)
                        (mkDsymbol "f"
                           (SymFuncDeclaration (mkFuncDeclaration false false LINKd None))
                           nullptr)))
                  (mkDsymbol "f"
                     (SymFuncDeclaration (mkFuncDeclaration false false LINKd None))
                     nullptr)
                  ltac:(discriminate))).
  split; [discriminate|]. split; [intros f; discriminate|].
  exists [mkDsymbol "S" (SymAggregateDeclaration true)
            (mkDsymbol "f" (SymFuncDeclaration (mkFuncDeclaration false false LINKd None))
               nullptr)], [].
  split; [reflexivity|]. split; [eexists; reflexivity|].
  constructor; [split; [reflexivity|discriminate]|constructor].
Defined.

Lemma defineOnDeclare_dllimport_witness :
  dllimportDataSymbol (mkParam false DLLImport_defaultLibsOnly)
    (mkSymbolInfo (Some (Some (mkModuleDeclaration ["std"%string] "array"))) true false)
  = false.
Proof.
  apply (proj1 (defineOnDeclare_dllimport (mkParam false DLLImport_defaultLibsOnly)
                  (mkSymbolInfo
                     (Some (Some (mkModuleDeclaration ["std"%string] "array"))) true false)
                  false)
               eq_refl eq_refl).
Defined.

Lemma isDefaultLibSymbol_by_name_witness :
  isDefaultLibSymbol
    (mkSymbolInfo (Some (Some (mkModuleDeclaration ["std"%string; "io"%string] "file")))
       false false)
  <> true.
Proof.
  intros E.
  apply (proj1 (isDefaultLibSymbol_by_name _)) in E.
  destruct E as (md & [= <-] & [N|[N|(a & b & r & [= <- <- _] & [N|[N|[N|[_ N]]]])]]);
    try discriminate.
  apply N. reflexivity.
Defined.

Lemma makeVarDValue_canonical_witness :
  exists addr s'',
    DtoLVal (DLValue tint32 (Reg 0 (LLPointer (LLInt 32))))
            (push_instr (BitCastInst (GlobalRef "g" (LLPointer (LLInt 64)))
                                     (LLPointer (LLInt 32))) initial_state)
    = (Ret addr, s'')
    /\ getType addr = LLPointer (LLInt 32).
Proof.
  destruct (makeVarDValue_canonical x86_linux tint32
              (mkVarDeclaration tint32 false 0 None true
                 (Some (GlobalRef "g" (LLPointer (LLInt 64)))))
              (mkStorageClass false false false) None initial_state
              (push_instr (BitCastInst (GlobalRef "g" (LLPointer (LLInt 64)))
                                       (LLPointer (LLInt 32))) initial_state)
              (DLValue tint32 (Reg 0 (LLPointer (LLInt 32)))))
    as (val & addr & s'' & _ & _ & _ & E & T & _).
  - reflexivity.
  - exists addr, s''. split; [exact E|exact T].
Defined.
